(** * Reviewer assignment service: store, engine and request boundary

  A shallow embedding of the three Go packages of the service
  ([store], [service], [handlers]) together with the SQL schema the
  store runs against.

  - The relational store is a record of four tables, each a list of rows
    in insertion order.  Every statement of [store] is embedded with the
    constraints of the schema that it can violate (primary keys, foreign
    keys, VARCHAR bounds); a violated constraint makes the statement fail
    and leaves the tables as they were.
  - A [context.Context] is the only other way a statement fails: a
    context may be cancelled once a given number of statements has been
    issued against the store, after which every statement carrying it
    fails without touching the tables.
  - [time.Now] and the package-level [math/rand] source are read-only
    oracles with a cursor, so every theorem quantifies over all clocks
    and all random sequences.
  - Effects are threaded by a state monad whose state survives an error:
    the Go code never rolls back, and neither does the monad. *)

From Stdlib Require Import String Ascii List ZArith Bool Arith Lia Permutation.
Import ListNotations.
Local Open Scope string_scope.
Local Open Scope list_scope.
Local Open Scope nat_scope.

(** ** The Go runtime pieces the code relies on *)

Module runtime.

(** Errors of the database driver. *)
Inductive SQLError : Type :=
| ContextCanceled
| UniqueViolation
| ForeignKeyViolation
| ValueTooLong.

(** The sentinel errors declared by package [service], and driver errors
    passed through unchanged. *)
Inductive error : Type :=
| ErrTeamExists
| ErrPRExists
| ErrPRMerged
| ErrNotAssigned
| ErrNoCandidate
| ErrNotFound
| ErrSQL (e : SQLError).

(** What a call produces: a value, a returned [error], or a run-time
    panic (nil dereference, index out of range, [Intn] of zero). *)
Inductive outcome (A : Type) : Type :=
| Ok (a : A)
| Err (e : error)
| Panic.
Arguments Ok {A} a.
Arguments Err {A} e.
Arguments Panic {A}.

(** [Background] is never cancelled; [CancelAt d] is done as soon as [d]
    statements have been issued against the store. *)
Inductive Context : Type :=
| Background
| CancelAt (d : nat).

Record World (D : Type) : Type := mkWorld {
  db : D;                 (* the tables *)
  stmts : nat;            (* statements issued so far *)
  clock : nat -> Z;       (* successive readings of time.Now *)
  clock_reads : nat;
  rand : nat -> nat;      (* successive raw draws of math/rand *)
  rand_draws : nat
}.
Arguments mkWorld {D}.
Arguments db {D}.
Arguments stmts {D}.
Arguments clock {D}.
Arguments clock_reads {D}.
Arguments rand {D}.
Arguments rand_draws {D}.

Definition M (D A : Type) : Type := World D -> outcome A * World D.

Definition ret {D A} (a : A) : M D A := fun w => (Ok a, w).
Definition fail {D A} (e : error) : M D A := fun w => (Err e, w).
Definition panic {D A} : M D A := fun w => (Panic, w).

Definition bind {D A B} (m : M D A) (k : A -> M D B) : M D B :=
  fun w =>
    match m w with
    | (Ok a, w') => k a w'
    | (Err e, w') => (Err e, w')
    | (Panic, w') => (Panic, w')
    end.

(** [r, err := m; if err != nil { h err } else { k r }] *)
Definition try {D A B} (m : M D A) (k : A -> M D B) (h : error -> M D B)
  : M D B :=
  fun w =>
    match m w with
    | (Ok a, w') => k a w'
    | (Err e, w') => h e w'
    | (Panic, w') => (Panic, w')
    end.

Definition set_db {D} (d : D) (w : World D) : World D :=
  mkWorld d (stmts w) (clock w) (clock_reads w) (rand w) (rand_draws w).

Definition count_stmt {D} (w : World D) : World D :=
  mkWorld (db w) (S (stmts w)) (clock w) (clock_reads w) (rand w) (rand_draws w).

Definition advance_clock {D} (w : World D) : World D :=
  mkWorld (db w) (stmts w) (clock w) (S (clock_reads w)) (rand w) (rand_draws w).

Definition advance_rand {D} (w : World D) : World D :=
  mkWorld (db w) (stmts w) (clock w) (clock_reads w) (rand w) (S (rand_draws w)).

Definition done (ctx : Context) (issued : nat) : bool :=
  match ctx with
  | Background => false
  | CancelAt d => d <=? issued
  end.

(** One [QueryContext] / [QueryRowContext] / [ExecContext] round trip:
    refused when the context is done, counted otherwise. *)
Definition roundtrip {D} (ctx : Context) : M D unit :=
  fun w =>
    if done ctx (stmts w) then (Err (ErrSQL ContextCanceled), w)
    else (Ok tt, count_stmt w).

(** A read-only statement. *)
Definition query {D A} (ctx : Context) (q : D -> A) : M D A :=
  bind (roundtrip ctx) (fun _ w => (Ok (q (db w)), w)).

(** A writing statement: [q] yields the new tables or the violation. *)
Definition exec {D} (ctx : Context) (q : D -> SQLError + D) : M D unit :=
  bind (roundtrip ctx)
       (fun _ w =>
          match q (db w) with
          | inl e => (Err (ErrSQL e), w)
          | inr d => (Ok tt, set_db d w)
          end).

(** [time.Now()] *)
Definition time_Now {D} : M D Z :=
  fun w =>
    (Ok (clock w (clock_reads w)), advance_clock w).

(** [rand.Intn(n)]: panics when [n <= 0], otherwise a value below [n]. *)
Definition rand_Intn {D} (n : nat) : M D nat :=
  fun w =>
    match n with
    | 0 => (Panic, w)
    | S _ =>
        (Ok (rand w (rand_draws w) mod n), advance_rand w)
    end.

(** [rand.Shuffle(n, swap)]: for [i] from [n-1] down to [1], draw
    [j := Intn(i+1)] and call [swap(i, j)].  The callback works on the
    caller's slice, here the threaded value [s]; it answers [None] when
    an index is out of range. *)
Fixpoint shuffle_from {D T} (i : nat) (swap : nat -> nat -> T -> option T)
         (s : T) : M D T :=
  match i with
  | 0 => ret s
  | S i' =>
      bind (rand_Intn (S i))
           (fun j =>
              match swap i j s with
              | Some s' => shuffle_from i' swap s'
              | None => panic
              end)
  end.

Definition rand_Shuffle {D T} (n : nat)
           (swap : nat -> nat -> T -> option T) (s : T) : M D T :=
  shuffle_from (n - 1) swap s.

End runtime.

Import runtime.

Declare Scope go_scope.
Delimit Scope go_scope with go.
Notation "x <- m ;; k" := (bind m (fun x => k))
(at level 61, m at next level, right associativity) : go_scope.
Notation "m ;;; k" := (bind m (fun _ => k))
(at level 61, right associativity) : go_scope.
Local Open Scope go_scope.

(** ** Package [store] and the schema *)

Module store.

Record Team : Type := mkTeam {
  Name : string;
  TeamCreatedAt : Z
}.

Record User : Type := mkUser {
  UserID : string;
  Username : string;
  IsActive : bool;
  TeamName : string;
  UserCreatedAt : Z
}.

Inductive PullRequestStatus : Type :=
| PRStatusOpen
| PRStatusMerged.

Record PullRequest : Type := mkPullRequest {
  PullRequestID : string;
  PullRequestName : string;
  AuthorID : string;
  Status : PullRequestStatus;
  CreatedAt : Z;
  MergedAt : option Z
}.

(** A row of [pr_reviewers]. *)
Record ReviewerEdge : Type := mkEdge {
  edge_pr : string;
  edge_user : string;
  assigned_at : Z
}.

Record Tables : Type := mkTables {
  teams : list Team;
  users : list User;
  pull_requests : list PullRequest;
  pr_reviewers : list ReviewerEdge
}.

Definition empty : Tables := mkTables [] [] [] [].

Definition World := runtime.World Tables.
Definition M := runtime.M Tables.

Definition status_eqb (a b : PullRequestStatus) : bool :=
  match a, b with
  | PRStatusOpen, PRStatusOpen => true
  | PRStatusMerged, PRStatusMerged => true
  | _, _ => false
  end.

(** [VARCHAR(n)] *)
Definition fits (n : nat) (s : string) : bool := String.length s <=? n.

Definition has_team (d : Tables) (name : string) : bool :=
  existsb (fun t => Name t =? name)%string (teams d).
Definition has_user (d : Tables) (id : string) : bool :=
  existsb (fun u => UserID u =? id)%string (users d).
Definition has_pr (d : Tables) (id : string) : bool :=
  existsb (fun p => PullRequestID p =? id)%string (pull_requests d).
Definition has_edge (d : Tables) (prID userID : string) : bool :=
  existsb (fun e => (edge_pr e =? prID)%string && (edge_user e =? userID)%string)
          (pr_reviewers d).

Definition CreateTeam (ctx : Context) (team : Team) : M unit :=
  now <- time_Now ;;
  exec ctx (fun d =>
    if negb (fits 100 (Name team)) then inl ValueTooLong
    else if has_team d (Name team) then inl UniqueViolation
    else inr (mkTables (teams d ++ [mkTeam (Name team) now])
                       (users d) (pull_requests d) (pr_reviewers d))).

Definition GetTeam (ctx : Context) (name : string) : M (option Team) :=
  query ctx (fun d => find (fun t => Name t =? name)%string (teams d)).

Definition GetTeamMembers (ctx : Context) (teamName : string)
  : M (list User) :=
  query ctx (fun d => filter (fun u => TeamName u =? teamName)%string (users d)).

(** [INSERT ... ON CONFLICT (user_id) DO UPDATE SET username, is_active,
    team_name]: the row keeps its place and its [created_at]. *)
Definition upsert_user (user : User) (now : Z) (us : list User) : list User :=
  if existsb (fun u => UserID u =? UserID user)%string us then
    map (fun u =>
           if (UserID u =? UserID user)%string
           then mkUser (UserID u) (Username user) (IsActive user)
                       (TeamName user) (UserCreatedAt u)
           else u) us
  else us ++ [mkUser (UserID user) (Username user) (IsActive user)
                     (TeamName user) now].

Definition CreateOrUpdateUser (ctx : Context) (user : User) : M unit :=
  now <- time_Now ;;
  exec ctx (fun d =>
    if negb (fits 100 (UserID user) && fits 100 (Username user)
             && fits 100 (TeamName user)) then inl ValueTooLong
    else if negb (has_team d (TeamName user)) then inl ForeignKeyViolation
    else inr (mkTables (teams d) (upsert_user user now (users d))
                       (pull_requests d) (pr_reviewers d))).

Definition GetUser (ctx : Context) (userID : string) : M (option User) :=
  query ctx (fun d => find (fun u => UserID u =? userID)%string (users d)).

Definition UpdateUser (ctx : Context) (user : User) : M unit :=
  exec ctx (fun d =>
    if negb (fits 100 (Username user) && fits 100 (TeamName user))
    then inl ValueTooLong
    else if existsb (fun u => UserID u =? UserID user)%string (users d)
              && negb (has_team d (TeamName user))
    then inl ForeignKeyViolation
    else inr (mkTables (teams d)
                (map (fun u =>
                        if (UserID u =? UserID user)%string
                        then mkUser (UserID u) (Username user) (IsActive user)
                                    (TeamName user) (UserCreatedAt u)
                        else u) (users d))
                (pull_requests d) (pr_reviewers d))).

Definition GetActiveTeamMembers (ctx : Context) (teamName : string)
           (excludeUserID : option string) : M (list User) :=
  query ctx (fun d =>
    filter (fun u =>
              (TeamName u =? teamName)%string && IsActive u &&
              match excludeUserID with
              | Some x => negb (UserID u =? x)%string
              | None => true
              end) (users d)).

(** The insert names five columns; [merged_at] is left NULL and
    [created_at] is read from the clock again. *)
Definition CreatePR (ctx : Context) (pr : PullRequest) : M unit :=
  now <- time_Now ;;
  exec ctx (fun d =>
    if negb (fits 100 (PullRequestID pr) && fits 200 (PullRequestName pr)
             && fits 100 (AuthorID pr)) then inl ValueTooLong
    else if has_pr d (PullRequestID pr) then inl UniqueViolation
    else if negb (has_user d (AuthorID pr)) then inl ForeignKeyViolation
    else inr (mkTables (teams d) (users d)
                (pull_requests d ++
                   [mkPullRequest (PullRequestID pr) (PullRequestName pr)
                                  (AuthorID pr) (Status pr) now None])
                (pr_reviewers d))).

Definition GetPR (ctx : Context) (prID : string) : M (option PullRequest) :=
  query ctx (fun d =>
    find (fun p => PullRequestID p =? prID)%string (pull_requests d)).

Definition UpdatePR (ctx : Context) (pr : PullRequest) : M unit :=
  exec ctx (fun d =>
    if negb (fits 200 (PullRequestName pr)) then inl ValueTooLong
    else inr (mkTables (teams d) (users d)
                (map (fun p =>
                        if (PullRequestID p =? PullRequestID pr)%string
                        then mkPullRequest (PullRequestID p)
                               (PullRequestName pr) (AuthorID p) (Status pr)
                               (CreatedAt p) (MergedAt pr)
                        else p) (pull_requests d))
                (pr_reviewers d))).

Definition AssignReviewer (ctx : Context) (prID userID : string) : M unit :=
  now <- time_Now ;;
  exec ctx (fun d =>
    if negb (fits 100 prID && fits 100 userID) then inl ValueTooLong
    else if has_edge d prID userID then inl UniqueViolation
    else if negb (has_pr d prID && has_user d userID)
    then inl ForeignKeyViolation
    else inr (mkTables (teams d) (users d) (pull_requests d)
                       (pr_reviewers d ++ [mkEdge prID userID now]))).

(** [users u JOIN pr_reviewers pr ON u.user_id = pr.user_id
    WHERE pr.pull_request_id = $1] *)
Definition reviewers_of (d : Tables) (prID : string) : list User :=
  flat_map (fun u =>
              map (fun _ => u)
                  (filter (fun e => (UserID u =? edge_user e)%string
                                    && (edge_pr e =? prID)%string)
                          (pr_reviewers d)))
           (users d).

Definition GetPRReviewers (ctx : Context) (prID : string) : M (list User) :=
  query ctx (fun d => reviewers_of d prID).

Definition RemoveReviewer (ctx : Context) (prID userID : string) : M unit :=
  exec ctx (fun d =>
    inr (mkTables (teams d) (users d) (pull_requests d)
           (filter (fun e => negb ((edge_pr e =? prID)%string
                                   && (edge_user e =? userID)%string))
                   (pr_reviewers d)))).

(** [pull_requests p JOIN pr_reviewers pr ON p.pull_request_id =
    pr.pull_request_id WHERE pr.user_id = $1] *)
Definition assigned_prs (d : Tables) (userID : string) : list PullRequest :=
  flat_map (fun p =>
              map (fun _ => p)
                  (filter (fun e => (PullRequestID p =? edge_pr e)%string
                                    && (edge_user e =? userID)%string)
                          (pr_reviewers d)))
           (pull_requests d).

Definition GetUserAssignedPRs (ctx : Context) (userID : string)
  : M (list PullRequest) :=
  query ctx (fun d => assigned_prs d userID).

End store.

(** ** Package [service] *)

Module service.

Record TeamMember : Type := mkTeamMember {
  UserID : string;
  Username : string;
  IsActive : bool
}.

Record PullRequestWithReviewers : Type := mkPRWithReviewers {
  PullRequest : store.PullRequest;
  AssignedReviewers : list store.User
}.

Definition M := store.M.

(** Go's [map[string]bool], read with the zero value for a missing key. *)
Definition gomap : Type := list (string * bool).
Definition gomap_set (m : gomap) (k : string) (v : bool) : gomap := (k, v) :: m.
Definition gomap_get (m : gomap) (k : string) : bool :=
  match find (fun kv => (fst kv =? k)%string) m with
  | Some kv => snd kv
  | None => false
  end.

(** [l[i] = x] on a slice, for an index in range. *)
Fixpoint set_at {A} (l : list A) (i : nat) (x : A) : list A :=
  match l, i with
  | [], _ => []
  | _ :: t, 0 => x :: t
  | h :: t, S i' => h :: set_at t i' x
  end.

Definition min (a b : nat) : nat := if a <? b then a else b.

Fixpoint upsert_members (ctx : Context) (teamName : string)
         (members : list TeamMember) : M unit :=
  match members with
  | [] => ret tt
  | member :: rest =>
      let user := store.mkUser (UserID member) (Username member)
                               (IsActive member) teamName 0%Z in
      store.CreateOrUpdateUser ctx user ;;;
      upsert_members ctx teamName rest
  end.

Definition CreateOrUpdateTeam (ctx : Context) (teamName : string)
           (members : list TeamMember) : M store.Team :=
  let create :=
    let team := store.mkTeam teamName 0%Z in
    store.CreateTeam ctx team ;;;
    upsert_members ctx teamName members ;;;
    ret team in
  try (store.GetTeam ctx teamName)
      (fun existingTeam =>
         match existingTeam with
         | Some _ => fail ErrTeamExists
         | None => create
         end)
      (fun _ => create).

Definition GetTeam (ctx : Context) (teamName : string)
  : M (store.Team * list store.User) :=
  team <- store.GetTeam ctx teamName ;;
  match team with
  | None => fail ErrNotFound
  | Some team =>
      members <- store.GetTeamMembers ctx teamName ;;
      ret (team, members)
  end.

(** [user.IsActive = isActive] dereferences the pointer [GetUser]
    returned; it is nil when no row matched. *)
Definition SetUserActive (ctx : Context) (userID : string) (isActive : bool)
  : M store.User :=
  user <- store.GetUser ctx userID ;;
  match user with
  | None => panic
  | Some u =>
      let user := store.mkUser (store.UserID u) (store.Username u) isActive
                               (store.TeamName u) (store.UserCreatedAt u) in
      store.UpdateUser ctx user ;;;
      ret user
  end.

(** [shuffled[i], shuffled[j] = shuffled[j], shuffled[i]] *)
Definition swap (i j : nat) (shuffled : list store.User)
  : option (list store.User) :=
  match nth_error shuffled i, nth_error shuffled j with
  | Some a, Some b => Some (set_at (set_at shuffled i b) j a)
  | _, _ => None
  end.

Fixpoint assign_all (ctx : Context) (prID : string)
         (reviewers : list store.User) : M unit :=
  match reviewers with
  | [] => ret tt
  | reviewer :: rest =>
      store.AssignReviewer ctx prID (store.UserID reviewer) ;;;
      assign_all ctx prID rest
  end.

Definition CreatePR (ctx : Context) (prID prName authorID : string)
  : M PullRequestWithReviewers :=
  existingPR <- store.GetPR ctx prID ;;
  match existingPR with
  | Some _ => fail ErrPRExists
  | None =>
      author <- store.GetUser ctx authorID ;;
      match author with
      | None => fail ErrNotFound
      | Some author =>
          activeMembers <-
            store.GetActiveTeamMembers ctx (store.TeamName author)
                                       (Some authorID) ;;
          reviewers <-
            (if 0 <? length activeMembers then
               let count := min 2 (length activeMembers) in
               shuffled <-
                 rand_Shuffle (length activeMembers) swap activeMembers ;;
               ret (firstn count shuffled)
             else ret []) ;;
          now <- time_Now ;;
          let pr := store.mkPullRequest prID prName authorID
                      store.PRStatusOpen now None in
          store.CreatePR ctx pr ;;;
          assign_all ctx prID reviewers ;;;
          ret (mkPRWithReviewers pr reviewers)
      end
  end.

Definition MergePR (ctx : Context) (prID : string)
  : M PullRequestWithReviewers :=
  pr <- store.GetPR ctx prID ;;
  match pr with
  | None => fail ErrNotFound
  | Some pr =>
      if store.status_eqb (store.Status pr) store.PRStatusMerged then
        reviewers <- store.GetPRReviewers ctx prID ;;
        ret (mkPRWithReviewers pr reviewers)
      else
        now <- time_Now ;;
        let pr := store.mkPullRequest (store.PullRequestID pr)
                    (store.PullRequestName pr) (store.AuthorID pr)
                    store.PRStatusMerged (store.CreatedAt pr) (Some now) in
        store.UpdatePR ctx pr ;;;
        reviewers <- store.GetPRReviewers ctx prID ;;
        ret (mkPRWithReviewers pr reviewers)
  end.

Definition is_assigned (currentReviewers : list store.User)
           (oldUserID : string) : bool :=
  existsb (fun reviewer => (store.UserID reviewer =? oldUserID)%string)
          currentReviewers.

Definition reviewer_map (currentReviewers : list store.User) : gomap :=
  fold_left (fun m reviewer => gomap_set m (store.UserID reviewer) true)
            currentReviewers [].

Definition available (activeMembers currentReviewers : list store.User)
           (oldUserID : string) : list store.User :=
  let currentReviewerMap := reviewer_map currentReviewers in
  filter (fun member =>
            negb (gomap_get currentReviewerMap (store.UserID member))
            && negb (store.UserID member =? oldUserID)%string)
         activeMembers.

Definition ReassignReviewer (ctx : Context) (prID oldUserID : string)
  : M (PullRequestWithReviewers * string) :=
  pr <- store.GetPR ctx prID ;;
  match pr with
  | None => fail ErrNotFound
  | Some pr =>
      if store.status_eqb (store.Status pr) store.PRStatusMerged then
        fail ErrPRMerged
      else
        currentReviewers <- store.GetPRReviewers ctx prID ;;
        if negb (is_assigned currentReviewers oldUserID) then
          fail ErrNotAssigned
        else
          oldReviewer <- store.GetUser ctx oldUserID ;;
          match oldReviewer with
          | None => fail ErrNotFound
          | Some oldReviewer =>
              activeMembers <-
                store.GetActiveTeamMembers ctx (store.TeamName oldReviewer)
                                           (Some (store.AuthorID pr)) ;;
              let availableMembers :=
                available activeMembers currentReviewers oldUserID in
              if length availableMembers =? 0 then fail ErrNoCandidate
              else
                k <- rand_Intn (length availableMembers) ;;
                match nth_error availableMembers k with
                | None => panic
                | Some newReviewer =>
                    store.RemoveReviewer ctx prID oldUserID ;;;
                    store.AssignReviewer ctx prID
                                         (store.UserID newReviewer) ;;;
                    updatedReviewers <- store.GetPRReviewers ctx prID ;;
                    ret (mkPRWithReviewers pr updatedReviewers,
                         store.UserID newReviewer)
                end
          end
  end.

(** The body of the [range prs] loop; each iteration has its own [pr]
    (per-iteration loop variables, Go 1.22 and later). *)
Fixpoint with_reviewers (ctx : Context) (prs : list store.PullRequest)
         (result : list PullRequestWithReviewers)
  : M (list PullRequestWithReviewers) :=
  match prs with
  | [] => ret result
  | pr :: rest =>
      reviewers <- store.GetPRReviewers ctx (store.PullRequestID pr) ;;
      with_reviewers ctx rest (result ++ [mkPRWithReviewers pr reviewers])
  end.

Definition GetUserAssignedPRs (ctx : Context) (userID : string)
  : M (list PullRequestWithReviewers) :=
  prs <- store.GetUserAssignedPRs ctx userID ;;
  with_reviewers ctx prs [].

Definition GetPR (ctx : Context) (prID : string)
  : M PullRequestWithReviewers :=
  pr <- store.GetPR ctx prID ;;
  match pr with
  | None => fail ErrNotFound
  | Some pr =>
      reviewers <- store.GetPRReviewers ctx prID ;;
      ret (mkPRWithReviewers pr reviewers)
  end.

End service.

(** ** Package [handlers]

    The generated package [api] is known through the fields the handlers
    read and write; its records are declared here with those fields. *)

Module api.

Record TeamMember : Type := mkTeamMember {
  UserId : string;
  Username : string;
  IsActive : bool
}.

Record Team : Type := mkTeam {
  TeamName : string;
  Members : list TeamMember
}.

Record User : Type := mkUser {
  user_UserId : string;
  user_Username : string;
  user_TeamName : string;
  user_IsActive : bool
}.

Record PullRequest : Type := mkPullRequest {
  PullRequestId : string;
  PullRequestName : string;
  AuthorId : string;
  Status : store.PullRequestStatus;
  AssignedReviewers : list string;
  CreatedAt : option Z;
  MergedAt : option Z
}.

Record PullRequestShort : Type := mkPullRequestShort {
  short_PullRequestId : string;
  short_PullRequestName : string;
  short_AuthorId : string;
  short_Status : store.PullRequestStatus
}.

Record ErrorResponse : Type := mkErrorResponse {
  Code : string;
  Message : string
}.

Record PostPullRequestCreateJSONRequestBody : Type := mkCreateBody {
  create_PullRequestId : string;
  create_PullRequestName : string;
  create_AuthorId : string
}.

Record PostPullRequestReassignJSONRequestBody : Type := mkReassignBody {
  reassign_PullRequestId : string;
  reassign_OldUserId : string
}.


End api.

Module handlers.

(** What [ctx.JSON(code, value)] writes. *)
Inductive Payload : Type :=
| JError (e : api.ErrorResponse)
| JTeam (t : api.Team)
| JTeamWrapped (t : api.Team)
| JPullRequest (pr : api.PullRequest)
| JReassigned (pr : api.PullRequest) (replaced_by : string)
| JUserReviews (user_id : string) (prs : list api.PullRequestShort)
| JUser (u : api.User).

Record Response : Type := mkResponse {
  status : nat;
  payload : Payload
}.

Definition M := store.M.

(** [err.Error()] *)
Definition Error (err : error) : string :=
  match err with
  | ErrTeamExists => "team_name already exists"
  | ErrPRExists => "PR id already exists"
  | ErrPRMerged => "cannot reassign on merged PR"
  | ErrNotAssigned => "reviewer is not assigned to this PR"
  | ErrNoCandidate => "no active replacement candidate in team"
  | ErrNotFound => "resource not found"
  | ErrSQL ContextCanceled => "context canceled"
  | ErrSQL UniqueViolation => "pq: duplicate key value violates unique constraint"
  | ErrSQL ForeignKeyViolation => "pq: insert or update violates foreign key constraint"
  | ErrSQL ValueTooLong => "pq: value too long for type character varying"
  end.

Definition JSON (code : nat) (p : Payload) : M Response :=
  ret (mkResponse code p).

Definition createError (code message : string) : Payload :=
  JError (api.mkErrorResponse code message).

Definition handleServiceError (err : error) : M Response :=
  match err with
  | ErrPRExists => JSON 409 (createError "PR_EXISTS" (Error err))
  | ErrPRMerged => JSON 409 (createError "PR_MERGED" (Error err))
  | ErrNotAssigned => JSON 409 (createError "NOT_ASSIGNED" (Error err))
  | ErrNoCandidate => JSON 409 (createError "NO_CANDIDATE" (Error err))
  | ErrNotFound => JSON 404 (createError "NOT_FOUND" (Error err))
  | _ => JSON 500 (createError "INTERNAL_ERROR" (Error err))
  end.

Definition getUserIDs (users : list store.User) : list string :=
  map store.UserID users.

Definition convertPullRequestToAPI (pr : service.PullRequestWithReviewers)
  : api.PullRequest :=
  let p := service.PullRequest pr in
  api.mkPullRequest (store.PullRequestID p) (store.PullRequestName p)
    (store.AuthorID p) (store.Status p)
    (getUserIDs (service.AssignedReviewers pr))
    (Some (store.CreatedAt p)) (store.MergedAt p).

Definition invalid_request : M Response :=
  JSON 400 (createError "INVALID_REQUEST" "Invalid request body").

(** In every handler the request argument is what [ctx.Bind] produced:
    [None] when binding failed. *)
Definition PostPullRequestCreate (ctx : Context)
           (req : option api.PostPullRequestCreateJSONRequestBody)
  : M Response :=
  match req with
  | None => invalid_request
  | Some req =>
      try (service.CreatePR ctx (api.create_PullRequestId req)
             (api.create_PullRequestName req) (api.create_AuthorId req))
          (fun pr => JSON 201 (JPullRequest (convertPullRequestToAPI pr)))
          handleServiceError
  end.

Definition PostPullRequestMerge (ctx : Context) (req : option string)
  : M Response :=
  match req with
  | None => invalid_request
  | Some PullRequestId =>
      try (service.MergePR ctx PullRequestId)
          (fun pr => JSON 200 (JPullRequest (convertPullRequestToAPI pr)))
          handleServiceError
  end.

Definition PostPullRequestReassign (ctx : Context)
           (req : option api.PostPullRequestReassignJSONRequestBody)
  : M Response :=
  match req with
  | None => invalid_request
  | Some req =>
      try (service.ReassignReviewer ctx (api.reassign_PullRequestId req)
             (api.reassign_OldUserId req))
          (fun r => JSON 200 (JReassigned (convertPullRequestToAPI (fst r))
                                          (snd r)))
          handleServiceError
  end.

Definition to_api_members (members : list store.User) : list api.TeamMember :=
  map (fun m => api.mkTeamMember (store.UserID m) (store.Username m)
                                 (store.IsActive m)) members.

Definition PostTeamAdd (ctx : Context) (req : option api.Team) : M Response :=
  match req with
  | None => invalid_request
  | Some req =>
      let members :=
        map (fun m => service.mkTeamMember (api.UserId m) (api.Username m)
                                           (api.IsActive m))
            (api.Members req) in
      try (service.CreateOrUpdateTeam ctx (api.TeamName req) members)
          (fun team =>
             try (service.GetTeam ctx (api.TeamName req))
                 (fun r =>
                    JSON 201 (JTeamWrapped
                                (api.mkTeam (store.Name team)
                                            (to_api_members (snd r)))))
                 (fun err => JSON 500 (createError "INTERNAL_ERROR" (Error err))))
          (fun err =>
             match err with
             | ErrTeamExists => JSON 400 (createError "TEAM_EXISTS" (Error err))
             | _ => JSON 500 (createError "INTERNAL_ERROR" (Error err))
             end)
  end.




End handlers.

(** ** The engine as a transition system *)

Module engine.

Inductive Call : Type :=
| CreateOrUpdateTeam (teamName : string) (members : list service.TeamMember)
| GetTeam (teamName : string)
| SetUserActive (userID : string) (isActive : bool)
| CreatePR (prID prName authorID : string)
| MergePR (prID : string)
| ReassignReviewer (prID oldUserID : string)
| GetUserAssignedPRs (userID : string)
| GetPR (prID : string).

(** The world a call leaves behind, whatever it answered. *)
Definition after (ctx : Context) (c : Call) (w : store.World) : store.World :=
  match c with
  | CreateOrUpdateTeam n ms => snd (service.CreateOrUpdateTeam ctx n ms w)
  | GetTeam n => snd (service.GetTeam ctx n w)
  | SetUserActive u a => snd (service.SetUserActive ctx u a w)
  | CreatePR p n a => snd (service.CreatePR ctx p n a w)
  | MergePR p => snd (service.MergePR ctx p w)
  | ReassignReviewer p u => snd (service.ReassignReviewer ctx p u w)
  | GetUserAssignedPRs u => snd (service.GetUserAssignedPRs ctx u w)
  | GetPR p => snd (service.GetPR ctx p w)
  end.

(** States reachable from empty tables, under any clock, any random
    source and any cancellation of the calls' contexts. *)
Inductive reachable : store.World -> Prop :=
| reachable_empty w : db w = store.empty -> reachable w
| reachable_after w ctx c : reachable w -> reachable (after ctx c w).

(** A world to run examples in: empty tables, the clock reads 1000, 1001,
    ..., the random source yields [seed], [seed + 1], ... *)
Definition fresh (seed : nat) : store.World :=
  mkWorld store.empty 0 (fun n => (1000 + Z.of_nat n)%Z) 0
          (fun n => seed + n) 0.

(** A string of [n] characters, to run into the VARCHAR bounds. *)
Fixpoint wide (n : nat) : string :=
  match n with
  | 0 => EmptyString
  | S k => String "x"%char (wide k)
  end.

Fixpoint replay (calls : list Call) (w : store.World) : store.World :=
  match calls with
  | [] => w
  | c :: rest => replay rest (after Background c w)
  end.

End engine.

(** ** Notions the properties are stated with *)

Module props.

(** [guarantees P m Q]: started on tables satisfying [P], the call [m]
    ends with an outcome and tables related by [Q]; the clock, the random
    source and the statement counter are arbitrary. *)
Definition guarantees {D A} (P : D -> Prop) (m : runtime.M D A)
           (Q : outcome A -> D -> Prop) : Prop :=
  forall w, P (db w) -> Q (fst (m w)) (db (snd (m w))).

(** [preserves Inv m]: whatever [m] answers, it keeps [Inv]. *)
Definition preserves {D A} (Inv : D -> Prop) (m : runtime.M D A) : Prop :=
  guarantees Inv m (fun _ d => Inv d).

Fixpoint distinct (l : list string) : bool :=
  match l with
  | [] => true
  | x :: t => negb (existsb (String.eqb x) t) && distinct t
  end.

Fixpoint distinct_edges (l : list store.ReviewerEdge) : bool :=
  match l with
  | [] => true
  | e :: t =>
      negb (existsb (fun e' => (store.edge_pr e' =? store.edge_pr e)%string
                               && (store.edge_user e' =? store.edge_user e)%string) t)
      && distinct_edges t
  end.

(** The key constraints of the schema that the properties depend on:
    the primary keys of [users], [pull_requests] and [pr_reviewers], and
    the two foreign keys of [pr_reviewers]. *)
Definition consistent (d : store.Tables) : bool :=
  distinct (map store.UserID (store.users d))
  && distinct (map store.PullRequestID (store.pull_requests d))
  && distinct_edges (store.pr_reviewers d)
  && forallb (fun e => store.has_pr d (store.edge_pr e)
                       && store.has_user d (store.edge_user e))
             (store.pr_reviewers d).

Definition edge_key (e : store.ReviewerEdge) : string * string :=
  (store.edge_pr e, store.edge_user e).

(** The same constraints as propositions. *)
Definition keys_hold (d : store.Tables) : Prop :=
  NoDup (map store.UserID (store.users d))
  /\ NoDup (map store.PullRequestID (store.pull_requests d))
  /\ NoDup (map edge_key (store.pr_reviewers d))
  /\ (forall e, In e (store.pr_reviewers d) ->
                store.has_pr d (store.edge_pr e) = true
                /\ store.has_user d (store.edge_user e) = true).

(** Written after the specification: all active users on the team of
    [author], excluding the user [excluded]. *)
Definition team_pool (d : store.Tables) (teamName excluded : string)
  : list store.User :=
  filter (fun u => (store.TeamName u =? teamName)%string
                   && store.IsActive u
                   && negb (store.UserID u =? excluded)%string)
         (store.users d).

(** Written after the specification: active members of the old reviewer's
    team, excluding the PR author, every currently assigned reviewer and
    the old reviewer itself. *)
Definition replacement_pool (d : store.Tables) (teamName authorID prID
                             oldUserID : string) : list store.User :=
  filter (fun u => (store.TeamName u =? teamName)%string
                   && store.IsActive u
                   && negb (store.UserID u =? authorID)%string
                   && negb (store.has_edge d prID (store.UserID u))
                   && negb (store.UserID u =? oldUserID)%string)
         (store.users d).

(** The user ids holding an assignment edge on [prID], in table order. *)
Definition edge_users (d : store.Tables) (prID : string) : list string :=
  map store.edge_user
      (filter (fun e => (store.edge_pr e =? prID)%string) (store.pr_reviewers d)).

(** No pull request is reviewed by its own author. *)
Definition no_self_review (d : store.Tables) : Prop :=
  forall p e,
    In p (store.pull_requests d) -> In e (store.pr_reviewers d) ->
    store.edge_pr e = store.PullRequestID p ->
    store.edge_user e <> store.AuthorID p.

(** Every row of [pull_requests] with id [prID] has author [a]. *)
Definition authored (d : store.Tables) (prID a : string) : Prop :=
  forall p, In p (store.pull_requests d) ->
            store.PullRequestID p = prID -> store.AuthorID p = a.

(** What the reviewer edges rest on: pull-request ids are unique, every
    edge points to a stored pull request, and no edge makes an author
    review their own pull request. *)
Definition ledger_ok (d : store.Tables) : Prop :=
  NoDup (map store.PullRequestID (store.pull_requests d))
  /\ (forall e, In e (store.pr_reviewers d) ->
                store.has_pr d (store.edge_pr e) = true)
  /\ no_self_review d.

(** [merged_at] is set exactly on the merged pull requests. *)
Definition merged_at_iff_merged (d : store.Tables) : Prop :=
  forall p, In p (store.pull_requests d) ->
            (store.MergedAt p <> None <-> store.Status p = store.PRStatusMerged).

(** The errors package [service] raises itself, as opposed to those it
    passes on from the driver. *)
Definition sentinel (e : error) : bool :=
  match e with
  | ErrSQL _ => false
  | _ => true
  end.

(** [m] writes nothing, and fails only with driver errors. *)
Definition reads_only {D A} (d0 : D) (m : runtime.M D A) : Prop :=
  guarantees (fun d => d = d0) m
    (fun o d => d = d0 /\ match o with
                          | Err e => sentinel e = false
                          | _ => True
                          end).

(** Every error of [m] is a driver error. *)
Definition driver_errors_only {D A} (m : runtime.M D A) : Prop :=
  guarantees (fun _ => True) m
    (fun o _ => match o with
                | Err e => sentinel e = false
                | _ => True
                end).

(** An error of the engine's own leaves the tables as they were. *)
Definition untouched_on_refusal {D A} (d0 : D) (o : outcome A) (d : D) : Prop :=
  match o with
  | Err e => sentinel e = true -> d = d0
  | _ => True
  end.

(** The error a call reports, if any. *)
Definition error_of {A} (o : outcome A) : option error :=
  match o with
  | Err e => Some e
  | _ => None
  end.

Definition reported (ctx : Context) (c : engine.Call) (w : store.World)
  : option error :=
  match c with
  | engine.CreateOrUpdateTeam n ms =>
      error_of (fst (service.CreateOrUpdateTeam ctx n ms w))
  | engine.GetTeam n => error_of (fst (service.GetTeam ctx n w))
  | engine.SetUserActive u a => error_of (fst (service.SetUserActive ctx u a w))
  | engine.CreatePR p n a => error_of (fst (service.CreatePR ctx p n a w))
  | engine.MergePR p => error_of (fst (service.MergePR ctx p w))
  | engine.ReassignReviewer p u =>
      error_of (fst (service.ReassignReviewer ctx p u w))
  | engine.GetUserAssignedPRs u =>
      error_of (fst (service.GetUserAssignedPRs ctx u w))
  | engine.GetPR p => error_of (fst (service.GetPR ctx p w))
  end.

(** ** Further notions *)

Definition is_panic {A} (o : outcome A) : bool :=
  match o with
  | Panic => true
  | _ => false
  end.

(** Whether a call ends in a run-time panic. *)
Definition panics (ctx : Context) (c : engine.Call) (w : store.World) : bool :=
  match c with
  | engine.CreateOrUpdateTeam n ms =>
      is_panic (fst (service.CreateOrUpdateTeam ctx n ms w))
  | engine.GetTeam n => is_panic (fst (service.GetTeam ctx n w))
  | engine.SetUserActive u a => is_panic (fst (service.SetUserActive ctx u a w))
  | engine.CreatePR p n a => is_panic (fst (service.CreatePR ctx p n a w))
  | engine.MergePR p => is_panic (fst (service.MergePR ctx p w))
  | engine.ReassignReviewer p u =>
      is_panic (fst (service.ReassignReviewer ctx p u w))
  | engine.GetUserAssignedPRs u =>
      is_panic (fst (service.GetUserAssignedPRs ctx u w))
  | engine.GetPR p => is_panic (fst (service.GetPR ctx p w))
  end.

(** [m] never panics. *)
Definition panic_free {D A} (m : runtime.M D A) : Prop :=
  guarantees (fun _ => True) m (fun o _ => is_panic o = false).

(** The errors of its own that a call of package [service] can report. *)
Definition refusals_of (c : engine.Call) : list error :=
  match c with
  | engine.CreateOrUpdateTeam _ _ => [ErrTeamExists]
  | engine.GetTeam _ => [ErrNotFound]
  | engine.SetUserActive _ _ => []
  | engine.CreatePR _ _ _ => [ErrPRExists; ErrNotFound]
  | engine.MergePR _ => [ErrNotFound]
  | engine.ReassignReviewer _ _ =>
      [ErrNotFound; ErrPRMerged; ErrNotAssigned; ErrNoCandidate]
  | engine.GetUserAssignedPRs _ => []
  | engine.GetPR _ => [ErrNotFound]
  end.

(** Every error of [m] is a driver error or one of [allowed]. *)
Definition refuses_only_with {D A} (allowed : list error) (m : runtime.M D A)
  : Prop :=
  guarantees (fun _ => True) m
    (fun o _ => match o with
                | Err e => sentinel e = false \/ In e allowed
                | _ => True
                end).

(** Every team, user and pull request stored in [d] is still stored in
    [d'], under the same key. *)
Definition keeps_rows (d d' : store.Tables) : Prop :=
  (forall t, store.has_team d t = true -> store.has_team d' t = true)
  /\ (forall u, store.has_user d u = true -> store.has_user d' u = true)
  /\ (forall p, store.has_pr d p = true -> store.has_pr d' p = true).

(** [follows w w']: the engine gets from [w] to [w'] by some calls, under
    some contexts. *)
Inductive follows (w : store.World) : store.World -> Prop :=
| follows_here : follows w w
| follows_after w' ctx c : follows w w' -> follows w (engine.after ctx c w').

(** No pull request has more than two assignment edges. *)
Definition at_most_two (d : store.Tables) : Prop :=
  forall prID, length (edge_users d prID) <= 2.

(** The same, with room for [n] more edges on [prID]. *)
Definition room_for (prID : string) (n : nat) (d : store.Tables) : Prop :=
  at_most_two d /\ length (edge_users d prID) + n <= 2.

(** The column constraints of the schema that are not keys: every
    string fits its [VARCHAR], every user is on a stored team
    ([users.team_name REFERENCES teams]) and every pull request has a
    stored author ([pull_requests.author_id REFERENCES users]). *)
Definition columns_hold (d : store.Tables) : Prop :=
  (forall t, In t (store.teams d) -> store.fits 100 (store.Name t) = true)
  /\ (forall u, In u (store.users d) ->
        store.fits 100 (store.UserID u) = true
        /\ store.fits 100 (store.Username u) = true
        /\ store.fits 100 (store.TeamName u) = true
        /\ store.has_team d (store.TeamName u) = true)
  /\ (forall p, In p (store.pull_requests d) ->
        store.fits 100 (store.PullRequestID p) = true
        /\ store.fits 200 (store.PullRequestName p) = true
        /\ store.fits 100 (store.AuthorID p) = true
        /\ store.has_user d (store.AuthorID p) = true)
  /\ (forall e, In e (store.pr_reviewers d) ->
        store.fits 100 (store.edge_pr e) = true
        /\ store.fits 100 (store.edge_user e) = true).




End props.

Import props.

(** * Reasoning rules *)

Section Rules.

Variable D : Type.

Lemma guarantees_weaken {A} (P P' : D -> Prop) (m : runtime.M D A)
      (Q Q' : outcome A -> D -> Prop) :
  guarantees P' m Q' ->
  (forall d, P d -> P' d) ->
  (forall o d, Q' o d -> Q o d) ->
  guarantees P m Q.
Proof. unfold guarantees; auto. Qed.

Lemma guarantees_ret {A} (P : D -> Prop) (a : A) Q :
  (forall d, P d -> Q (Ok a) d) -> guarantees P (ret a) Q.
Proof. unfold guarantees, ret; simpl; auto. Qed.

Lemma guarantees_fail {A} (P : D -> Prop) e (Q : outcome A -> D -> Prop) :
  (forall d, P d -> Q (Err e) d) -> guarantees P (fail e) Q.
Proof. unfold guarantees, fail; simpl; auto. Qed.

Lemma guarantees_panic {A} (P : D -> Prop) (Q : outcome A -> D -> Prop) :
  (forall d, P d -> Q Panic d) -> guarantees P panic Q.
Proof. unfold guarantees, panic; simpl; auto. Qed.

Lemma guarantees_bind {A B} (P : D -> Prop) (R : A -> D -> Prop)
      (m : runtime.M D A) (k : A -> runtime.M D B) Q :
  guarantees P m (fun o d => match o with
                             | Ok a => R a d
                             | Err e => Q (Err e) d
                             | Panic => Q Panic d
                             end) ->
  (forall a, guarantees (R a) (k a) Q) ->
  guarantees P (bind m k) Q.
Proof.
  unfold guarantees, bind. intros Hm Hk w Hw.
  specialize (Hm w Hw). destruct (m w) as [[a|e|] w1]; simpl in *; auto.
Qed.

(** The same rule, for a call whose guarantee is already known. *)
Lemma guarantees_seq {A B} (P : D -> Prop) (m : runtime.M D A)
      (k : A -> runtime.M D B) (Q1 : outcome A -> D -> Prop) Q :
  guarantees P m Q1 ->
  (forall e d, Q1 (Err e) d -> Q (Err e) d) ->
  (forall d, Q1 Panic d -> Q Panic d) ->
  (forall a, guarantees (Q1 (Ok a)) (k a) Q) ->
  guarantees P (bind m k) Q.
Proof.
  intros Hm He Hp Hk. apply guarantees_bind with (R := fun a d => Q1 (Ok a) d);
    [|exact Hk].
  eapply guarantees_weaken; [exact Hm|auto|]. intros [a|e|] d; auto.
Qed.

(** A fact that does not depend on the tables moves out of the
    precondition. *)
Lemma guarantees_pure {A} (P : D -> Prop) (F : Prop) (m : runtime.M D A) Q :
  (F -> guarantees P m Q) -> guarantees (fun d => P d /\ F) m Q.
Proof. intros H w [Hw HF]. apply H; assumption. Qed.

Lemma guarantees_try {A B} (P : D -> Prop) (R : A -> D -> Prop)
      (E : error -> D -> Prop)
      (m : runtime.M D A) (k : A -> runtime.M D B) h Q :
  guarantees P m (fun o d => match o with
                             | Ok a => R a d
                             | Err e => E e d
                             | Panic => Q Panic d
                             end) ->
  (forall a, guarantees (R a) (k a) Q) ->
  (forall e, guarantees (E e) (h e) Q) ->
  guarantees P (try m k h) Q.
Proof.
  unfold guarantees, try. intros Hm Hk Hh w Hw.
  specialize (Hm w Hw). destruct (m w) as [[a|e|] w1]; simpl in *; auto.
Qed.

Lemma guarantees_query {A} ctx (q : D -> A) (P : D -> Prop) Q :
  (forall d, P d -> Q (Ok (q d)) d) ->
  (forall d, P d -> Q (Err (ErrSQL ContextCanceled)) d) ->
  guarantees P (query ctx q) Q.
Proof.
  unfold guarantees, query, bind, roundtrip. intros Hok Herr w Hw.
  destruct (done ctx (stmts w)); simpl; auto.
Qed.

Lemma guarantees_exec ctx (q : D -> SQLError + D) (P : D -> Prop) Q :
  (forall d d', P d -> q d = inr d' -> Q (Ok tt) d') ->
  (forall d e, P d -> q d = inl e -> Q (Err (ErrSQL e)) d) ->
  (forall d, P d -> Q (Err (ErrSQL ContextCanceled)) d) ->
  guarantees P (exec ctx q) Q.
Proof.
  unfold guarantees, exec, bind, roundtrip. intros Hok Hviol Herr w Hw.
  destruct (done ctx (stmts w)); simpl; auto.
  destruct (q (db w)) eqn:Hq; simpl; eauto.
Qed.

Lemma guarantees_time_Now (P : D -> Prop) Q :
  (forall z d, P d -> Q (Ok z) d) -> guarantees P time_Now Q.
Proof. unfold guarantees, time_Now; simpl; auto. Qed.

Lemma guarantees_Intn n (P : D -> Prop) Q :
  (forall j d, P d -> j < n -> Q (Ok j) d) ->
  (forall d, P d -> n = 0 -> Q Panic d) ->
  guarantees P (rand_Intn n) Q.
Proof.
  unfold guarantees, rand_Intn. intros Hok Hp w Hw.
  destruct n; [simpl; auto|]. cbn [fst snd db].
  apply Hok; auto. apply Nat.mod_upper_bound. discriminate.
Qed.

(** Forward forms: the rule for [bind] specialised to each primitive. *)

Lemma bind_query {A B} ctx (q : D -> A) (k : A -> runtime.M D B)
      (P : D -> Prop) Q :
  (forall d, P d -> Q (Err (ErrSQL ContextCanceled)) d) ->
  (forall a, guarantees (fun d => P d /\ a = q d) (k a) Q) ->
  guarantees P (bind (query ctx q) k) Q.
Proof.
  intros Herr Hk. eapply guarantees_bind; [|exact Hk].
  apply guarantees_query; simpl; auto.
Qed.

Lemma bind_exec {B} ctx (q : D -> SQLError + D) (k : unit -> runtime.M D B)
      (P : D -> Prop) Q :
  (forall d e, P d -> Q (Err (ErrSQL e)) d) ->
  guarantees (fun d' => exists d, P d /\ q d = inr d') (k tt) Q ->
  guarantees P (bind (exec ctx q) k) Q.
Proof.
  intros Herr Hk.
  eapply guarantees_bind with (R := fun _ d' => exists d, P d /\ q d = inr d').
  - apply guarantees_exec; simpl; eauto.
  - intros []. exact Hk.
Qed.

Lemma bind_time_Now {B} (k : Z -> runtime.M D B) (P : D -> Prop) Q :
  (forall z, guarantees P (k z) Q) ->
  guarantees P (bind time_Now k) Q.
Proof.
  intros Hk. eapply guarantees_bind with (R := fun _ d => P d).
  - apply guarantees_time_Now; auto.
  - exact Hk.
Qed.

Lemma bind_Intn {B} n (k : nat -> runtime.M D B) (P : D -> Prop) Q :
  (forall d, P d -> n = 0 -> Q Panic d) ->
  (forall j, j < n -> guarantees P (k j) Q) ->
  guarantees P (bind (rand_Intn n) k) Q.
Proof.
  intros Hp Hk.
  eapply guarantees_bind with (R := fun j d => P d /\ j < n).
  - apply guarantees_Intn; simpl; auto.
  - intros j w [Hw Hj]. apply Hk; assumption.
Qed.

End Rules.

Arguments guarantees_weaken {D A}.
Arguments guarantees_ret {D A}.
Arguments guarantees_fail {D A}.
Arguments guarantees_panic {D A}.
Arguments guarantees_bind {D A B}.
Arguments guarantees_try {D A B}.
Arguments guarantees_seq {D A B}.
Arguments guarantees_pure {D A}.
Arguments bind_query {D A B}.
Arguments bind_exec {D B}.
Arguments bind_time_Now {D B}.
Arguments bind_Intn {D B}.

(** * Facts about the store *)

Section StoreFacts.

Lemma find_pr_some d prID pr :
  find (fun p => (store.PullRequestID p =? prID)%string) (store.pull_requests d)
  = Some pr ->
  In pr (store.pull_requests d) /\ store.PullRequestID pr = prID.
Proof.
  intros H. apply find_some in H. destruct H as [Hin Heq].
  apply String.eqb_eq in Heq. auto.
Qed.

Lemma find_user_some d userID u :
  find (fun u => (store.UserID u =? userID)%string) (store.users d) = Some u ->
  In u (store.users d) /\ store.UserID u = userID.
Proof.
  intros H. apply find_some in H. destruct H as [Hin Heq].
  apply String.eqb_eq in Heq. auto.
Qed.

Lemma find_updated {A} (key : A -> string) k (upd : A -> A) l :
  (forall x, key (upd x) = key x) ->
  find (fun x => (key x =? k)%string)
       (map (fun x => if (key x =? k)%string then upd x else x) l)
  = option_map upd (find (fun x => (key x =? k)%string) l).
Proof.
  intros Hid. induction l as [|x l IH]; simpl; [reflexivity|].
  destruct (key x =? k)%string eqn:E.
  - rewrite Hid, E. reflexivity.
  - rewrite E. exact IH.
Qed.

Lemma status_eqb_merged s :
  store.status_eqb s store.PRStatusMerged = true <-> s = store.PRStatusMerged.
Proof. destruct s; simpl; split; congruence. Qed.

End StoreFacts.

(** * The request boundary *)

(** Where the [TEAM_EXISTS] answer is produced, seen on a concrete
    request: the team "backend" is created twice. *)
Lemma team_exists_is_answered_400 :
  let w := engine.replay [engine.CreateOrUpdateTeam "backend" []]
                         (engine.fresh 0) in
  fst (service.CreateOrUpdateTeam Background "backend" [] w)
  = Err ErrTeamExists
  /\ fst (handlers.PostTeamAdd Background (Some (api.mkTeam "backend" [])) w)
     = Ok (handlers.mkResponse 400
             (handlers.createError "TEAM_EXISTS" "team_name already exists"))
  /\ 400 <> 409.
Proof. repeat split; try reflexivity. discriminate. Qed.

(** C8, as the handlers have it: the four conflicts routed through
    [handleServiceError] (PR exists, PR merged, not assigned, no candidate)
    are answered with status 409 and their own code, from each of the three
    pull-request endpoints; a team creation refused because the name exists
    is answered by [PostTeamAdd] itself, with status 400 and code
    TEAM_EXISTS. *)
Theorem conflict_status_codes :
  (forall w,
      handlers.handleServiceError ErrPRExists w
      = (Ok (handlers.mkResponse 409
               (handlers.createError "PR_EXISTS" "PR id already exists")), w)
      /\ handlers.handleServiceError ErrPRMerged w
         = (Ok (handlers.mkResponse 409
                  (handlers.createError "PR_MERGED"
                                        "cannot reassign on merged PR")), w)
      /\ handlers.handleServiceError ErrNotAssigned w
         = (Ok (handlers.mkResponse 409
                  (handlers.createError "NOT_ASSIGNED"
                     "reviewer is not assigned to this PR")), w)
      /\ handlers.handleServiceError ErrNoCandidate w
         = (Ok (handlers.mkResponse 409
                  (handlers.createError "NO_CANDIDATE"
                     "no active replacement candidate in team")), w))
  /\ (forall ctx req w e,
         fst (service.CreatePR ctx (api.create_PullRequestId req)
                (api.create_PullRequestName req) (api.create_AuthorId req) w)
         = Err e ->
         fst (handlers.PostPullRequestCreate ctx (Some req) w)
         = fst (handlers.handleServiceError e w))
  /\ (forall ctx prID w e,
         fst (service.MergePR ctx prID w) = Err e ->
         fst (handlers.PostPullRequestMerge ctx (Some prID) w)
         = fst (handlers.handleServiceError e w))
  /\ (forall ctx req w e,
         fst (service.ReassignReviewer ctx (api.reassign_PullRequestId req)
                (api.reassign_OldUserId req) w) = Err e ->
         fst (handlers.PostPullRequestReassign ctx (Some req) w)
         = fst (handlers.handleServiceError e w))
  /\ (forall ctx req w,
         fst (service.CreateOrUpdateTeam ctx (api.TeamName req)
                (map (fun m => service.mkTeamMember (api.UserId m)
                                  (api.Username m) (api.IsActive m))
                     (api.Members req)) w)
         = Err ErrTeamExists ->
         fst (handlers.PostTeamAdd ctx (Some req) w)
         = Ok (handlers.mkResponse 400
                 (handlers.createError "TEAM_EXISTS"
                                       "team_name already exists"))).
Proof.
  split; [intros w; repeat split|].
  repeat split.
  - intros ctx req w e H. unfold handlers.PostPullRequestCreate, try.
    destruct (service.CreatePR _ _ _ _ w) as [[r|e'|] w1]; simpl in H;
      try discriminate.
    inversion H; subst. destruct e; reflexivity.
  - intros ctx prID w e H. unfold handlers.PostPullRequestMerge, try.
    destruct (service.MergePR _ _ w) as [[r|e'|] w1]; simpl in H;
      try discriminate.
    inversion H; subst. destruct e; reflexivity.
  - intros ctx req w e H. unfold handlers.PostPullRequestReassign, try.
    destruct (service.ReassignReviewer _ _ _ w) as [[r|e'|] w1]; simpl in H;
      try discriminate.
    inversion H; subst. destruct e; reflexivity.
  - intros ctx req w H. unfold handlers.PostTeamAdd, try.
    destruct (service.CreateOrUpdateTeam _ _ _ w) as [[r|e'|] w1]; simpl in H;
      try discriminate.
    inversion H; subst. reflexivity.
Qed.

Lemma conflict_status_codes_witness :
  let w := engine.replay
             [engine.CreateOrUpdateTeam "backend"
                [service.mkTeamMember "A" "alice" true;
                 service.mkTeamMember "B" "bob" true];
              engine.CreatePR "pr1" "fix" "A";
              engine.MergePR "pr1"]
             (engine.fresh 0) in
  fst (handlers.PostPullRequestCreate Background
         (Some (api.mkCreateBody "pr1" "again" "A")) w)
  = fst (handlers.handleServiceError ErrPRExists w)
  /\ fst (handlers.PostPullRequestReassign Background
            (Some (api.mkReassignBody "pr1" "B")) w)
     = fst (handlers.handleServiceError ErrPRMerged w)
  /\ fst (handlers.PostPullRequestMerge Background (Some "nope") w)
     = fst (handlers.handleServiceError ErrNotFound w)
  /\ fst (handlers.PostTeamAdd Background (Some (api.mkTeam "backend" [])) w)
     = Ok (handlers.mkResponse 400
             (handlers.createError "TEAM_EXISTS" "team_name already exists")).
Proof.
  intros w.
  destruct conflict_status_codes as (_ & Hc & Hm & Hr & Ht).
  split; [|split; [|split]].
  - apply (Hc Background (api.mkCreateBody "pr1" "again" "A") w). reflexivity.
  - apply (Hr Background (api.mkReassignBody "pr1" "B") w). reflexivity.
  - apply (Hm Background "nope" w). reflexivity.
  - apply (Ht Background (api.mkTeam "backend" []) w). reflexivity.
Defined.

(** * Calls under a context that is never cancelled *)

Section BackgroundCalls.

Variable D : Type.

Lemma query_Background {A B} (q : D -> A) (k : A -> runtime.M D B) w :
  bind (query Background q) k w = k (q (db w)) (count_stmt w).
Proof. reflexivity. Qed.

Lemma exec_Background {B} (q : D -> SQLError + D) (k : unit -> runtime.M D B) w :
  bind (exec Background q) k w
  = match q (db w) with
    | inl e => (Err (ErrSQL e), count_stmt w)
    | inr d => k tt (set_db d (count_stmt w))
    end.
Proof.
  unfold exec, roundtrip, bind; simpl.
  destruct (q (db w)); reflexivity.
Qed.

Lemma time_Now_bind {B} (k : Z -> runtime.M D B) w :
  bind time_Now k w = k (clock w (clock_reads w)) (advance_clock w).
Proof. reflexivity. Qed.

Lemma ret_bind {A B} (a : A) (k : A -> runtime.M D B) w :
  bind (ret a) k w = k a w.
Proof. reflexivity. Qed.

End BackgroundCalls.

Arguments query_Background {D A B}.
Arguments exec_Background {D B}.
Arguments time_Now_bind {D B}.
Arguments ret_bind {D A B}.

(** * SetUserActive *)

(** C6, the part the code does not deliver: for a user id with no row,
    [GetUser] answers a nil pointer without an error and the assignment
    to [user.IsActive] dereferences it; the call panics instead of
    failing with NotFound, and no statement is written. *)
Theorem SetUserActive_unknown_user_panics (w : store.World) userID isActive :
  store.has_user (db w) userID = false ->
  fst (service.SetUserActive Background userID isActive w) = Panic
  /\ db (snd (service.SetUserActive Background userID isActive w)) = db w.
Proof.
  intros H. unfold service.SetUserActive, store.GetUser.
  rewrite query_Background.
  assert (Hf : find (fun u => (store.UserID u =? userID)%string)
                    (store.users (db w)) = None).
  { destruct (find _ _) as [u|] eqn:E; [|reflexivity].
    apply find_some in E. destruct E as [Hin Heq].
    unfold store.has_user in H.
    assert (Ht : existsb (fun u => (store.UserID u =? userID)%string)
                         (store.users (db w)) = true)
      by (apply existsb_exists; eauto).
    congruence. }
  rewrite Hf. split; reflexivity.
Qed.

Lemma SetUserActive_unknown_user_panics_witness :
  fst (service.SetUserActive Background "ghost" true (engine.fresh 0)) = Panic
  /\ db (snd (service.SetUserActive Background "ghost" true (engine.fresh 0)))
     = db (engine.fresh 0).
Proof.
  apply (SetUserActive_unknown_user_panics (engine.fresh 0) "ghost" true).
  reflexivity.
Defined.

(** For an existing user (with a row the schema accepts) the flag is
    written and the updated user is returned. *)
Lemma SetUserActive_existing_user (w : store.World) userID isActive u :
  find (fun u => (store.UserID u =? userID)%string) (store.users (db w))
  = Some u ->
  store.fits 100 (store.Username u) = true ->
  store.fits 100 (store.TeamName u) = true ->
  store.has_team (db w) (store.TeamName u) = true ->
  let u' := store.mkUser (store.UserID u) (store.Username u) isActive
                         (store.TeamName u) (store.UserCreatedAt u) in
  fst (service.SetUserActive Background userID isActive w) = Ok u'
  /\ find (fun u => (store.UserID u =? userID)%string)
          (store.users (db (snd (service.SetUserActive Background userID
                                                       isActive w))))
     = Some u'.
Proof.
  intros Hf Hn Ht Hteam u'. unfold service.SetUserActive, store.GetUser.
  rewrite query_Background, Hf. unfold store.UpdateUser.
  rewrite exec_Background.
  cbn [store.Username store.TeamName store.UserID store.IsActive db count_stmt].
  rewrite Hn, Ht, Hteam. cbn [andb negb].
  rewrite andb_false_r. cbn [fst snd ret set_db db store.users].
  split; [reflexivity|].
  destruct (find_user_some _ _ _ Hf) as [_ Hid]. rewrite Hid.
  rewrite (find_updated store.UserID userID
             (fun x => store.mkUser (store.UserID x) (store.Username u)
                         isActive (store.TeamName u) (store.UserCreatedAt x)))
    by reflexivity.
  rewrite Hf. reflexivity.
Qed.

(** * MergePR *)

Section Merge.

Variable prID : string.





End Merge.



(** * Reviewers and candidate pools *)

Section Pools.

Lemma has_edge_true d prID userID :
  store.has_edge d prID userID = true <->
  exists e, In e (store.pr_reviewers d)
            /\ store.edge_pr e = prID /\ store.edge_user e = userID.
Proof.
  unfold store.has_edge. rewrite existsb_exists. split.
  - intros (e & Hin & He). apply andb_true_iff in He. destruct He as [H1 H2].
    apply String.eqb_eq in H1. apply String.eqb_eq in H2. eauto.
  - intros (e & Hin & H1 & H2). exists e. split; [assumption|].
    apply andb_true_iff. split; apply String.eqb_eq; assumption.
Qed.

Lemma has_user_true d userID :
  store.has_user d userID = true <->
  exists u, In u (store.users d) /\ store.UserID u = userID.
Proof.
  unfold store.has_user. rewrite existsb_exists. split.
  - intros (u & Hin & Hu). apply String.eqb_eq in Hu. eauto.
  - intros (u & Hin & Hu). exists u. split; [assumption|].
    apply String.eqb_eq; assumption.
Qed.

Lemma has_pr_true d prID :
  store.has_pr d prID = true <->
  exists p, In p (store.pull_requests d) /\ store.PullRequestID p = prID.
Proof.
  unfold store.has_pr. rewrite existsb_exists. split.
  - intros (p & Hin & Hp). apply String.eqb_eq in Hp. eauto.
  - intros (p & Hin & Hp). exists p. split; [assumption|].
    apply String.eqb_eq; assumption.
Qed.

(** The join behind [GetPRReviewers]: the users holding an edge. *)
Lemma in_reviewers_of d prID r :
  In r (store.reviewers_of d prID) <->
  In r (store.users d) /\ store.has_edge d prID (store.UserID r) = true.
Proof.
  unfold store.reviewers_of. rewrite in_flat_map. split.
  - intros (u & Hu & Hr). apply in_map_iff in Hr.
    destruct Hr as (e & -> & He). apply filter_In in He.
    destruct He as [He Hc]. apply andb_true_iff in Hc. destruct Hc as [H1 H2].
    apply String.eqb_eq in H1. apply String.eqb_eq in H2.
    split; [assumption|]. apply has_edge_true. eauto.
  - intros [Hr He]. apply has_edge_true in He.
    destruct He as (e & Hin & H1 & H2). exists r. split; [assumption|].
    apply in_map_iff. exists e. split; [reflexivity|].
    apply filter_In. split; [assumption|].
    apply andb_true_iff. split; apply String.eqb_eq; congruence.
Qed.

Lemma is_assigned_true d prID oldUserID :
  service.is_assigned (store.reviewers_of d prID) oldUserID = true <->
  store.has_user d oldUserID = true /\ store.has_edge d prID oldUserID = true.
Proof.
  unfold service.is_assigned. rewrite existsb_exists. split.
  - intros (r & Hr & Hid). apply String.eqb_eq in Hid.
    apply in_reviewers_of in Hr. destruct Hr as [Hu He]. subst oldUserID.
    split; [|assumption]. apply has_user_true. eauto.
  - intros [Hu He]. apply has_user_true in Hu. destruct Hu as (u & Hu & Hid).
    exists u. split; [|apply String.eqb_eq; assumption].
    apply in_reviewers_of. subst oldUserID. auto.
Qed.

Lemma gomap_get_set m k' v k :
  service.gomap_get (service.gomap_set m k' v) k
  = if (k' =? k)%string then v else service.gomap_get m k.
Proof.
  unfold service.gomap_get, service.gomap_set. simpl.
  destruct (k' =? k)%string; reflexivity.
Qed.

(** The map built from the current reviewers answers membership. *)
Lemma reviewer_map_get revs acc k :
  service.gomap_get
    (fold_left (fun m r => service.gomap_set m (store.UserID r) true) revs acc) k
  = if service.is_assigned revs k then true else service.gomap_get acc k.
Proof.
  revert acc. induction revs as [|r revs IH]; intros acc; [reflexivity|].
  cbn [fold_left]. rewrite IH, gomap_get_set.
  unfold service.is_assigned. cbn [existsb].
  destruct (existsb _ revs); [rewrite orb_true_r; reflexivity|].
  rewrite orb_false_r. destruct (store.UserID r =? k)%string; reflexivity.
Qed.

Lemma filter_twice {A} (f g : A -> bool) l :
  filter g (filter f l) = filter (fun x => f x && g x) l.
Proof.
  induction l as [|x l IH]; simpl; [reflexivity|].
  destruct (f x); simpl; [destruct (g x)|]; rewrite ?IH; reflexivity.
Qed.

(** The pool the code computes is the pool of the specification. *)
Lemma available_is_replacement_pool d teamName authorID prID oldUserID :
  service.available
    (filter (fun u => (store.TeamName u =? teamName)%string
                      && store.IsActive u
                      && negb (store.UserID u =? authorID)%string)
            (store.users d))
    (store.reviewers_of d prID) oldUserID
  = replacement_pool d teamName authorID prID oldUserID.
Proof.
  unfold service.available, replacement_pool, service.reviewer_map.
  rewrite filter_twice. apply filter_ext_in. intros u Hu.
  rewrite reviewer_map_get. cbn [service.gomap_get find].
  assert (Ha : service.is_assigned (store.reviewers_of d prID) (store.UserID u)
               = store.has_edge d prID (store.UserID u)).
  { destruct (store.has_edge d prID (store.UserID u)) eqn:He.
    - apply is_assigned_true. split; [|assumption].
      apply has_user_true. eauto.
    - destruct (service.is_assigned _ _) eqn:Hi; [|reflexivity].
      apply is_assigned_true in Hi. destruct Hi; congruence. }
  rewrite Ha.
  destruct (store.has_edge d prID (store.UserID u)),
    (store.TeamName u =? teamName)%string, (store.IsActive u),
    (store.UserID u =? authorID)%string,
    (store.UserID u =? oldUserID)%string; reflexivity.
Qed.

End Pools.

(** * ReassignReviewer: the refusals *)

(** C3: on an existing pull request, a reassignment is refused with
    PRMerged when the pull request is MERGED, with NotAssigned when the
    old user holds no assignment edge on it, and with NoCandidate when
    the old user is assigned but the replacement pool is empty; each
    refusal leaves every table, hence the reviewer set, as it was. *)
Theorem ReassignReviewer_refusals (w : store.World) prID oldUserID pr :
  find (fun p => (store.PullRequestID p =? prID)%string)
       (store.pull_requests (db w)) = Some pr ->
  let answer := service.ReassignReviewer Background prID oldUserID w in
  (store.Status pr = store.PRStatusMerged ->
     fst answer = Err ErrPRMerged /\ db (snd answer) = db w)
  /\ (store.Status pr = store.PRStatusOpen ->
      store.has_edge (db w) prID oldUserID = false ->
      fst answer = Err ErrNotAssigned /\ db (snd answer) = db w)
  /\ (store.Status pr = store.PRStatusOpen ->
      store.has_edge (db w) prID oldUserID = true ->
      forall old,
        find (fun u => (store.UserID u =? oldUserID)%string)
             (store.users (db w)) = Some old ->
        replacement_pool (db w) (store.TeamName old) (store.AuthorID pr)
                         prID oldUserID = [] ->
        fst answer = Err ErrNoCandidate /\ db (snd answer) = db w).
Proof.
  intros Hpr answer. subst answer.
  unfold service.ReassignReviewer, store.GetPR.
  rewrite query_Background, Hpr.
  split; [|split].
  - intros Hs. rewrite Hs. split; reflexivity.
  - intros Hs He. rewrite Hs. cbn [store.status_eqb].
    unfold store.GetPRReviewers. rewrite query_Background.
    cbn [db count_stmt].
    destruct (service.is_assigned _ _) eqn:Hi.
    + apply is_assigned_true in Hi. destruct Hi; congruence.
    + split; reflexivity.
  - intros Hs He old Hold Hpool. rewrite Hs. cbn [store.status_eqb].
    unfold store.GetPRReviewers. rewrite query_Background.
    cbn [db count_stmt].
    assert (Hi : service.is_assigned (store.reviewers_of (db w) prID) oldUserID
                 = true).
    { apply is_assigned_true. split; [|assumption].
      apply has_user_true. destruct (find_user_some _ _ _ Hold). eauto. }
    rewrite Hi. cbn [negb]. unfold store.GetUser.
    rewrite query_Background. cbn [db count_stmt]. rewrite Hold.
    unfold store.GetActiveTeamMembers. rewrite query_Background.
    cbn [db count_stmt].
    rewrite available_is_replacement_pool, Hpool.
    split; reflexivity.
Qed.

Lemma ReassignReviewer_refusals_witness :
  let team := engine.CreateOrUpdateTeam "backend"
                [service.mkTeamMember "A" "alice" true;
                 service.mkTeamMember "B" "bob" true;
                 service.mkTeamMember "C" "carol" false] in
  let w := engine.replay [team; engine.CreatePR "pr1" "fix" "A"]
                         (engine.fresh 0) in
  let wm := engine.replay [engine.MergePR "pr1"] w in
  (fst (service.ReassignReviewer Background "pr1" "B" wm) = Err ErrPRMerged
   /\ db (snd (service.ReassignReviewer Background "pr1" "B" wm)) = db wm)
  /\ (fst (service.ReassignReviewer Background "pr1" "C" w) = Err ErrNotAssigned
      /\ db (snd (service.ReassignReviewer Background "pr1" "C" w)) = db w)
  /\ (fst (service.ReassignReviewer Background "pr1" "B" w) = Err ErrNoCandidate
      /\ db (snd (service.ReassignReviewer Background "pr1" "B" w)) = db w).
Proof.
  intros team w wm.
  pose proof (ReassignReviewer_refusals wm "pr1" "B"
                (store.mkPullRequest "pr1" "fix" "A" store.PRStatusMerged
                                     1005 (Some 1007%Z)) eq_refl)
    as (Hmerged & _ & _).
  pose proof (ReassignReviewer_refusals w "pr1" "C"
                (store.mkPullRequest "pr1" "fix" "A" store.PRStatusOpen
                                     1005 None) eq_refl)
    as (_ & Hnot & _).
  pose proof (ReassignReviewer_refusals w "pr1" "B"
                (store.mkPullRequest "pr1" "fix" "A" store.PRStatusOpen
                                     1005 None) eq_refl)
    as (_ & _ & Hnone).
  split; [|split].
  - apply Hmerged. reflexivity.
  - apply Hnot; reflexivity.
  - apply (Hnone eq_refl eq_refl (store.mkUser "B" "bob" true "backend" 1002));
      reflexivity.
Defined.

(** * Invariants: rules *)

Section Preservation.

Variable D : Type.
Variable Inv : D -> Prop.

Lemma preserves_ret {A} (a : A) : preserves Inv (ret a).
Proof. apply guarantees_ret; auto. Qed.

Lemma preserves_fail {A} e : preserves Inv (@fail D A e).
Proof. apply guarantees_fail; auto. Qed.

Lemma preserves_panic {A} : preserves Inv (@panic D A).
Proof. apply guarantees_panic; auto. Qed.

Lemma preserves_bind {A B} (m : runtime.M D A) (k : A -> runtime.M D B) :
  preserves Inv m -> (forall a, preserves Inv (k a)) -> preserves Inv (bind m k).
Proof.
  intros Hm Hk. apply guarantees_bind with (R := fun _ d => Inv d).
  - eapply guarantees_weaken; [exact Hm|auto|]. intros [a|e|] d; auto.
  - exact Hk.
Qed.

Lemma preserves_try {A B} (m : runtime.M D A) (k : A -> runtime.M D B) h :
  preserves Inv m -> (forall a, preserves Inv (k a)) ->
  (forall e, preserves Inv (h e)) -> preserves Inv (try m k h).
Proof.
  intros Hm Hk Hh.
  apply guarantees_try with (R := fun _ d => Inv d) (E := fun _ d => Inv d).
  - eapply guarantees_weaken; [exact Hm|auto|]. intros [a|e|] d; auto.
  - exact Hk.
  - exact Hh.
Qed.

Lemma preserves_query {A} ctx (q : D -> A) : preserves Inv (query ctx q).
Proof. apply guarantees_query; auto. Qed.

Lemma preserves_exec ctx (q : D -> SQLError + D) :
  (forall d d', Inv d -> q d = inr d' -> Inv d') -> preserves Inv (exec ctx q).
Proof. intros H. apply guarantees_exec; eauto. Qed.

Lemma preserves_time_Now : preserves Inv (@time_Now D).
Proof. apply guarantees_time_Now; auto. Qed.

Lemma preserves_Intn n : preserves Inv (@rand_Intn D n).
Proof. apply guarantees_Intn; auto. Qed.

Lemma preserves_Shuffle {T} n (swap : nat -> nat -> T -> option T) s :
  preserves Inv (@rand_Shuffle D T n swap s).
Proof.
  unfold rand_Shuffle. generalize (n - 1) as i. intros i. revert s.
  induction i as [|i IH]; intros s; simpl.
  - apply preserves_ret.
  - apply preserves_bind; [apply preserves_Intn|]. intros j.
    destruct (swap (S i) j s); [apply IH|apply preserves_panic].
Qed.

End Preservation.

Arguments preserves_ret {D}.
Arguments preserves_fail {D}.
Arguments preserves_panic {D}.
Arguments preserves_bind {D}.
Arguments preserves_try {D}.
Arguments preserves_query {D}.
Arguments preserves_exec {D}.
Arguments preserves_time_Now {D}.
Arguments preserves_Intn {D}.
Arguments preserves_Shuffle {D}.

(** One step through a call whose statements all keep the invariant;
    writing statements are left to the caller. *)
Ltac keep :=
  repeat match goal with
    | |- preserves _ (ret _) => apply preserves_ret
    | |- preserves _ (fail _) => apply preserves_fail
    | |- preserves _ panic => apply preserves_panic
    | |- preserves _ (query _ _) => apply preserves_query
    | |- preserves _ time_Now => apply preserves_time_Now
    | |- preserves _ (rand_Intn _) => apply preserves_Intn
    | |- preserves _ (rand_Shuffle _ _ _) => apply preserves_Shuffle
    | |- preserves _ (bind _ _) => apply preserves_bind; [|intro]
    | |- preserves _ (try _ _ _) => apply preserves_try; [|intro|intro]
    | |- preserves _ (let _ := _ in _) => cbv zeta
    | |- preserves _ (match ?x with _ => _ end) => destruct x
    end.

(** * Invariants of the pull-request table *)

Section PullRequestTable.

(** A property of the [pull_requests] table that survives the insertion
    of an OPEN row without [merged_at]. *)
Variable InvP : list store.PullRequest -> Prop.

Hypothesis insert_open :
  forall l id name author t,
    InvP l ->
    InvP (l ++ [store.mkPullRequest id name author store.PRStatusOpen t None]).

Let Inv := fun d => InvP (store.pull_requests d).

Lemma CreateTeam_keeps ctx team : preserves Inv (store.CreateTeam ctx team).
Proof.
  unfold store.CreateTeam. keep. apply preserves_exec. intros d d' Hd Hq.
  destruct (negb _) in Hq; [discriminate|].
  destruct (store.has_team _ _) in Hq; [discriminate|].
  inversion Hq; subst. exact Hd.
Qed.

Lemma CreateOrUpdateUser_keeps ctx user :
  preserves Inv (store.CreateOrUpdateUser ctx user).
Proof.
  unfold store.CreateOrUpdateUser. keep. apply preserves_exec.
  intros d d' Hd Hq.
  destruct (negb _) in Hq; [discriminate|].
  destruct (negb _) in Hq; [discriminate|].
  inversion Hq; subst. exact Hd.
Qed.

Lemma UpdateUser_keeps ctx user : preserves Inv (store.UpdateUser ctx user).
Proof.
  unfold store.UpdateUser. apply preserves_exec. intros d d' Hd Hq.
  destruct (negb _) in Hq; [discriminate|].
  destruct (_ && _) in Hq; [discriminate|].
  inversion Hq; subst. exact Hd.
Qed.

Lemma AssignReviewer_keeps ctx prID userID :
  preserves Inv (store.AssignReviewer ctx prID userID).
Proof.
  unfold store.AssignReviewer. keep. apply preserves_exec.
  intros d d' Hd Hq.
  destruct (negb _) in Hq; [discriminate|].
  destruct (store.has_edge _ _ _) in Hq; [discriminate|].
  destruct (negb _) in Hq; [discriminate|].
  inversion Hq; subst. exact Hd.
Qed.

Lemma RemoveReviewer_keeps ctx prID userID :
  preserves Inv (store.RemoveReviewer ctx prID userID).
Proof.
  unfold store.RemoveReviewer. apply preserves_exec. intros d d' Hd Hq.
  inversion Hq; subst. exact Hd.
Qed.

Lemma CreatePR_open_keeps ctx prID prName authorID t :
  preserves Inv
    (store.CreatePR ctx (store.mkPullRequest prID prName authorID
                                             store.PRStatusOpen t None)).
Proof.
  unfold store.CreatePR. keep. apply preserves_exec. intros d d' Hd Hq.
  destruct (negb _) in Hq; [discriminate|].
  destruct (store.has_pr _ _) in Hq; [discriminate|].
  destruct (negb _) in Hq; [discriminate|].
  inversion Hq; subst. unfold Inv. simpl. apply insert_open. exact Hd.
Qed.

Lemma upsert_members_keeps ctx teamName members :
  preserves Inv (service.upsert_members ctx teamName members).
Proof.
  induction members as [|m ms IH]; simpl; keep; auto.
  apply CreateOrUpdateUser_keeps.
Qed.

Lemma assign_all_keeps ctx prID reviewers :
  preserves Inv (service.assign_all ctx prID reviewers).
Proof.
  induction reviewers as [|r rs IH]; simpl; keep; auto.
  apply AssignReviewer_keeps.
Qed.

Lemma with_reviewers_keeps ctx prs acc :
  preserves Inv (service.with_reviewers ctx prs acc).
Proof.
  revert acc. induction prs as [|p ps IH]; intros acc; simpl;
    unfold store.GetPRReviewers; keep. apply IH.
Qed.

Lemma service_CreateOrUpdateTeam_keeps ctx teamName members :
  preserves Inv (service.CreateOrUpdateTeam ctx teamName members).
Proof.
  unfold service.CreateOrUpdateTeam, store.GetTeam. keep;
    first [apply CreateTeam_keeps | apply upsert_members_keeps].
Qed.

Lemma service_GetTeam_keeps ctx teamName :
  preserves Inv (service.GetTeam ctx teamName).
Proof. unfold service.GetTeam, store.GetTeam, store.GetTeamMembers. keep. Qed.

Lemma service_SetUserActive_keeps ctx userID isActive :
  preserves Inv (service.SetUserActive ctx userID isActive).
Proof.
  unfold service.SetUserActive, store.GetUser. keep. apply UpdateUser_keeps.
Qed.

Lemma service_CreatePR_keeps ctx prID prName authorID :
  preserves Inv (service.CreatePR ctx prID prName authorID).
Proof.
  unfold service.CreatePR, store.GetPR, store.GetUser,
    store.GetActiveTeamMembers.
  keep; first [apply CreatePR_open_keeps | apply assign_all_keeps].
Qed.

Lemma service_ReassignReviewer_keeps ctx prID oldUserID :
  preserves Inv (service.ReassignReviewer ctx prID oldUserID).
Proof.
  unfold service.ReassignReviewer, store.GetPR, store.GetUser,
    store.GetActiveTeamMembers, store.GetPRReviewers.
  keep; first [apply RemoveReviewer_keeps | apply AssignReviewer_keeps].
Qed.

Lemma service_GetUserAssignedPRs_keeps ctx userID :
  preserves Inv (service.GetUserAssignedPRs ctx userID).
Proof.
  unfold service.GetUserAssignedPRs, store.GetUserAssignedPRs. keep.
  apply with_reviewers_keeps.
Qed.

Lemma service_GetPR_keeps ctx prID : preserves Inv (service.GetPR ctx prID).
Proof. unfold service.GetPR, store.GetPR, store.GetPRReviewers. keep. Qed.

(** A merge rewrites the rows with the given id to MERGED with a
    [merged_at]; a property that survives that too is kept by [MergePR]. *)
Hypothesis mark_merged :
  forall l id name t,
    InvP l ->
    InvP (map (fun p => if (store.PullRequestID p =? id)%string
                        then store.mkPullRequest (store.PullRequestID p) name
                               (store.AuthorID p) store.PRStatusMerged
                               (store.CreatedAt p) (Some t)
                        else p) l).

Lemma service_MergePR_keeps ctx prID :
  preserves Inv (service.MergePR ctx prID).
Proof.
  unfold service.MergePR, store.GetPR, store.GetPRReviewers. keep.
  unfold store.UpdatePR. apply preserves_exec. intros d d' Hd Hq.
  destruct (negb _) in Hq; [discriminate|].
  inversion Hq; subst. unfold Inv. simpl. apply mark_merged. exact Hd.
Qed.

Lemma every_call_keeps ctx c (w : store.World) :
  Inv (db w) -> Inv (db (engine.after ctx c w)).
Proof.
  intros H. destruct c; simpl.
  - apply (service_CreateOrUpdateTeam_keeps ctx teamName members w H).
  - apply (service_GetTeam_keeps ctx teamName w H).
  - apply (service_SetUserActive_keeps ctx userID isActive w H).
  - apply (service_CreatePR_keeps ctx prID prName authorID w H).
  - apply (service_MergePR_keeps ctx prID w H).
  - apply (service_ReassignReviewer_keeps ctx prID oldUserID w H).
  - apply (service_GetUserAssignedPRs_keeps ctx userID w H).
  - apply (service_GetPR_keeps ctx prID w H).
Qed.

End PullRequestTable.

Lemma reachable_replay calls w :
  engine.reachable w -> engine.reachable (engine.replay calls w).
Proof.
  revert w. induction calls as [|c cs IH]; intros w H; simpl; [exact H|].
  apply IH. apply engine.reachable_after. exact H.
Qed.

(** * merged_at and status *)

(** C10: in every reachable state a pull request has a [merged_at]
    exactly when its status is MERGED.  The rows a [CreatePR] adds are
    OPEN without [merged_at]; no call other than [MergePR] produces a row
    with [merged_at] that was not already there; and a row that [MergePR]
    changes is MERGED and has [merged_at] at once. *)
Theorem merged_at_iff_status :
  (forall w, engine.reachable w -> merged_at_iff_merged (db w))
  /\ (forall ctx prID prName authorID (w : store.World) p,
         In p (store.pull_requests
                 (db (engine.after ctx (engine.CreatePR prID prName authorID) w))) ->
         In p (store.pull_requests (db w))
         \/ (store.Status p = store.PRStatusOpen /\ store.MergedAt p = None))
  /\ (forall ctx c (w : store.World) p,
         (forall prID, c <> engine.MergePR prID) ->
         In p (store.pull_requests (db (engine.after ctx c w))) ->
         store.MergedAt p <> None ->
         In p (store.pull_requests (db w)))
  /\ (forall ctx prID (w : store.World) p,
         In p (store.pull_requests (db (engine.after ctx (engine.MergePR prID) w))) ->
         In p (store.pull_requests (db w))
         \/ (store.Status p = store.PRStatusMerged /\ store.MergedAt p <> None)).
Proof.
  split; [|split; [|split]].
  - intros w H. induction H as [w H|w ctx c H IH].
    + rewrite H. intros p [].
    + revert IH. unfold merged_at_iff_merged.
      apply (every_call_keeps
               (fun l => forall p, In p l ->
                  (store.MergedAt p <> None
                   <-> store.Status p = store.PRStatusMerged))).
      * intros l id name author t Hl p Hp. apply in_app_or in Hp.
        destruct Hp as [Hp|[<-|[]]]; [auto|]. simpl. split; congruence.
      * intros l id name t Hl p Hp. apply in_map_iff in Hp.
        destruct Hp as (p0 & <- & Hp0).
        destruct (store.PullRequestID p0 =? id)%string; [|auto].
        simpl. split; congruence.
  - intros ctx prID prName authorID w p. simpl.
    assert (Hk := service_CreatePR_keeps
              (fun l => forall p, In p l ->
                 In p (store.pull_requests (db w))
                 \/ (store.Status p = store.PRStatusOpen
                     /\ store.MergedAt p = None))).
    apply Hk; [|auto].
    intros l id name author t Hl q Hq. apply in_app_or in Hq.
    destruct Hq as [Hq|[<-|[]]]; auto.
  - intros ctx c w p Hc Hp Hm. revert p Hp Hm.
    set (InvP := fun l => forall p, In p l -> store.MergedAt p <> None ->
                                    In p (store.pull_requests (db w))).
    assert (Hins : forall l id name author t,
               InvP l ->
               InvP (l ++ [store.mkPullRequest id name author
                                               store.PRStatusOpen t None])%list).
    { intros l id name author t Hl q Hq Hm. apply in_app_or in Hq.
      destruct Hq as [Hq|[<-|[]]]; [auto|]. simpl in Hm. congruence. }
    assert (H0 : InvP (store.pull_requests (db w))) by (intros q Hq _; exact Hq).
    destruct c; simpl.
    + apply (service_CreateOrUpdateTeam_keeps InvP ctx teamName members w H0).
    + apply (service_GetTeam_keeps InvP ctx teamName w H0).
    + apply (service_SetUserActive_keeps InvP ctx userID isActive w H0).
    + apply (service_CreatePR_keeps InvP Hins ctx prID prName authorID w H0).
    + exfalso. apply (Hc prID). reflexivity.
    + apply (service_ReassignReviewer_keeps InvP ctx prID oldUserID w H0).
    + apply (service_GetUserAssignedPRs_keeps InvP ctx userID w H0).
    + apply (service_GetPR_keeps InvP ctx prID w H0).
  - intros ctx prID w p. simpl.
    assert (Hk := service_MergePR_keeps
              (fun l => forall p, In p l ->
                 In p (store.pull_requests (db w))
                 \/ (store.Status p = store.PRStatusMerged
                     /\ store.MergedAt p <> None))).
    apply Hk; [|auto].
    intros l id name t Hl q Hq. apply in_map_iff in Hq.
    destruct Hq as (p0 & <- & Hp0).
    destruct (store.PullRequestID p0 =? id)%string; [|auto].
    right. simpl. split; congruence.
Qed.

Lemma merged_at_iff_status_witness :
  let w := engine.replay
             [engine.CreateOrUpdateTeam "backend"
                [service.mkTeamMember "A" "alice" true;
                 service.mkTeamMember "B" "bob" true];
              engine.CreatePR "pr1" "fix" "A";
              engine.CreatePR "pr2" "feature" "B";
              engine.MergePR "pr1"]
             (engine.fresh 0) in
  engine.reachable w /\ merged_at_iff_merged (db w).
Proof.
  intros w.
  assert (Hw : engine.reachable w).
  { apply reachable_replay. apply engine.reachable_empty. reflexivity. }
  split; [exact Hw|].
  apply (proj1 merged_at_iff_status w Hw).
Defined.

(** * Shuffling *)

Section Shuffle.

Lemma nth_error_set_at_same {A} (l : list A) i a x :
  nth_error l i = Some a -> nth_error (service.set_at l i x) i = Some x.
Proof.
  revert i. induction l as [|h t IH]; intros [|i] H; simpl in *;
    try discriminate; auto.
Qed.

Lemma nth_error_set_at_other {A} (l : list A) i j x :
  i <> j -> nth_error (service.set_at l i x) j = nth_error l j.
Proof.
  revert i j. induction l as [|h t IH]; intros [|i] [|j] H; simpl;
    try reflexivity; try congruence.
  apply IH. congruence.
Qed.

Lemma set_at_exchange {A} (l : list A) i a x :
  nth_error l i = Some a ->
  Permutation (x :: l) (a :: service.set_at l i x).
Proof.
  revert i. induction l as [|h t IH]; intros [|i] H; simpl in *;
    try discriminate.
  - inversion H; subst. apply perm_swap.
  - specialize (IH i H).
    apply perm_trans with (h :: x :: t); [apply perm_swap|].
    apply perm_trans with (h :: a :: service.set_at t i x);
      [apply perm_skip; exact IH|apply perm_swap].
Qed.

Lemma swap_permutes i j s s' :
  service.swap i j s = Some s' -> Permutation s s'.
Proof.
  unfold service.swap.
  destruct (nth_error s i) as [a|] eqn:Hi; [|discriminate].
  destruct (nth_error s j) as [b|] eqn:Hj; [|discriminate].
  intros H. inversion H; subst s'; clear H.
  assert (Hj' : nth_error (service.set_at s i b) j = Some b).
  { destruct (Nat.eq_dec i j) as [->|Hne].
    - eapply nth_error_set_at_same; eauto.
    - rewrite nth_error_set_at_other; assumption. }
  apply Permutation_cons_inv with (a := b).
  apply perm_trans with (a :: service.set_at s i b).
  - apply set_at_exchange; assumption.
  - apply set_at_exchange; assumption.
Qed.

Variable D : Type.
Variable P : D -> Prop.

Lemma shuffle_from_permutes i s :
  guarantees P (shuffle_from i service.swap s)
    (fun o d => P d /\ match o with
                       | Ok s' => Permutation s s'
                       | _ => True
                       end).
Proof.
  revert s. induction i as [|i IH]; intros s; simpl.
  - apply guarantees_ret. auto.
  - apply bind_Intn; [auto|]. intros j Hj.
    destruct (service.swap (S i) j s) as [s1|] eqn:Hs.
    + eapply guarantees_weaken; [apply (IH s1)|auto|].
      intros [s'|e|] d [Hd Hp]; split; auto.
      apply perm_trans with s1; [|exact Hp].
      eapply swap_permutes; eauto.
    + apply guarantees_panic. auto.
Qed.

Lemma Shuffle_permutes n s :
  guarantees P (rand_Shuffle n service.swap s)
    (fun o d => P d /\ match o with
                       | Ok s' => Permutation s s'
                       | _ => True
                       end).
Proof. apply shuffle_from_permutes. Qed.

(** The reviewer selection of [CreatePR]: the first [min 2 n] elements of
    a permutation of the [n] candidates. *)
Lemma selection_is_prefix_of_permutation (activeMembers : list store.User) :
  guarantees P
    (if 0 <? length activeMembers then
       shuffled <- rand_Shuffle (length activeMembers) service.swap
                                activeMembers ;;
       ret (firstn (service.min 2 (length activeMembers)) shuffled)
     else ret [])
    (fun o d => P d /\ match o with
                       | Ok reviewers =>
                           exists shuffled,
                             Permutation activeMembers shuffled
                             /\ reviewers
                                = firstn (Nat.min 2 (length activeMembers))
                                         shuffled
                       | _ => True
                       end).
Proof.
  assert (Hmin : service.min 2 (length activeMembers)
                 = Nat.min 2 (length activeMembers)).
  { unfold service.min. destruct (Nat.ltb_spec 2 (length activeMembers)); lia. }
  destruct (Nat.ltb_spec 0 (length activeMembers)) as [Hpos|Hz].
  - eapply guarantees_seq; [apply Shuffle_permutes|simpl; tauto..|].
    intros shuffled. apply guarantees_ret. intros d [Hd Hp].
    split; [exact Hd|]. exists shuffled. rewrite Hmin. auto.
  - apply guarantees_ret. intros d Hd. split; [exact Hd|].
    exists activeMembers. split; [apply Permutation_refl|].
    destruct activeMembers; [reflexivity|simpl in Hz; lia].
Qed.

End Shuffle.

(** * Authors never review their own pull requests *)

Section Ledger.

Lemma has_pr_false d prID p :
  store.has_pr d prID = false -> In p (store.pull_requests d) ->
  store.PullRequestID p <> prID.
Proof.
  intros H Hin Heq.
  assert (Ht : store.has_pr d prID = true) by (apply has_pr_true; eauto).
  congruence.
Qed.

Lemma ledger_same_rows d d' :
  store.pull_requests d' = store.pull_requests d ->
  store.pr_reviewers d' = store.pr_reviewers d ->
  ledger_ok d -> ledger_ok d'.
Proof.
  intros Hp He (H1 & H2 & H3).
  unfold ledger_ok, no_self_review, store.has_pr in *.
  rewrite Hp, He. auto.
Qed.

Lemma authored_same_rows d d' prID a :
  store.pull_requests d' = store.pull_requests d ->
  authored d prID a -> authored d' prID a.
Proof. unfold authored. intros ->. auto. Qed.

Lemma ledger_after_insert_pr d id name author status t :
  store.has_pr d id = false ->
  ledger_ok d ->
  let d' := store.mkTables (store.teams d) (store.users d)
              (store.pull_requests d
                 ++ [store.mkPullRequest id name author status t None])
              (store.pr_reviewers d) in
  ledger_ok d' /\ authored d' id author.
Proof.
  intros Hnew (Hu & Hfk & Hself) d'. split; [split; [|split]|].
  - subst d'. cbn [store.pull_requests]. rewrite map_app.
    apply NoDup_app; [exact Hu|repeat constructor; simpl; tauto|].
    intros x Hx [<-|[]]. apply in_map_iff in Hx. destruct Hx as (p & Hp & Hin).
    exact (has_pr_false _ _ _ Hnew Hin Hp).
  - intros e He. specialize (Hfk e He). subst d'. unfold store.has_pr in *.
    cbn [store.pull_requests]. rewrite existsb_app, Hfk. reflexivity.
  - intros p e Hp He Heq. subst d'. cbn [store.pull_requests] in Hp.
    cbn [store.pr_reviewers] in He. apply in_app_or in Hp.
    destruct Hp as [Hp|[<-|[]]]; [eauto|].
    cbn [store.PullRequestID] in Heq. specialize (Hfk e He).
    rewrite Heq in Hfk. congruence.
  - intros p Hp Hid. subst d'. cbn [store.pull_requests] in Hp.
    apply in_app_or in Hp. destruct Hp as [Hp|[<-|[]]]; [|reflexivity].
    exfalso. exact (has_pr_false _ _ _ Hnew Hp Hid).
Qed.

Lemma ledger_after_update_pr d id (upd : store.PullRequest -> store.PullRequest) :
  (forall p, store.PullRequestID (upd p) = store.PullRequestID p) ->
  (forall p, store.AuthorID (upd p) = store.AuthorID p) ->
  ledger_ok d ->
  ledger_ok (store.mkTables (store.teams d) (store.users d)
               (map (fun p => if (store.PullRequestID p =? id)%string
                              then upd p else p) (store.pull_requests d))
               (store.pr_reviewers d)).
Proof.
  intros Hid Hauth (Hu & Hfk & Hself).
  assert (Hids : map store.PullRequestID
                     (map (fun p => if (store.PullRequestID p =? id)%string
                                    then upd p else p) (store.pull_requests d))
                 = map store.PullRequestID (store.pull_requests d)).
  { rewrite map_map. apply map_ext. intros p.
    destruct (store.PullRequestID p =? id)%string; auto. }
  split; [|split].
  - cbn [store.pull_requests]. rewrite Hids. exact Hu.
  - intros e He. cbn [store.pr_reviewers] in He. specialize (Hfk e He).
    apply has_pr_true in Hfk. destruct Hfk as (p & Hp & Hpid).
    apply has_pr_true. cbn [store.pull_requests].
    exists (if (store.PullRequestID p =? id)%string then upd p else p).
    split.
    + apply (in_map (fun p => if (store.PullRequestID p =? id)%string
                              then upd p else p) _ p Hp).
    + destruct (store.PullRequestID p =? id)%string; [rewrite Hid|];
        exact Hpid.
  - intros p e Hp He Heq. cbn [store.pull_requests] in Hp.
    cbn [store.pr_reviewers] in He. apply in_map_iff in Hp.
    destruct Hp as (p0 & <- & Hp0).
    destruct (store.PullRequestID p0 =? id)%string.
    + rewrite Hauth. rewrite Hid in Heq. eauto.
    + eauto.
Qed.

Lemma ledger_after_remove d prID userID :
  ledger_ok d ->
  ledger_ok (store.mkTables (store.teams d) (store.users d)
               (store.pull_requests d)
               (filter (fun e => negb ((store.edge_pr e =? prID)%string
                                       && (store.edge_user e =? userID)%string))
                       (store.pr_reviewers d))).
Proof.
  intros (Hu & Hfk & Hself). split; [exact Hu|split].
  - intros e He. cbn [store.pr_reviewers] in He. apply filter_In in He.
    destruct He as [He _]. exact (Hfk e He).
  - intros p e Hp He. cbn [store.pr_reviewers] in He. apply filter_In in He.
    destruct He as [He _]. exact (Hself p e Hp He).
Qed.

Lemma ledger_after_assign d prID userID a t :
  ledger_ok d -> store.has_pr d prID = true ->
  authored d prID a -> userID <> a ->
  ledger_ok (store.mkTables (store.teams d) (store.users d)
               (store.pull_requests d)
               (store.pr_reviewers d ++ [store.mkEdge prID userID t])).
Proof.
  intros (Hu & Hfk & Hself) Hpr Ha Hne. split; [exact Hu|split].
  - intros e He. cbn [store.pr_reviewers] in He. apply in_app_or in He.
    destruct He as [He|[<-|[]]]; [exact (Hfk e He)|exact Hpr].
  - intros p e Hp He Heq. cbn [store.pr_reviewers] in He.
    cbn [store.pull_requests] in Hp. apply in_app_or in He.
    destruct He as [He|[<-|[]]]; [exact (Hself p e Hp He Heq)|].
    cbn [store.edge_user store.edge_pr] in *.
    rewrite (Ha p Hp (eq_sym Heq)). exact Hne.
Qed.

(** The statements that cannot break the ledger, whatever their
    arguments. *)

Lemma CreateTeam_ledger ctx team : preserves ledger_ok (store.CreateTeam ctx team).
Proof.
  unfold store.CreateTeam. keep. apply preserves_exec. intros d d' Hd Hq.
  destruct (negb _) in Hq; [discriminate|].
  destruct (store.has_team _ _) in Hq; [discriminate|].
  inversion Hq; subst. revert Hd. apply ledger_same_rows; reflexivity.
Qed.

Lemma CreateOrUpdateUser_ledger ctx user :
  preserves ledger_ok (store.CreateOrUpdateUser ctx user).
Proof.
  unfold store.CreateOrUpdateUser. keep. apply preserves_exec.
  intros d d' Hd Hq.
  destruct (negb _) in Hq; [discriminate|].
  destruct (negb _) in Hq; [discriminate|].
  inversion Hq; subst. revert Hd. apply ledger_same_rows; reflexivity.
Qed.

Lemma UpdateUser_ledger ctx user :
  preserves ledger_ok (store.UpdateUser ctx user).
Proof.
  unfold store.UpdateUser. apply preserves_exec. intros d d' Hd Hq.
  destruct (negb _) in Hq; [discriminate|].
  destruct (_ && _) in Hq; [discriminate|].
  inversion Hq; subst. revert Hd. apply ledger_same_rows; reflexivity.
Qed.

Lemma UpdatePR_ledger ctx pr : preserves ledger_ok (store.UpdatePR ctx pr).
Proof.
  unfold store.UpdatePR. apply preserves_exec. intros d d' Hd Hq.
  destruct (negb _) in Hq; [discriminate|].
  inversion Hq; subst.
  apply (ledger_after_update_pr d (store.PullRequestID pr)
           (fun p => store.mkPullRequest (store.PullRequestID p)
                       (store.PullRequestName pr) (store.AuthorID p)
                       (store.Status pr) (store.CreatedAt p)
                       (store.MergedAt pr))); auto.
Qed.

Lemma RemoveReviewer_ledger ctx prID userID a :
  preserves (fun d => ledger_ok d /\ authored d prID a)
            (store.RemoveReviewer ctx prID userID).
Proof.
  unfold store.RemoveReviewer. apply preserves_exec. intros d d' [Hd Ha] Hq.
  inversion Hq; subst. split; [apply ledger_after_remove; exact Hd|].
  revert Ha. apply authored_same_rows. reflexivity.
Qed.

Lemma AssignReviewer_ledger ctx prID userID a :
  userID <> a ->
  preserves (fun d => ledger_ok d /\ authored d prID a)
            (store.AssignReviewer ctx prID userID).
Proof.
  intros Hne. unfold store.AssignReviewer. keep. apply preserves_exec.
  intros d d' [Hd Ha] Hq.
  destruct (negb _) in Hq; [discriminate|].
  destruct (store.has_edge _ _ _) in Hq; [discriminate|].
  destruct (store.has_pr d prID) eqn:Hpr; [|discriminate].
  destruct (negb _) in Hq; [discriminate|].
  inversion Hq; subst. split.
  - eapply ledger_after_assign; eauto.
  - revert Ha. apply authored_same_rows. reflexivity.
Qed.

Lemma assign_all_ledger ctx prID reviewers a :
  (forall r, In r reviewers -> store.UserID r <> a) ->
  preserves (fun d => ledger_ok d /\ authored d prID a)
            (service.assign_all ctx prID reviewers).
Proof.
  induction reviewers as [|r rs IH]; intros H; simpl; keep.
  - apply AssignReviewer_ledger. apply H. left. reflexivity.
  - apply IH. intros r' Hr'. apply H. right. exact Hr'.
Qed.

Lemma upsert_members_ledger ctx teamName members :
  preserves ledger_ok (service.upsert_members ctx teamName members).
Proof.
  induction members as [|m ms IH]; simpl; keep; auto.
  apply CreateOrUpdateUser_ledger.
Qed.

Lemma with_reviewers_ledger ctx prs acc :
  preserves ledger_ok (service.with_reviewers ctx prs acc).
Proof.
  revert acc. induction prs as [|p ps IH]; intros acc; simpl;
    unfold store.GetPRReviewers; keep. apply IH.
Qed.

End Ledger.

Section ListFacts.

Variable A : Type.

Lemma in_firstn n (l : list A) x : In x (firstn n l) -> In x l.
Proof.
  revert l. induction n as [|n IH]; intros [|h t] H; simpl in *; try tauto.
  destruct H as [H|H]; auto.
Qed.

Lemma NoDup_firstn n (l : list A) : NoDup l -> NoDup (firstn n l).
Proof.
  revert l. induction n as [|n IH]; intros [|h t] H; simpl; try constructor.
  - inversion H; subst. intros Hin. apply in_firstn in Hin. contradiction.
  - inversion H; subst. auto.
Qed.

Lemma NoDup_map_eq {B} (f : A -> B) l x y :
  NoDup (map f l) -> In x l -> In y l -> f x = f y -> x = y.
Proof.
  induction l as [|h t IH]; intros Hnd Hx Hy Heq; simpl in *; [tauto|].
  inversion Hnd as [|? ? Hnotin Hnd']; subst.
  destruct Hx as [->|Hx], Hy as [->|Hy]; auto.
  - exfalso. apply Hnotin. rewrite Heq. apply in_map. exact Hy.
  - exfalso. apply Hnotin. rewrite <- Heq. apply in_map. exact Hx.
Qed.

End ListFacts.

Arguments in_firstn {A}.
Arguments NoDup_firstn {A}.
Arguments NoDup_map_eq {A B}.

Section LedgerCalls.

Lemma unique_pr_authored d prID pr :
  ledger_ok d ->
  find (fun p => (store.PullRequestID p =? prID)%string) (store.pull_requests d)
  = Some pr ->
  authored d prID (store.AuthorID pr).
Proof.
  intros (Hu & _) Hf p Hp Hid. destruct (find_pr_some _ _ _ Hf) as [Hin Hpid].
  f_equal. apply (NoDup_map_eq store.PullRequestID (store.pull_requests d));
    auto. congruence.
Qed.

Lemma store_CreatePR_ledger ctx pr :
  guarantees ledger_ok (store.CreatePR ctx pr)
    (fun o d' =>
       match o with
       | Ok _ => ledger_ok d'
                 /\ authored d' (store.PullRequestID pr) (store.AuthorID pr)
       | _ => ledger_ok d'
       end).
Proof.
  unfold store.CreatePR. apply bind_time_Now. intros now.
  apply guarantees_exec; auto. intros d d' Hd Hq.
  destruct (negb _) in Hq; [discriminate|].
  destruct (store.has_pr d (store.PullRequestID pr)) eqn:Hpr; [discriminate|].
  destruct (negb _) in Hq; [discriminate|].
  inversion Hq; subst. apply ledger_after_insert_pr; assumption.
Qed.

Lemma active_members_exclude d teamName x u :
  In u (filter (fun u => (store.TeamName u =? teamName)%string
                         && store.IsActive u
                         && match Some x with
                            | Some x => negb (store.UserID u =? x)%string
                            | None => true
                            end) (store.users d)) ->
  In u (store.users d) /\ store.TeamName u = teamName
  /\ store.IsActive u = true /\ store.UserID u <> x.
Proof.
  intros H. apply filter_In in H. destruct H as [Hin Hc].
  apply andb_true_iff in Hc. destruct Hc as [Hc Hx].
  apply andb_true_iff in Hc. destruct Hc as [Ht Ha].
  apply String.eqb_eq in Ht. apply negb_true_iff in Hx.
  apply String.eqb_neq in Hx. auto.
Qed.

Lemma service_CreatePR_ledger ctx prID prName authorID :
  preserves ledger_ok (service.CreatePR ctx prID prName authorID).
Proof.
  unfold service.CreatePR, store.GetPR, store.GetUser.
  apply preserves_bind; [keep|]. intros [existing|]; [keep|].
  apply preserves_bind; [keep|]. intros [author|]; [|keep].
  unfold store.GetActiveTeamMembers, preserves.
  apply bind_query; [auto|]. intros activeMembers.
  apply guarantees_weaken with
    (P' := fun d => ledger_ok d
                    /\ (forall u, In u activeMembers ->
                                  store.UserID u <> authorID))
    (Q' := fun (_ : outcome service.PullRequestWithReviewers) d => ledger_ok d);
    [| |auto].
  2:{ intros d [Hd ->]. split; [exact Hd|]. intros u Hu.
      apply active_members_exclude in Hu. tauto. }
  apply guarantees_pure. intros Hex.
  eapply guarantees_seq;
    [apply selection_is_prefix_of_permutation|simpl; tauto..|].
  intros reviewers. apply guarantees_pure. intros (shuffled & Hperm & Hrev).
  apply bind_time_Now. intros now. cbv zeta.
  eapply guarantees_seq; [apply store_CreatePR_ledger|simpl; auto..|].
  intros []. cbn [store.PullRequestID store.AuthorID].
  eapply guarantees_seq; [apply (assign_all_ledger ctx prID reviewers authorID)
                         |simpl; tauto..|].
  - intros r Hr. apply Hex. subst reviewers. apply in_firstn in Hr.
    eapply Permutation_in; [apply Permutation_sym; exact Hperm|exact Hr].
  - intros []. apply guarantees_ret. tauto.
Qed.

Lemma service_ReassignReviewer_ledger ctx prID oldUserID :
  preserves ledger_ok (service.ReassignReviewer ctx prID oldUserID).
Proof.
  unfold service.ReassignReviewer, store.GetPR, preserves.
  apply bind_query; [auto|]. intros [pr|]; [|apply guarantees_fail; tauto].
  apply guarantees_weaken with
    (P' := fun d => ledger_ok d /\ authored d prID (store.AuthorID pr))
    (Q' := fun (_ : outcome (service.PullRequestWithReviewers * string)) d =>
             ledger_ok d);
    [| |auto].
  2:{ intros d [Hd Hf]. split; [exact Hd|].
      apply unique_pr_authored; auto. }
  destruct (store.status_eqb _ _); [apply guarantees_fail; tauto|].
  unfold store.GetPRReviewers at 1. apply bind_query; [tauto|].
  intros currentReviewers.
  destruct (negb _); [apply guarantees_fail; tauto|].
  unfold store.GetUser. apply bind_query; [tauto|].
  intros [oldReviewer|]; [|apply guarantees_fail; tauto].
  unfold store.GetActiveTeamMembers. apply bind_query; [tauto|].
  intros activeMembers.
  apply guarantees_weaken with
    (P' := fun d => (ledger_ok d /\ authored d prID (store.AuthorID pr))
                    /\ (forall u, In u activeMembers ->
                                  store.UserID u <> store.AuthorID pr))
    (Q' := fun (_ : outcome (service.PullRequestWithReviewers * string)) d =>
             ledger_ok d);
    [| |auto].
  2:{ intros d [[[Hd _] _] ->]. split; [exact Hd|]. intros u Hu.
      apply active_members_exclude in Hu. tauto. }
  apply guarantees_pure. intros Hex. cbv zeta.
  destruct (_ =? 0); [apply guarantees_fail; tauto|].
  apply bind_Intn; [tauto|]. intros k Hk.
  destruct (nth_error _ k) as [newReviewer|] eqn:Hn;
    [|apply guarantees_panic; tauto].
  assert (Hne : store.UserID newReviewer <> store.AuthorID pr).
  { apply Hex. apply nth_error_In in Hn. unfold service.available in Hn.
    apply filter_In in Hn. tauto. }
  eapply guarantees_seq; [apply RemoveReviewer_ledger|simpl; tauto..|].
  intros [].
  eapply guarantees_seq;
    [apply AssignReviewer_ledger; exact Hne|simpl; tauto..|].
  intros []. unfold store.GetPRReviewers. apply bind_query; [tauto|].
  intros updated. apply guarantees_ret. tauto.
Qed.

Lemma service_CreateOrUpdateTeam_ledger ctx teamName members :
  preserves ledger_ok (service.CreateOrUpdateTeam ctx teamName members).
Proof.
  unfold service.CreateOrUpdateTeam, store.GetTeam. keep;
    first [apply CreateTeam_ledger | apply upsert_members_ledger].
Qed.

Lemma service_SetUserActive_ledger ctx userID isActive :
  preserves ledger_ok (service.SetUserActive ctx userID isActive).
Proof.
  unfold service.SetUserActive, store.GetUser. keep. apply UpdateUser_ledger.
Qed.

Lemma service_MergePR_ledger ctx prID :
  preserves ledger_ok (service.MergePR ctx prID).
Proof.
  unfold service.MergePR, store.GetPR, store.GetPRReviewers. keep.
  apply UpdatePR_ledger.
Qed.

Lemma every_call_keeps_ledger ctx c (w : store.World) :
  ledger_ok (db w) -> ledger_ok (db (engine.after ctx c w)).
Proof.
  intros H. destruct c; simpl.
  - apply (service_CreateOrUpdateTeam_ledger ctx teamName members w H).
  - assert (Hk : preserves ledger_ok (service.GetTeam ctx teamName))
      by (unfold service.GetTeam, store.GetTeam, store.GetTeamMembers; keep).
    apply (Hk w H).
  - apply (service_SetUserActive_ledger ctx userID isActive w H).
  - apply (service_CreatePR_ledger ctx prID prName authorID w H).
  - apply (service_MergePR_ledger ctx prID w H).
  - apply (service_ReassignReviewer_ledger ctx prID oldUserID w H).
  - assert (Hk : preserves ledger_ok (service.GetUserAssignedPRs ctx userID)).
    { unfold service.GetUserAssignedPRs, store.GetUserAssignedPRs. keep.
      apply with_reviewers_ledger. }
    apply (Hk w H).
  - assert (Hk : preserves ledger_ok (service.GetPR ctx prID))
      by (unfold service.GetPR, store.GetPR, store.GetPRReviewers; keep).
    apply (Hk w H).
Qed.

Lemma reachable_ledger_ok w : engine.reachable w -> ledger_ok (db w).
Proof.
  intros H. induction H as [w H|w ctx c H IH].
  - rewrite H. split; [apply NoDup_nil|split].
    + intros e [].
    + intros p e [].
  - apply every_call_keeps_ledger. exact IH.
Qed.

End LedgerCalls.

(** C5: in every state reachable through the engine, whatever the clock,
    the random draws and the cancellations, no pull request has its
    author among its assigned reviewers: no assignment edge of a pull
    request carries the id of its author, and the reviewers [GetPR]
    would list for it do not contain the author. *)
Theorem author_never_reviews_own_pr w :
  engine.reachable w ->
  no_self_review (db w)
  /\ (forall p, In p (store.pull_requests (db w)) ->
                ~ In (store.AuthorID p)
                     (map store.UserID
                          (store.reviewers_of (db w) (store.PullRequestID p)))).
Proof.
  intros H. apply reachable_ledger_ok in H. destruct H as (_ & _ & Hself).
  split; [exact Hself|]. intros p Hp Hin. apply in_map_iff in Hin.
  destruct Hin as (r & Hid & Hr). apply in_reviewers_of in Hr.
  destruct Hr as [_ He]. apply has_edge_true in He.
  destruct He as (e & He & Hpr & Hu).
  apply (Hself p e Hp He Hpr). congruence.
Qed.

Lemma author_never_reviews_own_pr_witness :
  let w := engine.replay
             [engine.CreateOrUpdateTeam "backend"
                [service.mkTeamMember "A" "alice" true;
                 service.mkTeamMember "B" "bob" true;
                 service.mkTeamMember "C" "carol" true];
              engine.CreatePR "pr1" "fix" "A";
              engine.ReassignReviewer "pr1" "B"]
             (engine.fresh 0) in
  engine.reachable w /\ no_self_review (db w).
Proof.
  intros w.
  assert (Hw : engine.reachable w).
  { apply reachable_replay. apply engine.reachable_empty. reflexivity. }
  split; [exact Hw|].
  apply (proj1 (author_never_reviews_own_pr w Hw)).
Defined.

(** * Successful calls, read backwards *)

Section Inversion.

Variable D : Type.

Lemma bind_Ok {A B} (m : runtime.M D A) (k : A -> runtime.M D B) w b w' :
  bind m k w = (Ok b, w') ->
  exists a w1, m w = (Ok a, w1) /\ k a w1 = (Ok b, w').
Proof.
  unfold bind. destruct (m w) as [[a|e|] w1]; intros H; try discriminate.
  eauto.
Qed.

Lemma bind_assoc {A B C} (m : runtime.M D A) (f : A -> runtime.M D B)
      (g : B -> runtime.M D C) w :
  bind (bind m f) g w = bind m (fun x => bind (f x) g) w.
Proof. unfold bind. destruct (m w) as [[a|e|] w1]; reflexivity. Qed.

Lemma query_Ok {A} ctx (q : D -> A) w a w' :
  query ctx q w = (Ok a, w') -> a = q (db w) /\ db w' = db w.
Proof.
  unfold query, bind, roundtrip. destruct (done ctx (stmts w)); intros H;
    inversion H; subst; auto.
Qed.

Lemma exec_Ok ctx (q : D -> SQLError + D) w u w' :
  exec ctx q w = (Ok u, w') -> q (db w) = inr (db w').
Proof.
  unfold exec, bind, roundtrip. destruct (done ctx (stmts w)); [discriminate|].
  simpl. destruct (q (db w)); intros H; inversion H; subst. reflexivity.
Qed.

Lemma time_Now_Ok w z w' :
  @time_Now D w = (Ok z, w') -> db w' = db w.
Proof. unfold time_Now. intros H. inversion H; subst. reflexivity. Qed.

Lemma rand_Intn_Ok n w k w' :
  @rand_Intn D n w = (Ok k, w') -> k < n /\ db w' = db w.
Proof.
  unfold rand_Intn. destruct n; intros H; [discriminate|].
  assert (Hk : k = rand w (rand_draws w) mod S n) by congruence.
  assert (Hw : w' = advance_rand w) by congruence.
  subst k w'. split; [apply Nat.mod_upper_bound; discriminate|reflexivity].
Qed.

Lemma guaranteed {A} (P : D -> Prop) (m : runtime.M D A) Q w o w' :
  guarantees P m Q -> P (db w) -> m w = (o, w') -> Q o (db w').
Proof. intros H Hw E. specialize (H w Hw). rewrite E in H. exact H. Qed.

End Inversion.

Arguments bind_Ok {D A B}.
Arguments bind_assoc {D A B C}.
Arguments query_Ok {D A}.
Arguments exec_Ok {D}.
Arguments time_Now_Ok {D}.
Arguments rand_Intn_Ok {D}.
Arguments guaranteed {D A}.

Section Keys.

Lemma distinct_NoDup l : distinct l = true -> NoDup l.
Proof.
  induction l as [|x t IH]; simpl; intros H; constructor.
  - apply andb_true_iff in H. destruct H as [H _].
    apply negb_true_iff in H. intros Hin.
    assert (Ht : existsb (String.eqb x) t = true).
    { apply existsb_exists. exists x. split; [exact Hin|apply String.eqb_refl]. }
    congruence.
  - apply andb_true_iff in H. tauto.
Qed.

Lemma consistent_users d :
  consistent d = true -> NoDup (map store.UserID (store.users d)).
Proof.
  unfold consistent. intros H. repeat (apply andb_true_iff in H; destruct H as [H ?]).
  apply distinct_NoDup. assumption.
Qed.

Lemma consistent_edges_have_pr d e :
  consistent d = true -> In e (store.pr_reviewers d) ->
  store.has_pr d (store.edge_pr e) = true.
Proof.
  unfold consistent. intros H He.
  apply andb_true_iff in H. destruct H as [_ H].
  rewrite forallb_forall in H. specialize (H e He).
  apply andb_true_iff in H. tauto.
Qed.

Lemma existsb_false_find {A} (f : A -> bool) l :
  existsb f l = false -> find f l = None.
Proof.
  induction l as [|x t IH]; simpl; [reflexivity|].
  destruct (f x); simpl; [discriminate|exact IH].
Qed.

Lemma NoDup_map_filter {A B} (f : A -> B) g l :
  NoDup (map f l) -> NoDup (map f (filter g l)).
Proof.
  induction l as [|x t IH]; simpl; intros H; [constructor|].
  inversion H as [|? ? Hnotin Hnd]; subst.
  destruct (g x); simpl; [constructor|]; auto.
  intros Hin. apply Hnotin. apply in_map_iff in Hin.
  destruct Hin as (y & Hy & Hin). apply filter_In in Hin.
  apply in_map_iff. exists y. tauto.
Qed.

(** No edge of a pull request that is not stored, when foreign keys hold. *)
Lemma no_edges_without_pr d prID :
  (forall e, In e (store.pr_reviewers d) ->
             store.has_pr d (store.edge_pr e) = true) ->
  store.has_pr d prID = false ->
  edge_users d prID = [].
Proof.
  intros Hfk Hpr. unfold edge_users.
  induction (store.pr_reviewers d) as [|e t IH]; simpl; [reflexivity|].
  destruct (store.edge_pr e =? prID)%string eqn:E.
  - apply String.eqb_eq in E. specialize (Hfk e (or_introl eq_refl)).
    congruence.
  - apply IH. intros e' He'. apply Hfk. right. exact He'.
Qed.

End Keys.

(** * The key constraints hold in every reachable state *)

Section KeysHold.

Lemma NoDup_distinct l : NoDup l -> distinct l = true.
Proof.
  induction 1 as [|x t Hnotin Hnd IH]; simpl; [reflexivity|].
  rewrite IH, andb_true_r. apply negb_true_iff.
  destruct (existsb (String.eqb x) t) eqn:E; [|reflexivity].
  apply existsb_exists in E. destruct E as (y & Hy & Hxy).
  apply String.eqb_eq in Hxy. subst y. contradiction.
Qed.

Lemma distinct_edges_iff l :
  distinct_edges l = true <-> NoDup (map edge_key l).
Proof.
  induction l as [|e t IH]; simpl.
  - split; [constructor|reflexivity].
  - rewrite andb_true_iff, negb_true_iff, IH. split.
    + intros [Hfresh Hnd]. constructor; [|exact Hnd]. intros Hin.
      apply in_map_iff in Hin. destruct Hin as (e' & Hk & He').
      assert (Ht : existsb (fun e' => (store.edge_pr e' =? store.edge_pr e)%string
                                      && (store.edge_user e' =? store.edge_user e)%string)
                           t = true).
      { apply existsb_exists. exists e'. split; [exact He'|].
        unfold edge_key in Hk. inversion Hk. rewrite !String.eqb_refl.
        reflexivity. }
      congruence.
    + intros H. inversion H as [|? ? Hnotin Hnd]; subst. split; [|exact Hnd].
      destruct (existsb _ t) eqn:E; [|reflexivity]. exfalso. apply Hnotin.
      apply existsb_exists in E. destruct E as (e' & He' & Hc).
      apply andb_true_iff in Hc. destruct Hc as [H1 H2].
      apply String.eqb_eq in H1. apply String.eqb_eq in H2.
      apply in_map_iff. exists e'. split; [|exact He'].
      unfold edge_key. congruence.
Qed.

Lemma consistent_iff d : consistent d = true <-> keys_hold d.
Proof.
  unfold consistent, keys_hold.
  rewrite !andb_true_iff, distinct_edges_iff, forallb_forall. split.
  - intros [[[Hu Hp] He] Hfk].
    repeat split; try (apply distinct_NoDup; assumption); try assumption;
      specialize (Hfk e H); apply andb_true_iff in Hfk; tauto.
  - intros (Hu & Hp & He & Hfk).
    repeat split; try (apply NoDup_distinct; assumption); try assumption.
    intros e H. apply andb_true_iff. apply Hfk. exact H.
Qed.

Lemma keys_same_rows d d' :
  store.users d' = store.users d ->
  store.pull_requests d' = store.pull_requests d ->
  store.pr_reviewers d' = store.pr_reviewers d ->
  keys_hold d -> keys_hold d'.
Proof.
  intros Hu Hp He. unfold keys_hold, store.has_pr, store.has_user.
  rewrite Hu, Hp, He. auto.
Qed.

Lemma NoDup_snoc {A} (l : list A) x : NoDup l -> ~ In x l -> NoDup (l ++ [x]).
Proof.
  intros Hnd Hx. apply NoDup_app; [exact Hnd|repeat constructor; simpl; tauto|].
  intros y Hy [<-|[]]. contradiction.
Qed.

Lemma updated_ids {A} (key : A -> string) k (upd : A -> A) l :
  (forall x, key (upd x) = key x) ->
  map key (map (fun x => if (key x =? k)%string then upd x else x) l)
  = map key l.
Proof.
  intros Hid. rewrite map_map. apply map_ext. intros x.
  destruct (key x =? k)%string; auto.
Qed.

Lemma has_user_by_ids d d' userID :
  map store.UserID (store.users d') = map store.UserID (store.users d) ->
  store.has_user d' userID = store.has_user d userID.
Proof.
  unfold store.has_user. intros H.
  assert (Hm : forall l, existsb (fun u => (store.UserID u =? userID)%string) l
                         = existsb (fun i => (i =? userID)%string)
                                   (map store.UserID l)).
  { induction l as [|x t IH]; simpl; [reflexivity|]. rewrite IH. reflexivity. }
  rewrite !Hm, H. reflexivity.
Qed.

Lemma has_pr_by_ids d d' prID :
  map store.PullRequestID (store.pull_requests d')
  = map store.PullRequestID (store.pull_requests d) ->
  store.has_pr d' prID = store.has_pr d prID.
Proof.
  unfold store.has_pr. intros H.
  assert (Hm : forall l, existsb (fun p => (store.PullRequestID p =? prID)%string) l
                         = existsb (fun i => (i =? prID)%string)
                                   (map store.PullRequestID l)).
  { induction l as [|x t IH]; simpl; [reflexivity|]. rewrite IH. reflexivity. }
  rewrite !Hm, H. reflexivity.
Qed.

Lemma CreateTeam_keys ctx team : preserves keys_hold (store.CreateTeam ctx team).
Proof.
  unfold store.CreateTeam. keep. apply preserves_exec. intros d d' Hd Hq.
  destruct (negb _) in Hq; [discriminate|].
  destruct (store.has_team _ _) in Hq; [discriminate|].
  inversion Hq; subst. revert Hd. apply keys_same_rows; reflexivity.
Qed.

Lemma CreateOrUpdateUser_keys ctx user :
  preserves keys_hold (store.CreateOrUpdateUser ctx user).
Proof.
  unfold store.CreateOrUpdateUser. keep. apply preserves_exec.
  intros d d' (Hu & Hp & He & Hfk) Hq.
  destruct (negb _) in Hq; [discriminate|].
  destruct (negb _) in Hq; [discriminate|].
  inversion Hq; subst d'; clear Hq. unfold store.upsert_user.
  destruct (existsb _ (store.users d)) eqn:Ex.
  - (* the row exists: its key stays *)
    assert (Hids : map store.UserID
                       (map (fun u => if (store.UserID u =? store.UserID user)%string
                                      then store.mkUser (store.UserID u)
                                             (store.Username user)
                                             (store.IsActive user)
                                             (store.TeamName user)
                                             (store.UserCreatedAt u)
                                      else u) (store.users d))
                   = map store.UserID (store.users d)).
    { apply (updated_ids store.UserID (store.UserID user)
               (fun u => store.mkUser (store.UserID u) (store.Username user)
                           (store.IsActive user) (store.TeamName user)
                           (store.UserCreatedAt u))). reflexivity. }
    split; [|split; [|split]]; cbn [store.users store.pull_requests
                                     store.pr_reviewers].
    + rewrite Hids. exact Hu.
    + exact Hp.
    + exact He.
    + intros e Hin. destruct (Hfk e Hin) as [H1 H2]. split; [exact H1|].
      rewrite <- H2. apply has_user_by_ids. exact Hids.
  - split; [|split; [|split]]; cbn [store.users store.pull_requests
                                     store.pr_reviewers].
    + rewrite map_app. apply NoDup_snoc; [exact Hu|]. simpl. intros Hin.
      apply in_map_iff in Hin. destruct Hin as (u & Hid & Hin).
      assert (Ht : existsb (fun u => (store.UserID u =? store.UserID user)%string)
                           (store.users d) = true).
      { apply existsb_exists. exists u. split; [exact Hin|].
        apply String.eqb_eq. exact Hid. }
      congruence.
    + exact Hp.
    + exact He.
    + intros e Hin. destruct (Hfk e Hin) as [H1 H2]. split; [exact H1|].
      unfold store.has_user in *. cbn [store.users].
      rewrite existsb_app, H2. reflexivity.
Qed.

Lemma UpdateUser_keys ctx user : preserves keys_hold (store.UpdateUser ctx user).
Proof.
  unfold store.UpdateUser. apply preserves_exec.
  intros d d' (Hu & Hp & He & Hfk) Hq.
  destruct (negb _) in Hq; [discriminate|].
  destruct (_ && _) in Hq; [discriminate|].
  inversion Hq; subst d'; clear Hq.
  assert (Hids : map store.UserID
                     (map (fun u => if (store.UserID u =? store.UserID user)%string
                                    then store.mkUser (store.UserID u)
                                           (store.Username user)
                                           (store.IsActive user)
                                           (store.TeamName user)
                                           (store.UserCreatedAt u)
                                    else u) (store.users d))
                 = map store.UserID (store.users d)).
  { apply (updated_ids store.UserID (store.UserID user)
             (fun u => store.mkUser (store.UserID u) (store.Username user)
                         (store.IsActive user) (store.TeamName user)
                         (store.UserCreatedAt u))). reflexivity. }
  split; [|split; [|split]]; cbn [store.users store.pull_requests
                                   store.pr_reviewers].
  - rewrite Hids. exact Hu.
  - exact Hp.
  - exact He.
  - intros e Hin. destruct (Hfk e Hin) as [H1 H2]. split; [exact H1|].
    rewrite <- H2. apply has_user_by_ids. exact Hids.
Qed.

Lemma CreatePR_keys ctx pr : preserves keys_hold (store.CreatePR ctx pr).
Proof.
  unfold store.CreatePR. keep. apply preserves_exec.
  intros d d' (Hu & Hp & He & Hfk) Hq.
  destruct (negb _) in Hq; [discriminate|].
  destruct (store.has_pr d (store.PullRequestID pr)) eqn:Hnew; [discriminate|].
  destruct (negb _) in Hq; [discriminate|].
  inversion Hq; subst d'; clear Hq.
  split; [|split; [|split]]; cbn [store.users store.pull_requests
                                   store.pr_reviewers].
  - exact Hu.
  - rewrite map_app. apply NoDup_snoc; [exact Hp|]. simpl. intros Hin.
    apply in_map_iff in Hin. destruct Hin as (p & Hid & Hin).
    exact (has_pr_false _ _ _ Hnew Hin Hid).
  - exact He.
  - intros e Hin. destruct (Hfk e Hin) as [H1 H2]. split; [|exact H2].
    unfold store.has_pr in *. cbn [store.pull_requests].
    rewrite existsb_app, H1. reflexivity.
Qed.

Lemma UpdatePR_keys ctx pr : preserves keys_hold (store.UpdatePR ctx pr).
Proof.
  unfold store.UpdatePR. apply preserves_exec.
  intros d d' (Hu & Hp & He & Hfk) Hq.
  destruct (negb _) in Hq; [discriminate|].
  inversion Hq; subst d'; clear Hq.
  assert (Hids : map store.PullRequestID
                     (map (fun p => if (store.PullRequestID p
                                        =? store.PullRequestID pr)%string
                                    then store.mkPullRequest
                                           (store.PullRequestID p)
                                           (store.PullRequestName pr)
                                           (store.AuthorID p) (store.Status pr)
                                           (store.CreatedAt p)
                                           (store.MergedAt pr)
                                    else p) (store.pull_requests d))
                 = map store.PullRequestID (store.pull_requests d)).
  { apply (updated_ids store.PullRequestID (store.PullRequestID pr)
             (fun p => store.mkPullRequest (store.PullRequestID p)
                         (store.PullRequestName pr) (store.AuthorID p)
                         (store.Status pr) (store.CreatedAt p)
                         (store.MergedAt pr))). reflexivity. }
  split; [|split; [|split]]; cbn [store.users store.pull_requests
                                   store.pr_reviewers].
  - exact Hu.
  - rewrite Hids. exact Hp.
  - exact He.
  - intros e Hin. destruct (Hfk e Hin) as [H1 H2]. split; [|exact H2].
    rewrite <- H1. apply has_pr_by_ids. exact Hids.
Qed.

Lemma AssignReviewer_keys ctx prID userID :
  preserves keys_hold (store.AssignReviewer ctx prID userID).
Proof.
  unfold store.AssignReviewer. keep. apply preserves_exec.
  intros d d' (Hu & Hp & He & Hfk) Hq.
  destruct (negb _) in Hq; [discriminate|].
  destruct (store.has_edge d prID userID) eqn:Hnew; [discriminate|].
  destruct (store.has_pr d prID) eqn:Hpr; [|discriminate].
  destruct (store.has_user d userID) eqn:Hus; [|discriminate].
  inversion Hq; subst d'; clear Hq.
  split; [|split; [|split]]; cbn [store.users store.pull_requests
                                   store.pr_reviewers].
  - exact Hu.
  - exact Hp.
  - rewrite map_app. apply NoDup_snoc; [exact He|]. simpl. intros Hin.
    apply in_map_iff in Hin. destruct Hin as (e & Hk & Hin).
    unfold edge_key in Hk. inversion Hk.
    assert (Ht : store.has_edge d prID userID = true)
      by (apply has_edge_true; eauto).
    congruence.
  - intros e Hin. apply in_app_or in Hin.
    destruct Hin as [Hin|[<-|[]]]; [exact (Hfk e Hin)|].
    split; assumption.
Qed.

Lemma RemoveReviewer_keys ctx prID userID :
  preserves keys_hold (store.RemoveReviewer ctx prID userID).
Proof.
  unfold store.RemoveReviewer. apply preserves_exec.
  intros d d' (Hu & Hp & He & Hfk) Hq.
  inversion Hq; subst d'; clear Hq.
  split; [|split; [|split]]; cbn [store.users store.pull_requests
                                   store.pr_reviewers].
  - exact Hu.
  - exact Hp.
  - apply NoDup_map_filter. exact He.
  - intros e Hin. apply filter_In in Hin. destruct Hin as [Hin _].
    exact (Hfk e Hin).
Qed.

Lemma every_call_keeps_keys ctx c (w : store.World) :
  keys_hold (db w) -> keys_hold (db (engine.after ctx c w)).
Proof.
  intros H.
  assert (Hup : forall teamName members,
             preserves keys_hold (service.upsert_members ctx teamName members)).
  { intros teamName members. induction members as [|m ms IH]; simpl; keep; auto.
    apply CreateOrUpdateUser_keys. }
  assert (Has : forall prID reviewers,
             preserves keys_hold (service.assign_all ctx prID reviewers)).
  { intros prID reviewers. induction reviewers as [|r rs IH]; simpl; keep; auto.
    apply AssignReviewer_keys. }
  assert (Hwr : forall prs acc,
             preserves keys_hold (service.with_reviewers ctx prs acc)).
  { intros prs. induction prs as [|p ps IH]; intros acc; simpl;
      unfold store.GetPRReviewers; keep. apply IH. }
  assert (Hk : forall A (m : store.M A),
             preserves keys_hold m -> keys_hold (db (snd (m w))))
    by (intros A m Hm; apply (Hm w H)).
  destruct c; simpl; apply Hk.
  - unfold service.CreateOrUpdateTeam, store.GetTeam. keep;
      first [apply CreateTeam_keys | apply Hup].
  - unfold service.GetTeam, store.GetTeam, store.GetTeamMembers. keep.
  - unfold service.SetUserActive, store.GetUser. keep. apply UpdateUser_keys.
  - unfold service.CreatePR, store.GetPR, store.GetUser,
      store.GetActiveTeamMembers.
    keep; first [apply CreatePR_keys | apply Has].
  - unfold service.MergePR, store.GetPR, store.GetPRReviewers. keep.
    apply UpdatePR_keys.
  - unfold service.ReassignReviewer, store.GetPR, store.GetUser,
      store.GetActiveTeamMembers, store.GetPRReviewers.
    keep; first [apply RemoveReviewer_keys | apply AssignReviewer_keys].
  - unfold service.GetUserAssignedPRs, store.GetUserAssignedPRs. keep.
    apply Hwr.
  - unfold service.GetPR, store.GetPR, store.GetPRReviewers. keep.
Qed.

(** Every reachable state passes the executable check [consistent], so
    the properties stated under it cover every state the engine can be
    in. *)
Lemma reachable_consistent w : engine.reachable w -> consistent (db w) = true.
Proof.
  intros H. apply consistent_iff. induction H as [w H|w ctx c H IH].
  - rewrite H.
    split; [apply NoDup_nil|split; [apply NoDup_nil|split]];
      [apply NoDup_nil|intros e []].
  - apply every_call_keeps_keys. exact IH.
Qed.

End KeysHold.

(** * CreatePR *)

Section Create.

Lemma AssignReviewer_Ok ctx prID userID (w w' : store.World) u :
  store.AssignReviewer ctx prID userID w = (Ok u, w') ->
  exists t,
    db w' = store.mkTables (store.teams (db w)) (store.users (db w))
              (store.pull_requests (db w))
              (store.pr_reviewers (db w) ++ [store.mkEdge prID userID t]).
Proof.
  unfold store.AssignReviewer. intros H.
  apply bind_Ok in H. destruct H as (t & w1 & Ht & H).
  apply time_Now_Ok in Ht. apply exec_Ok in H. rewrite Ht in H.
  destruct (negb _) in H; [discriminate|].
  destruct (store.has_edge _ _ _) in H; [discriminate|].
  destruct (negb _) in H; [discriminate|].
  inversion H. eauto.
Qed.

Lemma assign_all_Ok ctx prID reviewers (w w' : store.World) u :
  service.assign_all ctx prID reviewers w = (Ok u, w') ->
  store.pull_requests (db w') = store.pull_requests (db w)
  /\ store.users (db w') = store.users (db w)
  /\ forall id, edge_users (db w') id
                = edge_users (db w) id
                  ++ (if (prID =? id)%string
                      then map store.UserID reviewers else []).
Proof.
  revert w. induction reviewers as [|r rs IH]; intros w H; simpl in H.
  - inversion H; subst. repeat split. intros id.
    destruct (prID =? id)%string; rewrite app_nil_r; reflexivity.
  - apply bind_Ok in H. destruct H as ([] & w1 & H1 & H).
    apply AssignReviewer_Ok in H1. destruct H1 as (t & H1).
    apply IH in H. destruct H as (Hp & Hu & He). rewrite H1 in Hp, Hu.
    repeat split; [exact Hp|exact Hu|]. intros id. rewrite He.
    unfold edge_users at 1. rewrite H1. cbn [store.pr_reviewers].
    rewrite filter_app, map_app. fold (edge_users (db w) id).
    rewrite <- app_assoc. f_equal. cbn [filter store.edge_pr].
    destruct (prID =? id)%string; reflexivity.
Qed.

Lemma store_CreatePR_Ok ctx pr (w w' : store.World) u :
  store.CreatePR ctx pr w = (Ok u, w') ->
  store.has_pr (db w) (store.PullRequestID pr) = false
  /\ exists t,
      db w' = store.mkTables (store.teams (db w)) (store.users (db w))
                (store.pull_requests (db w)
                   ++ [store.mkPullRequest (store.PullRequestID pr)
                         (store.PullRequestName pr) (store.AuthorID pr)
                         (store.Status pr) t None])
                (store.pr_reviewers (db w)).
Proof.
  unfold store.CreatePR. intros H.
  apply bind_Ok in H. destruct H as (t & w1 & Ht & H).
  apply time_Now_Ok in Ht. apply exec_Ok in H. rewrite Ht in H.
  destruct (negb _) in H; [discriminate|].
  destruct (store.has_pr _ _) eqn:Hpr in H; [discriminate|].
  destruct (negb _) in H; [discriminate|].
  inversion H. eauto.
Qed.

(** What a successful [CreatePR] has done. *)
Lemma CreatePR_Ok ctx prID prName authorID (w w' : store.World) r :
  service.CreatePR ctx prID prName authorID w = (Ok r, w') ->
  exists author shuffled t t',
    find (fun u => (store.UserID u =? authorID)%string) (store.users (db w))
    = Some author
    /\ Permutation (team_pool (db w) (store.TeamName author) authorID) shuffled
    /\ service.AssignedReviewers r
       = firstn (Nat.min 2 (length (team_pool (db w) (store.TeamName author)
                                              authorID))) shuffled
    /\ service.PullRequest r
       = store.mkPullRequest prID prName authorID store.PRStatusOpen t None
    /\ store.has_pr (db w) prID = false
    /\ store.pull_requests (db w')
       = store.pull_requests (db w)
           ++ [store.mkPullRequest prID prName authorID store.PRStatusOpen
                                   t' None]
    /\ store.users (db w') = store.users (db w)
    /\ forall id, edge_users (db w') id
                  = edge_users (db w) id
                    ++ (if (prID =? id)%string
                        then map store.UserID (service.AssignedReviewers r)
                        else []).
Proof.
  unfold service.CreatePR. intros H.
  apply bind_Ok in H. destruct H as (existing & w1 & H1 & H).
  apply query_Ok in H1. destruct H1 as [_ E1].
  destruct existing; [discriminate|].
  apply bind_Ok in H. destruct H as (author & w2 & H2 & H).
  apply query_Ok in H2. destruct H2 as [Ha E2]. rewrite E1 in Ha, E2.
  destruct author as [author|]; [|discriminate].
  apply bind_Ok in H. destruct H as (activeMembers & w3 & H3 & H).
  apply query_Ok in H3. destruct H3 as [Hm E3]. rewrite E2 in Hm, E3.
  apply bind_Ok in H. destruct H as (reviewers & w4 & H4 & H).
  apply (guaranteed (eq (db w3)) _ _ _ _ _
           (selection_is_prefix_of_permutation _ _ activeMembers) eq_refl) in H4.
  destruct H4 as [E4 (shuffled & Hperm & Hrev)]. rewrite E3 in E4.
  apply bind_Ok in H. destruct H as (t & w5 & H5 & H).
  apply time_Now_Ok in H5. rewrite <- E4 in H5. cbv zeta in H.
  apply bind_Ok in H. destruct H as ([] & w6 & H6 & H).
  apply store_CreatePR_Ok in H6. destruct H6 as [Hpr (t' & E6)].
  cbn [store.PullRequestID store.PullRequestName store.AuthorID store.Status]
    in Hpr, E6. rewrite H5 in Hpr, E6.
  apply bind_Ok in H. destruct H as ([] & w7 & H7 & H).
  apply assign_all_Ok in H7. destruct H7 as (Hp & Hu & He).
  inversion H; subst r w'. clear H.
  exists author, shuffled, t, t'. cbn [service.AssignedReviewers service.PullRequest].
  rewrite Hm in Hperm, Hrev.
  repeat split; try assumption; try (symmetry; assumption).
  - rewrite Hp, E6. reflexivity.
  - rewrite Hu, E6. reflexivity.
  - intros id. rewrite He. unfold edge_users at 1. rewrite E6. reflexivity.
Qed.

End Create.

(** C1: a successful [CreatePR] assigns reviewers taken from the
    candidate pool (the active users of the author's team other than the
    author), pairwise distinct, [min 2 (pool size)] of them, and the
    assignment edges stored for the new pull request are exactly these
    reviewers; with an empty pool (and arguments the schema accepts) the
    call succeeds, stores the pull request and assigns nobody.  The check
    [consistent] passes in every reachable state ([reachable_consistent]). *)
Theorem CreatePR_selects_reviewers :
  (forall ctx prID prName authorID (w w' : store.World) r,
      consistent (db w) = true ->
      service.CreatePR ctx prID prName authorID w = (Ok r, w') ->
      exists author,
        find (fun u => (store.UserID u =? authorID)%string)
             (store.users (db w)) = Some author
        /\ let pool := team_pool (db w) (store.TeamName author) authorID in
           let reviewers := service.AssignedReviewers r in
           incl reviewers pool
           /\ NoDup (map store.UserID reviewers)
           /\ length reviewers = Nat.min 2 (length pool)
           /\ edge_users (db w') prID = map store.UserID reviewers
           /\ store.has_pr (db w') prID = true)
  /\ (forall prID prName authorID (w : store.World) author,
         consistent (db w) = true ->
         store.has_pr (db w) prID = false ->
         find (fun u => (store.UserID u =? authorID)%string)
              (store.users (db w)) = Some author ->
         team_pool (db w) (store.TeamName author) authorID = [] ->
         store.fits 100 prID = true ->
         store.fits 200 prName = true ->
         store.fits 100 authorID = true ->
         let answer := service.CreatePR Background prID prName authorID w in
         exists pr,
           fst answer = Ok (service.mkPRWithReviewers pr [])
           /\ store.has_pr (db (snd answer)) prID = true
           /\ edge_users (db (snd answer)) prID = []).
Proof.
  assert (Hmain :
    forall ctx prID prName authorID (w w' : store.World) r,
      consistent (db w) = true ->
      service.CreatePR ctx prID prName authorID w = (Ok r, w') ->
      exists author,
        find (fun u => (store.UserID u =? authorID)%string)
             (store.users (db w)) = Some author
        /\ let pool := team_pool (db w) (store.TeamName author) authorID in
           let reviewers := service.AssignedReviewers r in
           incl reviewers pool
           /\ NoDup (map store.UserID reviewers)
           /\ length reviewers = Nat.min 2 (length pool)
           /\ edge_users (db w') prID = map store.UserID reviewers
           /\ store.has_pr (db w') prID = true).
  { intros ctx prID prName authorID w w' r Hc H.
    apply CreatePR_Ok in H.
    destruct H as (author & shuffled & t & t' & Ha & Hperm & Hrev & _ & Hnew
                   & Hprs & _ & Hedges).
    exists author. split; [exact Ha|]. cbv zeta. rewrite Hrev.
    split; [|split; [|split; [|split]]].
    - intros u Hu. apply in_firstn in Hu.
      eapply Permutation_in; [apply Permutation_sym; exact Hperm|exact Hu].
    - rewrite <- firstn_map. apply NoDup_firstn.
      eapply Permutation_NoDup; [apply Permutation_map; exact Hperm|].
      unfold team_pool. apply NoDup_map_filter. apply consistent_users.
      exact Hc.
    - rewrite length_firstn, <- (Permutation_length Hperm).
      apply Nat.min_l. apply Nat.le_min_r.
    - rewrite Hedges, String.eqb_refl, Hrev.
      rewrite (no_edges_without_pr (db w) prID); [reflexivity| |exact Hnew].
      intros e He. apply consistent_edges_have_pr; assumption.
    - unfold store.has_pr. rewrite Hprs, existsb_app. simpl.
      rewrite String.eqb_refl. rewrite orb_true_r. reflexivity. }
  split; [exact Hmain|].
  intros prID prName authorID w author Hc Hnew Ha Hpool H1 H2 H3 answer.
  assert (Hu : store.has_user (db w) authorID = true).
  { apply has_user_true. destruct (find_user_some _ _ _ Ha). eauto. }
  assert (Hok : exists pr w',
             answer = (Ok (service.mkPRWithReviewers pr []), w')).
  { subst answer. unfold service.CreatePR, store.GetPR.
    rewrite query_Background.
    rewrite (existsb_false_find _ _ Hnew).
    unfold store.GetUser. rewrite query_Background. cbn [db count_stmt].
    rewrite Ha. unfold store.GetActiveTeamMembers. rewrite query_Background.
    cbn [db count_stmt].
    change (filter _ (store.users (db w)))
      with (team_pool (db w) (store.TeamName author) authorID).
    rewrite Hpool. cbn [length Nat.ltb Nat.leb]. rewrite ret_bind.
    rewrite time_Now_bind. cbv zeta. unfold store.CreatePR.
    rewrite bind_assoc, time_Now_bind, exec_Background.
    cbn [db count_stmt advance_clock store.PullRequestID
         store.PullRequestName store.AuthorID store.Status].
    rewrite H1, H2, H3, Hnew, Hu. cbn [andb negb service.assign_all].
    rewrite ret_bind. unfold ret. eauto. }
  destruct Hok as (pr & w' & Hans).
  destruct (Hmain Background prID prName authorID w w' _ Hc Hans)
    as (author' & _ & _ & _ & _ & He & Hp).
  exists pr. rewrite Hans. cbn [fst snd]. auto.
Qed.

Lemma CreatePR_selects_reviewers_witness :
  let team members := engine.replay
                        [engine.CreateOrUpdateTeam "backend" members]
                        (engine.fresh 7) in
  let w := team [service.mkTeamMember "A" "alice" true;
                 service.mkTeamMember "B" "bob" true;
                 service.mkTeamMember "C" "carol" false;
                 service.mkTeamMember "D" "dave" true;
                 service.mkTeamMember "E" "erin" true] in
  let alone := team [service.mkTeamMember "A" "alice" true;
                     service.mkTeamMember "C" "carol" false] in
  (exists r, fst (service.CreatePR Background "pr1" "fix" "A" w) = Ok r
             /\ length (service.AssignedReviewers r) = 2
             /\ NoDup (map store.UserID (service.AssignedReviewers r)))
  /\ (exists pr, fst (service.CreatePR Background "pr1" "fix" "A" alone)
                 = Ok (service.mkPRWithReviewers pr [])).
Proof.
  intros team w alone. destruct CreatePR_selects_reviewers as [Hsel Hempty].
  split.
  - destruct (service.CreatePR Background "pr1" "fix" "A" w) as [o w'] eqn:E.
    assert (Ho : exists r, o = Ok r) by (vm_compute in E; inversion E; eauto).
    destruct Ho as [r ->]. exists r. split; [reflexivity|].
    destruct (Hsel Background "pr1" "fix" "A" w w' r eq_refl E)
      as (author & Ha & _ & Hnd & Hlen & _).
    vm_compute in Ha. inversion Ha; subst author. split; [exact Hlen|exact Hnd].
  - destruct (Hempty "pr1" "fix" "A" alone
                (store.mkUser "A" "alice" true "backend" 1001)
                eq_refl eq_refl eq_refl eq_refl eq_refl eq_refl eq_refl)
      as (pr & Hpr & _).
    exists pr. exact Hpr.
Defined.

(** * ReassignReviewer: the success *)

Section Reassign.

(** The edge table after removing the old edge and adding the new one. *)
Lemma has_edge_after_swap d prID oldUserID newUserID t p u :
  store.has_edge
    (store.mkTables (store.teams d) (store.users d) (store.pull_requests d)
       (filter (fun e => negb ((store.edge_pr e =? prID)%string
                               && (store.edge_user e =? oldUserID)%string))
               (store.pr_reviewers d)
          ++ [store.mkEdge prID newUserID t])) p u = true
  <-> (store.has_edge d p u = true /\ ~ (p = prID /\ u = oldUserID))
      \/ (p = prID /\ u = newUserID).
Proof.
  rewrite !has_edge_true. cbn [store.pr_reviewers]. split.
  - intros (e & He & Hp & Hu). apply in_app_or in He.
    destruct He as [He|[<-|[]]]; [left|right; auto].
    apply filter_In in He. destruct He as [He Hc]. split; [eauto|].
    intros [-> ->]. rewrite <- Hp, <- Hu, !String.eqb_refl in Hc. discriminate.
  - intros [[(e & He & Hp & Hu) Hne]|[-> ->]].
    + exists e. split; [|auto]. apply in_or_app. left. apply filter_In.
      split; [exact He|]. apply negb_true_iff. apply andb_false_iff.
      destruct (String.eqb_spec (store.edge_pr e) prID) as [E1|E1]; [|auto].
      destruct (String.eqb_spec (store.edge_user e) oldUserID) as [E2|E2];
        [|auto].
      exfalso. apply Hne. split; congruence.
    + exists (store.mkEdge prID newUserID t). split; [|auto].
      apply in_or_app. right. left. reflexivity.
Qed.

(** What a successful [ReassignReviewer] has done. *)
Lemma ReassignReviewer_Ok ctx prID oldUserID (w w' : store.World) r newID :
  service.ReassignReviewer ctx prID oldUserID w = (Ok (r, newID), w') ->
  exists pr oldReviewer newReviewer t,
    find (fun p => (store.PullRequestID p =? prID)%string)
         (store.pull_requests (db w)) = Some pr
    /\ store.Status pr = store.PRStatusOpen
    /\ store.has_edge (db w) prID oldUserID = true
    /\ find (fun u => (store.UserID u =? oldUserID)%string)
            (store.users (db w)) = Some oldReviewer
    /\ In newReviewer
          (replacement_pool (db w) (store.TeamName oldReviewer)
                            (store.AuthorID pr) prID oldUserID)
    /\ newID = store.UserID newReviewer
    /\ db w'
       = store.mkTables (store.teams (db w)) (store.users (db w))
           (store.pull_requests (db w))
           (filter (fun e => negb ((store.edge_pr e =? prID)%string
                                   && (store.edge_user e =? oldUserID)%string))
                   (store.pr_reviewers (db w))
              ++ [store.mkEdge prID newID t])
    /\ r = service.mkPRWithReviewers pr (store.reviewers_of (db w') prID).
Proof.
  unfold service.ReassignReviewer. intros H.
  apply bind_Ok in H. destruct H as (found & w1 & H1 & H).
  apply query_Ok in H1. destruct H1 as [Hpr E1].
  destruct found as [pr|]; [|discriminate].
  destruct (store.status_eqb _ _) eqn:Hs; [discriminate|].
  apply bind_Ok in H. destruct H as (currentReviewers & w2 & H2 & H).
  apply query_Ok in H2. destruct H2 as [Hcur E2]. rewrite E1 in Hcur, E2.
  destruct (negb _) eqn:Hassigned; [discriminate|].
  apply negb_false_iff in Hassigned. rewrite Hcur in Hassigned.
  apply is_assigned_true in Hassigned. destruct Hassigned as [_ Hedge].
  apply bind_Ok in H. destruct H as (old & w3 & H3 & H).
  apply query_Ok in H3. destruct H3 as [Hold E3]. rewrite E2 in Hold, E3.
  destruct old as [oldReviewer|]; [|discriminate].
  apply bind_Ok in H. destruct H as (activeMembers & w4 & H4 & H).
  apply query_Ok in H4. destruct H4 as [Hact E4]. rewrite E3 in Hact, E4.
  cbv zeta in H.
  assert (Hav : service.available activeMembers currentReviewers oldUserID
                = replacement_pool (db w) (store.TeamName oldReviewer)
                                   (store.AuthorID pr) prID oldUserID).
  { rewrite Hact, Hcur. apply available_is_replacement_pool. }
  rewrite Hav in H.
  destruct (_ =? 0); [discriminate|].
  apply bind_Ok in H. destruct H as (k & w5 & H5 & H).
  apply rand_Intn_Ok in H5. destruct H5 as [_ E5]. rewrite E4 in E5.
  destruct (nth_error _ k) as [newReviewer|] eqn:Hn; [|discriminate].
  apply nth_error_In in Hn.
  apply bind_Ok in H. destruct H as ([] & w6 & H6 & H).
  apply exec_Ok in H6. rewrite E5 in H6. inversion H6 as [E6]. clear H6.
  apply bind_Ok in H. destruct H as ([] & w7 & H7 & H).
  apply AssignReviewer_Ok in H7. destruct H7 as (t & E7).
  rewrite <- E6 in E7. cbn [store.teams store.users store.pull_requests
                            store.pr_reviewers] in E7.
  apply bind_Ok in H. destruct H as (updated & w8 & H8 & H).
  apply query_Ok in H8. destruct H8 as [Hupd E8].
  inversion H; subst r newID w'. clear H.
  exists pr, oldReviewer, newReviewer, t.
  assert (Hopen : store.Status pr = store.PRStatusOpen)
    by (destruct (store.Status pr); [reflexivity|discriminate]).
  rewrite E8, E7. rewrite Hupd, E7. auto 10.
Qed.

End Reassign.

(** C2: a successful reassignment picks the new reviewer from the pool
    of the specification (an active member of the old reviewer's team,
    not the author, not currently assigned, not the old reviewer); it
    removes the old reviewer's edge, adds the new reviewer's edge and
    touches no other edge or table; and it answers the pull request with
    the reviewers as stored after the change, together with the new
    reviewer's id. *)
Theorem ReassignReviewer_replaces ctx prID oldUserID (w w' : store.World)
        r newID :
  service.ReassignReviewer ctx prID oldUserID w = (Ok (r, newID), w') ->
  exists pr oldReviewer newReviewer,
    find (fun p => (store.PullRequestID p =? prID)%string)
         (store.pull_requests (db w)) = Some pr
    /\ find (fun u => (store.UserID u =? oldUserID)%string)
            (store.users (db w)) = Some oldReviewer
    /\ store.has_edge (db w) prID oldUserID = true
    (* where the new reviewer comes from *)
    /\ In newReviewer
          (replacement_pool (db w) (store.TeamName oldReviewer)
                            (store.AuthorID pr) prID oldUserID)
    /\ In newReviewer (store.users (db w))
    /\ store.TeamName newReviewer = store.TeamName oldReviewer
    /\ store.IsActive newReviewer = true
    /\ store.UserID newReviewer <> store.AuthorID pr
    /\ store.has_edge (db w) prID (store.UserID newReviewer) = false
    /\ store.UserID newReviewer <> oldUserID
    (* what is written *)
    /\ store.has_edge (db w') prID oldUserID = false
    /\ store.has_edge (db w') prID newID = true
    /\ (forall p u, ~ (p = prID /\ (u = oldUserID \/ u = newID)) ->
                    store.has_edge (db w') p u = store.has_edge (db w) p u)
    /\ store.teams (db w') = store.teams (db w)
    /\ store.users (db w') = store.users (db w)
    /\ store.pull_requests (db w') = store.pull_requests (db w)
    (* what is answered *)
    /\ newID = store.UserID newReviewer
    /\ service.PullRequest r = pr
    /\ service.AssignedReviewers r = store.reviewers_of (db w') prID
    /\ In newReviewer (service.AssignedReviewers r)
    /\ ~ In oldUserID (map store.UserID (service.AssignedReviewers r)).
Proof.
  intros H. apply ReassignReviewer_Ok in H.
  destruct H as (pr & oldReviewer & newReviewer & t & Hpr & _ & Hedge & Hold
                 & Hpool & -> & Hdb & ->).
  exists pr, oldReviewer, newReviewer.
  pose proof Hpool as Hin. unfold replacement_pool in Hin.
  apply filter_In in Hin. destruct Hin as [Hu Hc].
  repeat (apply andb_true_iff in Hc; destruct Hc as [Hc ?]).
  apply String.eqb_eq in Hc.
  repeat match goal with
         | H : negb _ = true |- _ => apply negb_true_iff in H
         | H : (_ =? _)%string = false |- _ => apply String.eqb_neq in H
         end.
  assert (Hgone : store.has_edge (db w') prID oldUserID = false).
  { destruct (store.has_edge (db w') prID oldUserID) eqn:E; [|reflexivity].
    rewrite Hdb in E. apply has_edge_after_swap in E.
    destruct E as [[_ E]|[_ E]]; [exfalso; apply E; auto|congruence]. }
  assert (Hnew : store.has_edge (db w') prID (store.UserID newReviewer) = true).
  { rewrite Hdb. apply has_edge_after_swap. right. auto. }
  assert (Hrest : forall p u,
             ~ (p = prID /\ (u = oldUserID \/ u = store.UserID newReviewer)) ->
             store.has_edge (db w') p u = store.has_edge (db w) p u).
  { intros p u Hne. rewrite Hdb.
    destruct (store.has_edge (db w) p u) eqn:E.
    - apply has_edge_after_swap. left. split; [exact E|tauto].
    - match goal with |- ?b = false => destruct b eqn:E' end; [|reflexivity].
      apply has_edge_after_swap in E'. destruct E' as [[E' _]|E']; [congruence|].
      exfalso. apply Hne. tauto. }
  assert (Husers : store.users (db w') = store.users (db w))
    by (rewrite Hdb; reflexivity).
  cbn [service.PullRequest service.AssignedReviewers].
  repeat match goal with |- _ /\ _ => split end; auto.
  - rewrite Hdb. reflexivity.
  - rewrite Hdb. reflexivity.
  - apply in_reviewers_of. rewrite Husers. auto.
  - intros Hin. apply in_map_iff in Hin. destruct Hin as (x & Hx & Hin).
    apply in_reviewers_of in Hin. destruct Hin as [_ Hin].
    rewrite Hx in Hin. congruence.
Qed.

Lemma ReassignReviewer_replaces_witness :
  let w := engine.replay
             [engine.CreateOrUpdateTeam "backend"
                [service.mkTeamMember "A" "alice" true;
                 service.mkTeamMember "B" "bob" true;
                 service.mkTeamMember "C" "carol" true;
                 service.mkTeamMember "D" "dave" true];
              engine.CreatePR "pr1" "fix" "A"]
             (engine.fresh 0) in
  let answer := service.ReassignReviewer Background "pr1" "C" w in
  exists r newID,
    fst answer = Ok (r, newID)
    /\ store.has_edge (db (snd answer)) "pr1" "C" = false
    /\ store.has_edge (db (snd answer)) "pr1" newID = true.
Proof.
  intros w answer.
  destruct answer as [o w'] eqn:E.
  assert (Ho : exists r newID, o = Ok (r, newID)).
  { subst answer. vm_compute in E. inversion E. eauto. }
  destruct Ho as (r & newID & ->). exists r, newID. cbn [fst snd].
  destruct (ReassignReviewer_replaces Background "pr1" "C" w w' r newID E)
    as (pr & o & n & H).
  split; [reflexivity|]. tauto.
Defined.

(** * GetUserAssignedPRs *)

Section AssignedPRs.

Lemma in_assigned_prs d userID p :
  In p (store.assigned_prs d userID) <->
  In p (store.pull_requests d)
  /\ store.has_edge d (store.PullRequestID p) userID = true.
Proof.
  unfold store.assigned_prs. rewrite in_flat_map. split.
  - intros (p0 & Hp0 & Hp). apply in_map_iff in Hp.
    destruct Hp as (e & -> & He). apply filter_In in He.
    destruct He as [He Hc]. apply andb_true_iff in Hc. destruct Hc as [H1 H2].
    apply String.eqb_eq in H1. apply String.eqb_eq in H2.
    split; [assumption|]. apply has_edge_true. eauto.
  - intros [Hp He]. apply has_edge_true in He.
    destruct He as (e & Hin & H1 & H2). exists p. split; [assumption|].
    apply in_map_iff. exists e. split; [reflexivity|].
    apply filter_In. split; [assumption|].
    apply andb_true_iff. split; apply String.eqb_eq; congruence.
Qed.

(** With the primary key of [pr_reviewers] in force, an edge is matched
    at most once. *)
Lemma one_edge_per_key (A : Type) (x : A) prID userID l :
  distinct_edges l = true ->
  map (fun _ => x)
      (filter (fun e => (prID =? store.edge_pr e)%string
                        && (store.edge_user e =? userID)%string) l)
  = if existsb (fun e => (store.edge_pr e =? prID)%string
                         && (store.edge_user e =? userID)%string) l
    then [x] else [].
Proof.
  induction l as [|e t IH]; simpl; [reflexivity|]. intros H.
  apply andb_true_iff in H. destruct H as [Hfresh Hd].
  apply negb_true_iff in Hfresh. specialize (IH Hd).
  rewrite (String.eqb_sym prID (store.edge_pr e)).
  destruct ((store.edge_pr e =? prID)%string
            && (store.edge_user e =? userID)%string) eqn:E; simpl.
  - rewrite IH. apply andb_true_iff in E. destruct E as [E1 E2].
    apply String.eqb_eq in E1. apply String.eqb_eq in E2. subst.
    rewrite Hfresh. reflexivity.
  - exact IH.
Qed.

Lemma assigned_prs_filter d userID :
  consistent d = true ->
  store.assigned_prs d userID
  = filter (fun p => store.has_edge d (store.PullRequestID p) userID)
           (store.pull_requests d).
Proof.
  intros Hc. unfold consistent in Hc.
  apply andb_true_iff in Hc. destruct Hc as [Hc _].
  apply andb_true_iff in Hc. destruct Hc as [_ Hd].
  unfold store.assigned_prs, store.has_edge.
  induction (store.pull_requests d) as [|p t IH]; simpl; [reflexivity|].
  rewrite IH, (one_edge_per_key _ p _ _ _ Hd).
  destruct (existsb _ (store.pr_reviewers d)); reflexivity.
Qed.

Lemma consistent_edges_have_user d e :
  consistent d = true -> In e (store.pr_reviewers d) ->
  store.has_user d (store.edge_user e) = true.
Proof.
  unfold consistent. intros H He.
  apply andb_true_iff in H. destruct H as [_ H].
  rewrite forallb_forall in H. specialize (H e He).
  apply andb_true_iff in H. tauto.
Qed.

Lemma with_reviewers_Background prs acc (w : store.World) :
  exists w',
    service.with_reviewers Background prs acc w
    = (Ok (acc ++ map (fun p => service.mkPRWithReviewers p
                                  (store.reviewers_of (db w)
                                                      (store.PullRequestID p)))
                      prs), w')
    /\ db w' = db w.
Proof.
  revert acc w. induction prs as [|p ps IH]; intros acc w; simpl.
  - exists w. rewrite app_nil_r. split; reflexivity.
  - unfold store.GetPRReviewers. rewrite query_Background.
    destruct (IH (acc ++ [service.mkPRWithReviewers p
                            (store.reviewers_of (db w) (store.PullRequestID p))])
                 (count_stmt w)) as (w' & E & Hdb).
    exists w'. rewrite E. cbn [db count_stmt] in *.
    rewrite <- app_assoc. split; [reflexivity|exact Hdb].
Qed.

Lemma GetUserAssignedPRs_Background userID (w : store.World) :
  exists w',
    service.GetUserAssignedPRs Background userID w
    = (Ok (map (fun p => service.mkPRWithReviewers p
                           (store.reviewers_of (db w) (store.PullRequestID p)))
               (store.assigned_prs (db w) userID)), w')
    /\ db w' = db w.
Proof.
  unfold service.GetUserAssignedPRs, store.GetUserAssignedPRs.
  rewrite query_Background.
  destruct (with_reviewers_Background (store.assigned_prs (db w) userID) []
                                      (count_stmt w)) as (w' & E & Hdb).
  exists w'. cbn [db count_stmt] in *. rewrite E. split; [reflexivity|exact Hdb].
Qed.

Lemma with_reviewers_errors ctx prs acc :
  guarantees (fun _ : store.Tables => True) (service.with_reviewers ctx prs acc)
    (fun o _ => match o with
                | Ok _ => True
                | Err e => e = ErrSQL ContextCanceled
                | Panic => False
                end).
Proof.
  revert acc. induction prs as [|p ps IH]; intros acc; simpl.
  - apply guarantees_ret. auto.
  - unfold store.GetPRReviewers. apply bind_query; [simpl; auto|].
    intros revs.
    eapply guarantees_weaken; [apply IH|simpl; auto|simpl; auto].
Qed.

End AssignedPRs.

(** C9: under a live context [GetUserAssignedPRs] answers, without error
    and without writing, the pull requests on which the user holds an
    assignment edge, each with the reviewers stored for it: as a set in
    any store, and as the list of those pull requests in table order,
    each once, when the keys of the schema hold.  A user without edges
    gets the empty list, and so does a user id with no row.  Under any
    context the call never panics, and the only error it can report is
    the cancellation of its context.  The check [consistent] passes in
    every reachable state ([reachable_consistent]). *)
Theorem GetUserAssignedPRs_lists_assignments :
  (forall (w : store.World) userID,
      let answer := service.GetUserAssignedPRs Background userID w in
      exists result,
        fst answer = Ok result
        /\ db (snd answer) = db w
        /\ (forall x, In x result <->
                      exists p,
                        In p (store.pull_requests (db w))
                        /\ store.has_edge (db w) (store.PullRequestID p) userID
                           = true
                        /\ x = service.mkPRWithReviewers p
                                 (store.reviewers_of (db w)
                                                     (store.PullRequestID p)))
        /\ (consistent (db w) = true ->
            result
            = map (fun p => service.mkPRWithReviewers p
                              (store.reviewers_of (db w)
                                                  (store.PullRequestID p)))
                  (filter (fun p => store.has_edge (db w)
                                      (store.PullRequestID p) userID)
                          (store.pull_requests (db w))))
        /\ ((forall prID, store.has_edge (db w) prID userID = false) ->
            result = [])
        /\ (consistent (db w) = true ->
            store.has_user (db w) userID = false -> result = []))
  /\ (forall ctx (w : store.World) userID,
         match fst (service.GetUserAssignedPRs ctx userID w) with
         | Ok _ => True
         | Err e => e = ErrSQL ContextCanceled
         | Panic => False
         end).
Proof.
  split.
  - intros w userID answer. subst answer.
    destruct (GetUserAssignedPRs_Background userID w) as (w' & E & Hdb).
    rewrite E. cbn [fst snd]. eexists. split; [reflexivity|].
    split; [exact Hdb|].
    assert (Hnone : (forall prID, store.has_edge (db w) prID userID = false) ->
                    store.assigned_prs (db w) userID = []).
    { intros Hno. destruct (store.assigned_prs (db w) userID) as [|p l] eqn:El;
        [reflexivity|].
      assert (Hp : In p (store.assigned_prs (db w) userID))
        by (rewrite El; left; reflexivity).
      apply in_assigned_prs in Hp. destruct Hp as [_ Hp].
      rewrite Hno in Hp. discriminate. }
    split; [|split; [|split]].
    + intros x. rewrite in_map_iff. split.
      * intros (p & <- & Hp). apply in_assigned_prs in Hp.
        exists p. tauto.
      * intros (p & Hp & He & ->). exists p. split; [reflexivity|].
        apply in_assigned_prs. tauto.
    + intros Hc. rewrite (assigned_prs_filter _ _ Hc). reflexivity.
    + intros Hno. rewrite (Hnone Hno). reflexivity.
    + intros Hc Hu. rewrite Hnone; [reflexivity|]. intros prID.
      destruct (store.has_edge (db w) prID userID) eqn:He; [|reflexivity].
      apply has_edge_true in He. destruct He as (e & He & _ & Heu).
      pose proof (consistent_edges_have_user _ _ Hc He) as Hx.
      rewrite Heu in Hx. congruence.
  - intros ctx w userID.
    assert (Hg : guarantees (fun _ : store.Tables => True)
                   (service.GetUserAssignedPRs ctx userID)
                   (fun o _ => match o with
                               | Ok _ => True
                               | Err e => e = ErrSQL ContextCanceled
                               | Panic => False
                               end)).
    { unfold service.GetUserAssignedPRs, store.GetUserAssignedPRs.
      apply bind_query; [simpl; auto|]. intros prs.
      eapply guarantees_weaken;
        [apply with_reviewers_errors|simpl; auto|simpl; auto]. }
    apply (Hg w I).
Qed.

Lemma GetUserAssignedPRs_lists_assignments_witness :
  let w0 := engine.replay
              [engine.CreateOrUpdateTeam "backend"
                 [service.mkTeamMember "A" "alice" true;
                  service.mkTeamMember "B" "bob" true;
                  service.mkTeamMember "C" "carol" false]]
              (engine.fresh 0) in
  let w := engine.replay
             [engine.CreatePR "pr1" "fix" "A";
              engine.CreatePR "pr2" "feature" "A"] w0 in
  (exists result,
      fst (service.GetUserAssignedPRs Background "B" w) = Ok result
      /\ map (fun x => store.PullRequestID (service.PullRequest x)) result
         = ["pr1"; "pr2"])
  /\ fst (service.GetUserAssignedPRs Background "C" w0) = Ok []
  /\ fst (service.GetUserAssignedPRs Background "nobody" w) = Ok [].
Proof.
  intros w0 w. destruct GetUserAssignedPRs_lists_assignments as [H _].
  assert (Hc : consistent (db w) = true) by (vm_compute; reflexivity).
  split; [|split].
  - destruct (H w "B") as (result & Hr & _ & _ & Hlist & _).
    exists result. split; [exact Hr|]. rewrite (Hlist Hc).
    vm_compute. reflexivity.
  - destruct (H w0 "C") as (result & Hr & _ & _ & _ & Hnone & _).
    rewrite Hr, Hnone; [reflexivity|]. intros prID. vm_compute. reflexivity.
  - destruct (H w "nobody") as (result & Hr & _ & _ & _ & _ & Hunknown).
    rewrite Hr, (Hunknown Hc); [reflexivity|]. vm_compute. reflexivity.
Defined.

(** * Failures and what they leave behind *)

Section Quiet.

Variable D : Type.

Lemma driver_only_ret {A} (a : A) : driver_errors_only (@ret D A a).
Proof. apply guarantees_ret. simpl. auto. Qed.

Lemma driver_only_panic {A} : driver_errors_only (@panic D A).
Proof. apply guarantees_panic. simpl. auto. Qed.

Lemma driver_only_query {A} ctx (q : D -> A) : driver_errors_only (query ctx q).
Proof. apply guarantees_query; simpl; auto. Qed.

Lemma driver_only_exec ctx (q : D -> SQLError + D) :
  driver_errors_only (exec ctx q).
Proof. apply guarantees_exec; simpl; auto. Qed.

Lemma driver_only_time_Now : driver_errors_only (@time_Now D).
Proof. apply guarantees_time_Now; simpl; auto. Qed.

Lemma driver_only_bind {A B} (m : runtime.M D A) (k : A -> runtime.M D B) :
  driver_errors_only m -> (forall a, driver_errors_only (k a)) ->
  driver_errors_only (bind m k).
Proof.
  intros Hm Hk. eapply guarantees_seq; [exact Hm|simpl; auto..|].
  intros a. eapply guarantees_weaken; [apply (Hk a)|auto|auto].
Qed.

Variable d0 : D.

Lemma reads_only_ret {A} (a : A) : reads_only d0 (ret a).
Proof. apply guarantees_ret. simpl. auto. Qed.

Lemma reads_only_panic {A} : reads_only d0 (@panic D A).
Proof. apply guarantees_panic. simpl. auto. Qed.

Lemma reads_only_query {A} ctx (q : D -> A) : reads_only d0 (query ctx q).
Proof. apply guarantees_query; simpl; auto. Qed.

Lemma reads_only_time_Now : reads_only d0 (@time_Now D).
Proof. apply guarantees_time_Now; simpl; auto. Qed.

Lemma reads_only_Intn n : reads_only d0 (@rand_Intn D n).
Proof. apply guarantees_Intn; simpl; auto. Qed.

Lemma reads_only_bind {A B} (m : runtime.M D A) (k : A -> runtime.M D B) :
  reads_only d0 m -> (forall a, reads_only d0 (k a)) -> reads_only d0 (bind m k).
Proof.
  intros Hm Hk. eapply guarantees_seq; [exact Hm|simpl; auto..|].
  intros a. eapply guarantees_weaken; [apply (Hk a)|simpl; tauto|auto].
Qed.

Lemma reads_only_Shuffle {T} n (swap : nat -> nat -> T -> option T) s :
  reads_only d0 (@rand_Shuffle D T n swap s).
Proof.
  unfold rand_Shuffle. generalize (n - 1) as i. intros i. revert s.
  induction i as [|i IH]; intros s; simpl.
  - apply reads_only_ret.
  - apply reads_only_bind; [apply reads_only_Intn|]. intros j.
    destruct (swap (S i) j s); [apply IH|apply reads_only_panic].
Qed.

(** A reading step in front of a call: it hands the tables on as they
    were, so any guarantee that tolerates a driver error or a panic on
    untouched tables carries over. *)
Lemma after_reading {A B} (m : runtime.M D A) (k : A -> runtime.M D B)
      (Q : outcome B -> D -> Prop) :
  (forall e, sentinel e = false -> Q (Err e) d0) ->
  Q Panic d0 ->
  reads_only d0 m ->
  (forall a, guarantees (fun d => d = d0) (k a) Q) ->
  guarantees (fun d => d = d0) (bind m k) Q.
Proof.
  intros He Hp Hm Hk. eapply guarantees_seq; [exact Hm| | |].
  - simpl. intros e d [-> Hs]. auto.
  - simpl. intros d [-> _]. exact Hp.
  - intros a. eapply guarantees_weaken; [apply (Hk a)|simpl; tauto|auto].
Qed.

Lemma after_reading_try {A B} (m : runtime.M D A) (k : A -> runtime.M D B) h
      (Q : outcome B -> D -> Prop) :
  Q Panic d0 ->
  reads_only d0 m ->
  (forall a, guarantees (fun d => d = d0) (k a) Q) ->
  (forall e, guarantees (fun d => d = d0) (h e) Q) ->
  guarantees (fun d => d = d0) (try m k h) Q.
Proof.
  intros Hp Hm Hk Hh.
  apply guarantees_try with (R := fun _ d => d = d0) (E := fun _ d => d = d0).
  - eapply guarantees_weaken; [exact Hm|auto|].
    intros [a|e|] d; simpl; intros [-> _]; auto.
  - exact Hk.
  - exact Hh.
Qed.

(** Once a call can only fail with driver errors, the engine's own
    errors are out of the picture. *)
Lemma no_refusal_left {A} (P : D -> Prop) (m : runtime.M D A) :
  driver_errors_only m -> guarantees P m (untouched_on_refusal d0).
Proof.
  intros H. eapply guarantees_weaken; [exact H|simpl; auto|].
  intros [a|e|] d; simpl; auto. intros H1 H2. congruence.
Qed.

End Quiet.

Arguments driver_only_ret {D A}.
Arguments driver_only_panic {D A}.
Arguments driver_only_query {D A}.
Arguments driver_only_exec {D}.
Arguments driver_only_time_Now {D}.
Arguments driver_only_bind {D A B}.
Arguments reads_only_ret {D}.
Arguments reads_only_panic {D}.
Arguments reads_only_query {D}.
Arguments reads_only_time_Now {D}.
Arguments reads_only_Intn {D}.
Arguments reads_only_bind {D}.
Arguments reads_only_Shuffle {D}.
Arguments after_reading {D}.
Arguments after_reading_try {D}.
Arguments no_refusal_left {D}.

Ltac drivers :=
  repeat match goal with
    | |- driver_errors_only (ret _) => apply driver_only_ret
    | |- driver_errors_only panic => apply driver_only_panic
    | |- driver_errors_only (query _ _) => apply driver_only_query
    | |- driver_errors_only (exec _ _) => apply driver_only_exec
    | |- driver_errors_only time_Now => apply driver_only_time_Now
    | |- driver_errors_only (bind _ _) => apply driver_only_bind; [|intro]
    | |- driver_errors_only (let _ := _ in _) => cbv zeta
    | |- driver_errors_only (match ?x with _ => _ end) => destruct x
    end.

Ltac reads :=
  repeat match goal with
    | |- reads_only _ (ret _) => apply reads_only_ret
    | |- reads_only _ panic => apply reads_only_panic
    | |- reads_only _ (query _ _) => apply reads_only_query
    | |- reads_only _ time_Now => apply reads_only_time_Now
    | |- reads_only _ (rand_Intn _) => apply reads_only_Intn
    | |- reads_only _ (rand_Shuffle _ _ _) => apply reads_only_Shuffle
    | |- reads_only _ (bind _ _) => apply reads_only_bind; [|intro]
    | |- reads_only _ (let _ := _ in _) => cbv zeta
    | |- reads_only _ (match ?x with _ => _ end) => destruct x
    end.

(** Walks through the reading head of a call for the guarantee
    [untouched_on_refusal]; stops at the first writing statement. *)
Ltac refusals :=
  repeat match goal with
    | |- guarantees _ (fail _) (untouched_on_refusal _) =>
        apply guarantees_fail; simpl; intros ? -> _; reflexivity
    | |- guarantees _ (ret _) (untouched_on_refusal _) =>
        apply guarantees_ret; simpl; auto
    | |- guarantees _ panic (untouched_on_refusal _) =>
        apply guarantees_panic; simpl; auto
    | |- guarantees _ (bind (query _ _) _) (untouched_on_refusal _) =>
        apply after_reading;
        [simpl; intros; congruence|simpl; auto|apply reads_only_query|intro]
    | |- guarantees _ (bind time_Now _) (untouched_on_refusal _) =>
        apply after_reading;
        [simpl; intros; congruence|simpl; auto|apply reads_only_time_Now|intro]
    | |- guarantees _ (bind (rand_Intn _) _) (untouched_on_refusal _) =>
        apply after_reading;
        [simpl; intros; congruence|simpl; auto|apply reads_only_Intn|intro]
    | |- guarantees _ (let _ := _ in _) _ => cbv zeta
    | |- guarantees _ (match ?x with _ => _ end) (untouched_on_refusal _) =>
        destruct x
    end.

Section Refusals.

Lemma assign_all_driver_only ctx prID reviewers :
  driver_errors_only (service.assign_all ctx prID reviewers).
Proof.
  induction reviewers as [|r rs IH]; simpl; [drivers|].
  unfold store.AssignReviewer. drivers. exact IH.
Qed.

Lemma upsert_members_driver_only ctx teamName members :
  driver_errors_only (service.upsert_members ctx teamName members).
Proof.
  induction members as [|m ms IH]; simpl; [drivers|].
  unfold store.CreateOrUpdateUser. drivers. exact IH.
Qed.

Lemma with_reviewers_reads_only d0 ctx prs acc :
  reads_only d0 (service.with_reviewers ctx prs acc).
Proof.
  revert acc. induction prs as [|p ps IH]; intros acc; simpl;
    unfold store.GetPRReviewers; reads. apply IH.
Qed.

Variable d0 : store.Tables.

Let start := fun d : store.Tables => d = d0.

Lemma CreateOrUpdateTeam_refusal ctx teamName members :
  guarantees start (service.CreateOrUpdateTeam ctx teamName members)
             (untouched_on_refusal d0).
Proof.
  unfold service.CreateOrUpdateTeam, start. cbv zeta.
  assert (Hcreate :
            guarantees (fun d => d = d0)
              (store.CreateTeam ctx (store.mkTeam teamName 0) ;;;
               service.upsert_members ctx teamName members ;;;
               ret (store.mkTeam teamName 0))
              (untouched_on_refusal d0)).
  { apply no_refusal_left. unfold store.CreateTeam. drivers.
    apply upsert_members_driver_only. }
  apply after_reading_try; [simpl; auto| | |].
  - unfold store.GetTeam. apply reads_only_query.
  - intros [existing|]; [|exact Hcreate]. refusals.
  - intros e. exact Hcreate.
Qed.

Lemma GetTeam_refusal ctx teamName :
  guarantees start (service.GetTeam ctx teamName) (untouched_on_refusal d0).
Proof.
  unfold service.GetTeam, store.GetTeam, store.GetTeamMembers, start. refusals.
Qed.

Lemma SetUserActive_refusal ctx userID isActive :
  guarantees start (service.SetUserActive ctx userID isActive)
             (untouched_on_refusal d0).
Proof.
  unfold service.SetUserActive, store.GetUser, start. refusals.
  apply no_refusal_left. unfold store.UpdateUser. drivers.
Qed.

Lemma CreatePR_refusal ctx prID prName authorID :
  guarantees start (service.CreatePR ctx prID prName authorID)
             (untouched_on_refusal d0).
Proof.
  unfold service.CreatePR, store.GetPR, store.GetUser,
    store.GetActiveTeamMembers, start.
  refusals.
  apply after_reading; [simpl; intros; congruence|simpl; auto| |intro].
  - match goal with |- reads_only _ (if ?c then _ else _) => destruct c end;
      reads.
  - refusals. apply no_refusal_left. unfold store.CreatePR. drivers.
    apply assign_all_driver_only.
Qed.

Lemma MergePR_refusal ctx prID :
  guarantees start (service.MergePR ctx prID) (untouched_on_refusal d0).
Proof.
  unfold service.MergePR, store.GetPR, store.GetPRReviewers, start. refusals.
  apply no_refusal_left. unfold store.UpdatePR. drivers.
Qed.

Lemma ReassignReviewer_refusal ctx prID oldUserID :
  guarantees start (service.ReassignReviewer ctx prID oldUserID)
             (untouched_on_refusal d0).
Proof.
  unfold service.ReassignReviewer, store.GetPR, store.GetUser,
    store.GetActiveTeamMembers, start.
  unfold store.GetPRReviewers at 1. refusals.
  apply no_refusal_left.
  unfold store.RemoveReviewer, store.AssignReviewer, store.GetPRReviewers.
  drivers.
Qed.

Lemma GetUserAssignedPRs_refusal ctx userID :
  guarantees start (service.GetUserAssignedPRs ctx userID)
             (untouched_on_refusal d0).
Proof.
  unfold service.GetUserAssignedPRs, store.GetUserAssignedPRs, start. refusals.
  eapply guarantees_weaken; [apply (with_reviewers_reads_only d0)|auto|].
  intros [result|e|] d; simpl; tauto.
Qed.

Lemma GetPR_refusal ctx prID :
  guarantees start (service.GetPR ctx prID) (untouched_on_refusal d0).
Proof.
  unfold service.GetPR, store.GetPR, store.GetPRReviewers, start. refusals.
Qed.

End Refusals.

Section PartialCommit.

Lemma in_edge_users d prID userID :
  In userID (edge_users d prID) <-> store.has_edge d prID userID = true.
Proof.
  unfold edge_users. rewrite in_map_iff, has_edge_true. split.
  - intros (e & Hu & He). apply filter_In in He. destruct He as [He Hp].
    apply String.eqb_eq in Hp. eauto.
  - intros (e & He & Hp & Hu). exists e. split; [exact Hu|].
    apply filter_In. split; [exact He|]. apply String.eqb_eq. exact Hp.
Qed.

Variable d0 : store.Tables.

Lemma store_CreatePR_commit ctx pr :
  guarantees (fun d => d = d0) (store.CreatePR ctx pr)
    (fun o d' =>
       match o with
       | Ok _ => store.has_pr d' (store.PullRequestID pr) = true
                 /\ store.has_pr d0 (store.PullRequestID pr) = false
       | _ => d' = d0
       end).
Proof.
  unfold store.CreatePR. apply bind_time_Now. intros now.
  apply guarantees_exec; auto. intros d d' -> Hq.
  destruct (negb _) in Hq; [discriminate|].
  destruct (store.has_pr d0 (store.PullRequestID pr)) eqn:Hpr; [discriminate|].
  destruct (negb _) in Hq; [discriminate|].
  inversion Hq; subst. split; [|reflexivity].
  unfold store.has_pr. cbn [store.pull_requests store.PullRequestID].
  rewrite existsb_app. simpl. rewrite String.eqb_refl, orb_true_r. reflexivity.
Qed.

Lemma assign_all_keeps_pr ctx prID reviewers :
  guarantees (fun d => store.has_pr d prID = true)
    (service.assign_all ctx prID reviewers)
    (fun o d => store.has_pr d prID = true
                /\ match o with
                   | Err e => sentinel e = false
                   | _ => True
                   end).
Proof.
  intros w Hw. split.
  - apply (assign_all_keeps
             (fun l => existsb (fun p => (store.PullRequestID p =? prID)%string)
                               l = true) ctx prID reviewers w Hw).
  - apply (assign_all_driver_only ctx prID reviewers w I).
Qed.

(** What a failing [CreatePR] leaves: the tables as they were, or else,
    after a driver error in the assignment loop, the new pull request. *)
Lemma CreatePR_failure ctx prID prName authorID :
  guarantees (fun d => d = d0) (service.CreatePR ctx prID prName authorID)
    (fun o d' =>
       match o with
       | Err e => d' = d0
                  \/ (sentinel e = false
                      /\ store.has_pr d0 prID = false
                      /\ store.has_pr d' prID = true)
       | _ => True
       end).
Proof.
  unfold service.CreatePR, store.GetPR, store.GetUser,
    store.GetActiveTeamMembers.
  apply after_reading; [simpl; auto|simpl; auto|apply reads_only_query|].
  intros [existing|]; [apply guarantees_fail; simpl; auto|].
  apply after_reading; [simpl; auto|simpl; auto|apply reads_only_query|].
  intros [author|]; [|apply guarantees_fail; simpl; auto].
  apply after_reading; [simpl; auto|simpl; auto|apply reads_only_query|].
  intros activeMembers.
  apply after_reading; [simpl; auto|simpl; auto| |].
  { destruct (0 <? length activeMembers); reads. }
  intros reviewers.
  apply after_reading; [simpl; auto|simpl; auto|apply reads_only_time_Now|].
  intros now. cbv zeta.
  eapply guarantees_seq; [apply store_CreatePR_commit|simpl; auto..|].
  intros []. cbn [store.PullRequestID].
  apply guarantees_pure. intros Hnew.
  eapply guarantees_seq; [apply assign_all_keeps_pr|simpl; tauto..|].
  intros []. apply guarantees_ret. simpl. auto.
Qed.

End PartialCommit.

(** A [CreatePR] whose context is cancelled after the first assignment
    edge reports the cancellation, and the pull request and that edge
    stay in the store; a team creation whose second member has an id
    beyond VARCHAR(100) reports the violation, and the team and its first
    member stay in the store. *)
Lemma failing_calls_leave_writes_behind :
  let members := [service.mkTeamMember "A" "alice" true;
                  service.mkTeamMember "B" "bob" true;
                  service.mkTeamMember "C" "carol" true] in
  let w := engine.replay [engine.CreateOrUpdateTeam "backend" members]
                         (engine.fresh 0) in
  let create := service.CreatePR (CancelAt 10) "pr1" "fix" "A" w in
  let team := service.CreateOrUpdateTeam Background "frontend"
                [service.mkTeamMember "F" "fay" true;
                 service.mkTeamMember (engine.wide 101) "gus" true] w in
  (fst create = Err (ErrSQL ContextCanceled)
   /\ store.has_pr (db w) "pr1" = false
   /\ store.has_pr (db (snd create)) "pr1" = true
   /\ edge_users (db (snd create)) "pr1" = ["C"]
   /\ db (snd create) <> db w)
  /\ (fst team = Err (ErrSQL ValueTooLong)
      /\ store.has_team (db w) "frontend" = false
      /\ store.has_team (db (snd team)) "frontend" = true
      /\ store.has_user (db (snd team)) "F" = true
      /\ db (snd team) <> db w).
Proof.
  intros members w create team.
  assert (H1 : store.has_pr (db w) "pr1" = false) by (vm_compute; reflexivity).
  assert (H2 : store.has_pr (db (snd create)) "pr1" = true)
    by (vm_compute; reflexivity).
  assert (H3 : store.has_team (db w) "frontend" = false)
    by (vm_compute; reflexivity).
  assert (H4 : store.has_team (db (snd team)) "frontend" = true)
    by (vm_compute; reflexivity).
  split; repeat split; try assumption; try (vm_compute; reflexivity).
  - intros E. rewrite E in H2. congruence.
  - intros E. rewrite E in H4. congruence.
Qed.

(** C7, as the code has it: a call that reports one of the engine's own
    errors (TeamExists, PRExists, PRMerged, NotAssigned, NoCandidate,
    NotFound) has written nothing, whatever the call and its context; a
    successful [CreatePR] has stored the pull request and an assignment
    edge for every reviewer it answers; a failing [CreatePR] has either
    written nothing or, when a driver error interrupts it after the
    insert of the pull request, left that pull request behind. *)
Theorem refusals_commit_nothing :
  (forall ctx c (w : store.World) e,
      reported ctx c w = Some e -> sentinel e = true ->
      db (engine.after ctx c w) = db w)
  /\ (forall ctx prID prName authorID (w w' : store.World) r,
         service.CreatePR ctx prID prName authorID w = (Ok r, w') ->
         store.has_pr (db w') prID = true
         /\ forall u, In u (service.AssignedReviewers r) ->
                      store.has_edge (db w') prID (store.UserID u) = true)
  /\ (forall ctx prID prName authorID (w : store.World) e,
         fst (service.CreatePR ctx prID prName authorID w) = Err e ->
         db (snd (service.CreatePR ctx prID prName authorID w)) = db w
         \/ (sentinel e = false
             /\ store.has_pr (db w) prID = false
             /\ store.has_pr
                  (db (snd (service.CreatePR ctx prID prName authorID w))) prID
                = true)).
Proof.
  split; [|split].
  - intros ctx c w e Hrep Hs.
    assert (Huse : forall A (m : store.M A),
               guarantees (fun d => d = db w) m (untouched_on_refusal (db w)) ->
               error_of (fst (m w)) = Some e -> db (snd (m w)) = db w).
    { intros A m Hg Herr. specialize (Hg w eq_refl).
      destruct (fst (m w)) as [a|e'|]; simpl in Herr; try discriminate.
      inversion Herr; subst e'. apply Hg. exact Hs. }
    destruct c; simpl in *; apply Huse; try exact Hrep.
    + apply CreateOrUpdateTeam_refusal.
    + apply GetTeam_refusal.
    + apply SetUserActive_refusal.
    + apply CreatePR_refusal.
    + apply MergePR_refusal.
    + apply ReassignReviewer_refusal.
    + apply GetUserAssignedPRs_refusal.
    + apply GetPR_refusal.
  - intros ctx prID prName authorID w w' r H. apply CreatePR_Ok in H.
    destruct H as (author & shuffled & t & t' & _ & _ & _ & _ & _ & Hprs & _
                   & Hedges).
    split.
    + unfold store.has_pr. rewrite Hprs, existsb_app. simpl.
      rewrite String.eqb_refl, orb_true_r. reflexivity.
    + intros u Hu. apply in_edge_users. rewrite Hedges, String.eqb_refl.
      apply in_or_app. right. apply in_map. exact Hu.
  - intros ctx prID prName authorID w e H.
    pose proof (CreatePR_failure (db w) ctx prID prName authorID w eq_refl) as Hf.
    rewrite H in Hf. exact Hf.
Qed.

Lemma refusals_commit_nothing_witness :
  let w := engine.replay
             [engine.CreateOrUpdateTeam "backend"
                [service.mkTeamMember "A" "alice" true;
                 service.mkTeamMember "B" "bob" true];
              engine.CreatePR "pr1" "fix" "A"]
             (engine.fresh 0) in
  db (engine.after Background (engine.CreatePR "pr1" "again" "B") w) = db w
  /\ db (engine.after Background (engine.ReassignReviewer "pr1" "B") w) = db w
  /\ db (engine.after Background (engine.CreateOrUpdateTeam "backend" []) w)
     = db w.
Proof.
  intros w. destruct refusals_commit_nothing as [H _].
  split; [|split].
  - apply (H Background (engine.CreatePR "pr1" "again" "B") w ErrPRExists);
      vm_compute; reflexivity.
  - apply (H Background (engine.ReassignReviewer "pr1" "B") w ErrNoCandidate);
      vm_compute; reflexivity.
  - apply (H Background (engine.CreateOrUpdateTeam "backend" []) w ErrTeamExists);
      vm_compute; reflexivity.
Defined.

(** * Panics *)

Section PanicFree.

Variable D : Type.

Lemma panic_free_ret {A} (a : A) : panic_free (@ret D A a).
Proof. apply guarantees_ret. reflexivity. Qed.

Lemma panic_free_fail {A} e : panic_free (@fail D A e).
Proof. apply guarantees_fail. reflexivity. Qed.

Lemma panic_free_query {A} ctx (q : D -> A) : panic_free (query ctx q).
Proof. apply guarantees_query; reflexivity. Qed.

Lemma panic_free_exec ctx (q : D -> SQLError + D) : panic_free (exec ctx q).
Proof. apply guarantees_exec; reflexivity. Qed.

Lemma panic_free_time_Now : panic_free (@time_Now D).
Proof. apply guarantees_time_Now; reflexivity. Qed.

Lemma panic_free_bind {A B} (m : runtime.M D A) (k : A -> runtime.M D B) :
  panic_free m -> (forall a, panic_free (k a)) -> panic_free (bind m k).
Proof.
  intros Hm Hk. eapply guarantees_seq; [exact Hm|simpl; auto..|].
  intros a. eapply guarantees_weaken; [apply (Hk a)|simpl; auto|simpl; auto].
Qed.

Lemma panic_free_try {A B} (m : runtime.M D A) (k : A -> runtime.M D B) h :
  panic_free m -> (forall a, panic_free (k a)) -> (forall e, panic_free (h e)) ->
  panic_free (try m k h).
Proof.
  intros Hm Hk Hh.
  apply guarantees_try with (R := fun _ _ => True) (E := fun _ _ => True).
  - eapply guarantees_weaken; [exact Hm|auto|]. intros [a|e|] d; simpl; auto.
  - exact Hk.
  - exact Hh.
Qed.

(** [Intn] is safe on a positive bound, and answers below it. *)
Lemma panic_free_Intn_bind {B} n (k : nat -> runtime.M D B) :
  n <> 0 -> (forall j, j < n -> panic_free (k j)) ->
  panic_free (bind (rand_Intn n) k).
Proof.
  intros Hn Hk. apply bind_Intn; [intros; contradiction|exact Hk].
Qed.

End PanicFree.

Arguments panic_free_ret {D A}.
Arguments panic_free_fail {D A}.
Arguments panic_free_query {D A}.
Arguments panic_free_exec {D}.
Arguments panic_free_time_Now {D}.
Arguments panic_free_bind {D A B}.
Arguments panic_free_try {D A B}.
Arguments panic_free_Intn_bind {D B}.

Ltac calm :=
  repeat match goal with
    | |- panic_free (ret _) => apply panic_free_ret
    | |- panic_free (fail _) => apply panic_free_fail
    | |- panic_free (query _ _) => apply panic_free_query
    | |- panic_free (exec _ _) => apply panic_free_exec
    | |- panic_free time_Now => apply panic_free_time_Now
    | |- panic_free (bind (rand_Intn _) _) =>
        apply panic_free_Intn_bind; [|intros ? ?]
    | |- panic_free (bind _ _) => apply panic_free_bind; [|intro]
    | |- panic_free (try _ _ _) => apply panic_free_try; [|intro|intro]
    | |- panic_free (let _ := _ in _) => cbv zeta
    | |- panic_free (match ?x with _ => _ end) => destruct x eqn:?
    end.

Section ShuffleInRange.

Lemma length_set_at {A} (l : list A) i x :
  length (service.set_at l i x) = length l.
Proof.
  revert i. induction l as [|h t IH]; intros [|i]; simpl; auto.
Qed.

Lemma swap_in_range i j (s : list store.User) :
  i < length s -> j < length s ->
  exists s', service.swap i j s = Some s' /\ length s' = length s.
Proof.
  intros Hi Hj. unfold service.swap.
  destruct (nth_error s i) as [a|] eqn:Ei;
    [|apply nth_error_None in Ei; lia].
  destruct (nth_error s j) as [b|] eqn:Ej;
    [|apply nth_error_None in Ej; lia].
  eexists. split; [reflexivity|]. rewrite !length_set_at. reflexivity.
Qed.

Variable D : Type.

Lemma shuffle_from_panic_free i (s : list store.User) :
  i < length s \/ i = 0 ->
  panic_free (@shuffle_from D _ i service.swap s).
Proof.
  revert s. induction i as [|i IH]; intros s Hi; simpl.
  - apply panic_free_ret.
  - destruct Hi as [Hi|Hi]; [|discriminate].
    apply panic_free_Intn_bind; [discriminate|]. intros j Hj.
    destruct (swap_in_range (S i) j s Hi) as (s' & -> & Hlen); [lia|].
    apply IH. left. lia.
Qed.

Lemma Shuffle_panic_free (s : list store.User) :
  panic_free (@rand_Shuffle D _ (length s) service.swap s).
Proof.
  unfold rand_Shuffle. apply shuffle_from_panic_free.
  destruct s; simpl; [right; reflexivity|left; lia].
Qed.

End ShuffleInRange.

Section CallsPanicFree.

Lemma assign_all_panic_free ctx prID reviewers :
  panic_free (service.assign_all ctx prID reviewers).
Proof.
  induction reviewers as [|r rs IH]; simpl; [calm|].
  unfold store.AssignReviewer. calm. exact IH.
Qed.

Lemma upsert_members_panic_free ctx teamName members :
  panic_free (service.upsert_members ctx teamName members).
Proof.
  induction members as [|m ms IH]; simpl; [calm|].
  unfold store.CreateOrUpdateUser. calm. exact IH.
Qed.

Lemma with_reviewers_panic_free ctx prs acc :
  panic_free (service.with_reviewers ctx prs acc).
Proof.
  revert acc. induction prs as [|p ps IH]; intros acc; simpl;
    unfold store.GetPRReviewers; calm. apply IH.
Qed.

Lemma CreatePR_panic_free ctx prID prName authorID :
  panic_free (service.CreatePR ctx prID prName authorID).
Proof.
  unfold service.CreatePR, store.GetPR, store.GetUser,
    store.GetActiveTeamMembers, store.CreatePR.
  calm; first [apply assign_all_panic_free | apply Shuffle_panic_free].
Qed.

Lemma ReassignReviewer_panic_free ctx prID oldUserID :
  panic_free (service.ReassignReviewer ctx prID oldUserID).
Proof.
  unfold service.ReassignReviewer, store.GetPR, store.GetUser,
    store.GetActiveTeamMembers, store.RemoveReviewer, store.AssignReviewer,
    store.GetPRReviewers.
  calm.
  - match goal with
    | En : (_ =? 0) = false |- _ => apply Nat.eqb_neq in En; exact En
    end.
  - match goal with
    | Ek : nth_error _ _ = None |- _ => apply nth_error_None in Ek; lia
    end.
Qed.

(** [SetUserActive] panics only on a user id that has no row. *)
Lemma SetUserActive_panic d0 ctx userID isActive :
  guarantees (fun d => d = d0) (service.SetUserActive ctx userID isActive)
    (fun o _ => is_panic o = true -> store.has_user d0 userID = false).
Proof.
  unfold service.SetUserActive, store.GetUser.
  apply bind_query; [simpl; discriminate|]. intros [u|].
  - unfold store.UpdateUser. apply bind_exec; [simpl; discriminate|].
    apply guarantees_ret. simpl. discriminate.
  - apply guarantees_panic. intros d [-> Hf] _. unfold store.has_user.
    destruct (existsb _ _) eqn:E; [|reflexivity].
    apply existsb_exists in E. destruct E as (u & Hin & Hu).
    symmetry in Hf. apply find_none with (x := u) in Hf; [congruence|exact Hin].
Qed.

End CallsPanicFree.

(** X1: whatever the context, the clock and the random draws, the only
    call of the engine that can end in a panic is [SetUserActive], and it
    does so only for a user id that has no row.  In particular the
    shuffle of [CreatePR] and the indexing by [rand.Intn] in
    [ReassignReviewer] stay within bounds. *)
Theorem only_SetUserActive_panics ctx c (w : store.World) :
  panics ctx c w = true ->
  exists userID isActive,
    c = engine.SetUserActive userID isActive
    /\ store.has_user (db w) userID = false.
Proof.
  assert (Hno : forall A (m : store.M A),
             panic_free m -> is_panic (fst (m w)) = true -> False).
  { intros A m Hm Hp. specialize (Hm w I). simpl in Hm. congruence. }
  destruct c; simpl; intros Hp.
  - exfalso. revert Hp. apply Hno.
    unfold service.CreateOrUpdateTeam, store.GetTeam, store.CreateTeam.
    calm; apply upsert_members_panic_free.
  - exfalso. revert Hp. apply Hno.
    unfold service.GetTeam, store.GetTeam, store.GetTeamMembers. calm.
  - exists userID, isActive. split; [reflexivity|].
    apply (SetUserActive_panic (db w) ctx userID isActive w eq_refl Hp).
  - exfalso. revert Hp. apply Hno. apply CreatePR_panic_free.
  - exfalso. revert Hp. apply Hno.
    unfold service.MergePR, store.GetPR, store.GetPRReviewers, store.UpdatePR.
    calm.
  - exfalso. revert Hp. apply Hno. apply ReassignReviewer_panic_free.
  - exfalso. revert Hp. apply Hno.
    unfold service.GetUserAssignedPRs, store.GetUserAssignedPRs. calm.
    apply with_reviewers_panic_free.
  - exfalso. revert Hp. apply Hno.
    unfold service.GetPR, store.GetPR, store.GetPRReviewers. calm.
Qed.

Lemma only_SetUserActive_panics_witness :
  exists userID isActive,
    engine.SetUserActive "ghost" true = engine.SetUserActive userID isActive
    /\ store.has_user (db (engine.fresh 0)) userID = false.
Proof.
  apply (only_SetUserActive_panics Background
           (engine.SetUserActive "ghost" true) (engine.fresh 0)).
  vm_compute. reflexivity.
Defined.

(** * The errors each call can report *)

Section Refusing.

Variable D : Type.
Variable allowed : list error.

Lemma refuses_ret {A} (a : A) : refuses_only_with allowed (@ret D A a).
Proof. apply guarantees_ret. simpl. auto. Qed.

Lemma refuses_panic {A} : refuses_only_with allowed (@panic D A).
Proof. apply guarantees_panic. simpl. auto. Qed.

Lemma refuses_fail {A} e : In e allowed -> refuses_only_with allowed (@fail D A e).
Proof. intros H. apply guarantees_fail. simpl. auto. Qed.

Lemma refuses_driver {A} (m : runtime.M D A) :
  driver_errors_only m -> refuses_only_with allowed m.
Proof.
  intros H. eapply guarantees_weaken; [exact H|simpl; auto|].
  intros [a|e|] d; simpl; auto.
Qed.

Lemma refuses_bind {A B} (m : runtime.M D A) (k : A -> runtime.M D B) :
  refuses_only_with allowed m -> (forall a, refuses_only_with allowed (k a)) ->
  refuses_only_with allowed (bind m k).
Proof.
  intros Hm Hk. eapply guarantees_seq; [exact Hm|simpl; auto..|].
  intros a. eapply guarantees_weaken; [apply (Hk a)|simpl; auto|simpl; auto].
Qed.

Lemma refuses_try {A B} (m : runtime.M D A) (k : A -> runtime.M D B) h :
  refuses_only_with allowed m -> (forall a, refuses_only_with allowed (k a)) ->
  (forall e, refuses_only_with allowed (h e)) ->
  refuses_only_with allowed (try m k h).
Proof.
  intros Hm Hk Hh.
  apply guarantees_try with (R := fun _ _ => True) (E := fun _ _ => True).
  - eapply guarantees_weaken; [exact Hm|simpl; auto|].
    intros [a|e|] d; simpl; auto.
  - exact Hk.
  - exact Hh.
Qed.

End Refusing.

Arguments refuses_ret {D}.
Arguments refuses_panic {D}.
Arguments refuses_fail {D}.
Arguments refuses_driver {D}.
Arguments refuses_bind {D}.
Arguments refuses_try {D}.

Lemma reads_only_driver {D A} (m : runtime.M D A) :
  (forall d0, reads_only d0 m) -> driver_errors_only m.
Proof. intros H w _. apply (H (db w) w eq_refl). Qed.

Ltac profile :=
  repeat match goal with
    | |- refuses_only_with _ (ret _) => apply refuses_ret
    | |- refuses_only_with _ panic => apply refuses_panic
    | |- refuses_only_with _ (fail _) => apply refuses_fail; simpl; tauto
    | |- refuses_only_with _ (query _ _) =>
        apply refuses_driver; apply driver_only_query
    | |- refuses_only_with _ (exec _ _) =>
        apply refuses_driver; apply driver_only_exec
    | |- refuses_only_with _ time_Now =>
        apply refuses_driver; apply driver_only_time_Now
    | |- refuses_only_with _ (rand_Intn _) =>
        apply refuses_driver; apply reads_only_driver; intro;
        apply reads_only_Intn
    | |- refuses_only_with _ (rand_Shuffle _ _ _) =>
        apply refuses_driver; apply reads_only_driver; intro;
        apply reads_only_Shuffle
    | |- refuses_only_with _ (bind _ _) => apply refuses_bind; [|intro]
    | |- refuses_only_with _ (try _ _ _) => apply refuses_try; [|intro|intro]
    | |- refuses_only_with _ (let _ := _ in _) => cbv zeta
    | |- refuses_only_with _ (match ?x with _ => _ end) => destruct x
    end.

Section Profiles.

Lemma service_profile ctx c :
  match c with
  | engine.CreateOrUpdateTeam n ms =>
      refuses_only_with (refusals_of c) (service.CreateOrUpdateTeam ctx n ms)
  | engine.GetTeam n => refuses_only_with (refusals_of c) (service.GetTeam ctx n)
  | engine.SetUserActive u a =>
      refuses_only_with (refusals_of c) (service.SetUserActive ctx u a)
  | engine.CreatePR p n a =>
      refuses_only_with (refusals_of c) (service.CreatePR ctx p n a)
  | engine.MergePR p => refuses_only_with (refusals_of c) (service.MergePR ctx p)
  | engine.ReassignReviewer p u =>
      refuses_only_with (refusals_of c) (service.ReassignReviewer ctx p u)
  | engine.GetUserAssignedPRs u =>
      refuses_only_with (refusals_of c) (service.GetUserAssignedPRs ctx u)
  | engine.GetPR p => refuses_only_with (refusals_of c) (service.GetPR ctx p)
  end.
Proof.
  destruct c; cbn [refusals_of].
  - unfold service.CreateOrUpdateTeam, store.GetTeam, store.CreateTeam.
    profile; apply refuses_driver; apply upsert_members_driver_only.
  - unfold service.GetTeam, store.GetTeam, store.GetTeamMembers. profile.
  - unfold service.SetUserActive, store.GetUser, store.UpdateUser. profile.
  - unfold service.CreatePR, store.GetPR, store.GetUser,
      store.GetActiveTeamMembers, store.CreatePR.
    profile. apply refuses_driver. apply assign_all_driver_only.
  - unfold service.MergePR, store.GetPR, store.GetPRReviewers, store.UpdatePR.
    profile.
  - unfold service.ReassignReviewer, store.GetPR, store.GetUser,
      store.GetActiveTeamMembers, store.RemoveReviewer, store.AssignReviewer,
      store.GetPRReviewers.
    profile.
  - unfold service.GetUserAssignedPRs, store.GetUserAssignedPRs. profile.
    apply refuses_driver. apply reads_only_driver. intros d0.
    apply with_reviewers_reads_only.
  - unfold service.GetPR, store.GetPR, store.GetPRReviewers. profile.
Qed.

End Profiles.

(** X2: the errors of its own that each call of the engine can report,
    under any context: [CreateOrUpdateTeam] only TeamExists; [GetTeam],
    [MergePR] and [GetPR] only NotFound; [CreatePR] only PRExists and
    NotFound; [ReassignReviewer] only NotFound, PRMerged, NotAssigned and
    NoCandidate; [SetUserActive] and [GetUserAssignedPRs] none at all.
    Every other error is one the database driver raised. *)
Theorem reported_errors_by_call ctx c (w : store.World) e :
  reported ctx c w = Some e ->
  sentinel e = false \/ In e (refusals_of c).
Proof.
  assert (Huse : forall A (m : store.M A) l,
             refuses_only_with l m -> error_of (fst (m w)) = Some e ->
             sentinel e = false \/ In e l).
  { intros A m l Hm He. specialize (Hm w I).
    destruct (fst (m w)) as [a|e'|]; simpl in He; try discriminate.
    inversion He; subst e'. exact Hm. }
  pose proof (service_profile ctx c) as Hp.
  destruct c; simpl in *; intros Hrep; exact (Huse _ _ _ Hp Hrep).
Qed.

Lemma reported_errors_by_call_witness :
  let w := engine.replay
             [engine.CreateOrUpdateTeam "backend"
                [service.mkTeamMember "A" "alice" true]]
             (engine.fresh 0) in
  (sentinel ErrNotFound = false
   \/ In ErrNotFound (refusals_of (engine.CreatePR "pr1" "fix" "nobody")))
  /\ (sentinel (ErrSQL ContextCanceled) = false
      \/ In (ErrSQL ContextCanceled)
            (refusals_of (engine.SetUserActive "A" false))).
Proof.
  intros w. split.
  - apply (reported_errors_by_call Background
             (engine.CreatePR "pr1" "fix" "nobody") w).
    vm_compute. reflexivity.
  - apply (reported_errors_by_call (CancelAt 0)
             (engine.SetUserActive "A" false) w).
    vm_compute. reflexivity.
Defined.

(** * What the endpoints answer *)

Section Endpoints.





End Endpoints.


(** * Missing and duplicate entities *)

Lemma existsb_true_find {A} (f : A -> bool) l :
  existsb f l = true -> exists x, find f l = Some x.
Proof.
  induction l as [|x t IH]; simpl; [discriminate|].
  destruct (f x); simpl; eauto.
Qed.

(** X4: under a live context, a lookup of something that is not stored
    is answered with NotFound and writes nothing: [GetTeam] for an unknown
    team, [GetPR], [MergePR] and [ReassignReviewer] for an unknown pull
    request, and [CreatePR] for an unknown author. *)
Theorem missing_entities_are_NotFound (w : store.World) :
  (forall teamName,
      store.has_team (db w) teamName = false ->
      fst (service.GetTeam Background teamName w) = Err ErrNotFound
      /\ db (snd (service.GetTeam Background teamName w)) = db w)
  /\ (forall prID,
         store.has_pr (db w) prID = false ->
         (fst (service.GetPR Background prID w) = Err ErrNotFound
          /\ db (snd (service.GetPR Background prID w)) = db w)
         /\ (fst (service.MergePR Background prID w) = Err ErrNotFound
             /\ db (snd (service.MergePR Background prID w)) = db w)
         /\ (forall oldUserID,
                fst (service.ReassignReviewer Background prID oldUserID w)
                = Err ErrNotFound
                /\ db (snd (service.ReassignReviewer Background prID
                                                     oldUserID w)) = db w))
  /\ (forall prID prName authorID,
         store.has_pr (db w) prID = false ->
         store.has_user (db w) authorID = false ->
         fst (service.CreatePR Background prID prName authorID w)
         = Err ErrNotFound
         /\ db (snd (service.CreatePR Background prID prName authorID w))
            = db w).
Proof.
  split; [|split].
  - intros teamName H. unfold service.GetTeam, store.GetTeam.
    rewrite query_Background. unfold store.has_team in H.
    rewrite (existsb_false_find _ _ H). split; reflexivity.
  - intros prID H. unfold store.has_pr in H.
    pose proof (existsb_false_find _ _ H) as Hf.
    split; [|split; [|intros oldUserID]];
      unfold service.GetPR, service.MergePR, service.ReassignReviewer,
        store.GetPR;
      rewrite query_Background, Hf; split; reflexivity.
  - intros prID prName authorID Hp Hu. unfold store.has_pr in Hp.
    unfold store.has_user in Hu.
    unfold service.CreatePR, store.GetPR, store.GetUser.
    rewrite query_Background, (existsb_false_find _ _ Hp).
    rewrite query_Background. cbn [db count_stmt].
    rewrite (existsb_false_find _ _ Hu). split; reflexivity.
Qed.

Lemma missing_entities_are_NotFound_witness :
  let w := engine.replay
             [engine.CreateOrUpdateTeam "backend"
                [service.mkTeamMember "A" "alice" true]]
             (engine.fresh 0) in
  fst (service.GetTeam Background "frontend" w) = Err ErrNotFound
  /\ fst (service.MergePR Background "pr9" w) = Err ErrNotFound
  /\ fst (service.CreatePR Background "pr1" "fix" "nobody" w) = Err ErrNotFound.
Proof.
  intros w.
  destruct (missing_entities_are_NotFound w) as (Ht & Hp & Hc).
  split; [|split].
  - apply Ht. vm_compute. reflexivity.
  - apply (Hp "pr9"). vm_compute. reflexivity.
  - apply Hc; vm_compute; reflexivity.
Defined.

(** X5: under a live context a name that is taken is refused before
    anything else is looked at: [CreateOrUpdateTeam] on a stored team
    name answers TeamExists whatever the member list, and [CreatePR] on
    a stored pull-request id answers PRExists whether or not the author
    exists; neither writes. *)
Theorem taken_names_are_refused (w : store.World) :
  (forall teamName members,
      store.has_team (db w) teamName = true ->
      fst (service.CreateOrUpdateTeam Background teamName members w)
      = Err ErrTeamExists
      /\ db (snd (service.CreateOrUpdateTeam Background teamName members w))
         = db w)
  /\ (forall prID prName authorID,
         store.has_pr (db w) prID = true ->
         fst (service.CreatePR Background prID prName authorID w)
         = Err ErrPRExists
         /\ db (snd (service.CreatePR Background prID prName authorID w))
            = db w).
Proof.
  split.
  - intros teamName members H. unfold store.has_team in H.
    destruct (existsb_true_find _ _ H) as (t & Hf).
    unfold service.CreateOrUpdateTeam, store.GetTeam, try, query, bind,
      roundtrip.
    cbn [done db count_stmt fst snd]. rewrite Hf. split; reflexivity.
  - intros prID prName authorID H. unfold store.has_pr in H.
    destruct (existsb_true_find _ _ H) as (p & Hf).
    unfold service.CreatePR, store.GetPR. rewrite query_Background, Hf.
    split; reflexivity.
Qed.

Lemma taken_names_are_refused_witness :
  let w := engine.replay
             [engine.CreateOrUpdateTeam "backend"
                [service.mkTeamMember "A" "alice" true];
              engine.CreatePR "pr1" "fix" "A"]
             (engine.fresh 0) in
  fst (service.CreateOrUpdateTeam Background "backend"
         [service.mkTeamMember "Z" "zed" true] w) = Err ErrTeamExists
  /\ fst (service.CreatePR Background "pr1" "again" "nobody" w)
     = Err ErrPRExists.
Proof.
  intros w. destruct (taken_names_are_refused w) as (Ht & Hp).
  split.
  - apply Ht. vm_compute. reflexivity.
  - apply Hp. vm_compute. reflexivity.
Defined.

(** * Keys and rows over time *)

(** X6: in every state the engine can reach, under any contexts, clocks
    and random draws, the key constraints of the schema hold: user ids,
    pull-request ids and (pull request, user) edges are unique, and every
    edge points to a stored pull request and a stored user. *)
Theorem schema_keys_hold_when_reachable w :
  engine.reachable w -> keys_hold (db w) /\ consistent (db w) = true.
Proof.
  intros H. apply reachable_consistent in H. split; [|exact H].
  apply consistent_iff. exact H.
Qed.

Lemma schema_keys_hold_when_reachable_witness :
  let w := engine.replay
             [engine.CreateOrUpdateTeam "backend"
                [service.mkTeamMember "A" "alice" true;
                 service.mkTeamMember "B" "bob" true;
                 service.mkTeamMember "A" "alice again" false];
              engine.CreatePR "pr1" "fix" "B";
              engine.CreatePR "pr1" "fix" "B";
              engine.ReassignReviewer "pr1" "A"]
             (engine.fresh 3) in
  engine.reachable w /\ consistent (db w) = true.
Proof.
  intros w.
  assert (Hw : engine.reachable w).
  { apply reachable_replay. apply engine.reachable_empty. reflexivity. }
  split; [exact Hw|]. apply (schema_keys_hold_when_reachable w Hw).
Defined.

Section RowsStay.

Variable d0 : store.Tables.

Let since := fun d => keeps_rows d0 d.

Lemma keeps_rows_step d d' :
  keeps_rows d0 d ->
  (forall t, store.has_team d t = true -> store.has_team d' t = true) ->
  (forall u, store.has_user d u = true -> store.has_user d' u = true) ->
  (forall p, store.has_pr d p = true -> store.has_pr d' p = true) ->
  keeps_rows d0 d'.
Proof. intros (H1 & H2 & H3) G1 G2 G3. repeat split; auto. Qed.

Lemma CreateTeam_rows ctx team : preserves since (store.CreateTeam ctx team).
Proof.
  unfold store.CreateTeam. keep. apply preserves_exec. intros d d' Hd Hq.
  destruct (negb _) in Hq; [discriminate|].
  destruct (store.has_team _ _) in Hq; [discriminate|].
  inversion Hq; subst d'. apply (keeps_rows_step d); auto.
  intros t Ht. unfold store.has_team in *. cbn [store.teams].
  rewrite existsb_app, Ht. reflexivity.
Qed.

Lemma CreateOrUpdateUser_rows ctx user :
  preserves since (store.CreateOrUpdateUser ctx user).
Proof.
  unfold store.CreateOrUpdateUser. keep. apply preserves_exec.
  intros d d' Hd Hq.
  destruct (negb _) in Hq; [discriminate|].
  destruct (negb _) in Hq; [discriminate|].
  inversion Hq; subst d'. apply (keeps_rows_step d); auto.
  intros u Hu. unfold store.upsert_user.
  destruct (existsb _ (store.users d)) eqn:Ex.
  - rewrite <- Hu. apply has_user_by_ids. cbn [store.users].
    apply (updated_ids store.UserID (store.UserID user)
             (fun x => store.mkUser (store.UserID x) (store.Username user)
                         (store.IsActive user) (store.TeamName user)
                         (store.UserCreatedAt x))). reflexivity.
  - unfold store.has_user in *. cbn [store.users].
    rewrite existsb_app, Hu. reflexivity.
Qed.

Lemma UpdateUser_rows ctx user : preserves since (store.UpdateUser ctx user).
Proof.
  unfold store.UpdateUser. apply preserves_exec. intros d d' Hd Hq.
  destruct (negb _) in Hq; [discriminate|].
  destruct (_ && _) in Hq; [discriminate|].
  inversion Hq; subst d'. apply (keeps_rows_step d); auto.
  intros u Hu. rewrite <- Hu. apply has_user_by_ids. cbn [store.users].
  apply (updated_ids store.UserID (store.UserID user)
           (fun x => store.mkUser (store.UserID x) (store.Username user)
                       (store.IsActive user) (store.TeamName user)
                       (store.UserCreatedAt x))). reflexivity.
Qed.

Lemma CreatePR_rows ctx pr : preserves since (store.CreatePR ctx pr).
Proof.
  unfold store.CreatePR. keep. apply preserves_exec. intros d d' Hd Hq.
  destruct (negb _) in Hq; [discriminate|].
  destruct (store.has_pr _ _) in Hq; [discriminate|].
  destruct (negb _) in Hq; [discriminate|].
  inversion Hq; subst d'. apply (keeps_rows_step d); auto.
  intros p Hp. unfold store.has_pr in *. cbn [store.pull_requests].
  rewrite existsb_app, Hp. reflexivity.
Qed.

Lemma UpdatePR_rows ctx pr : preserves since (store.UpdatePR ctx pr).
Proof.
  unfold store.UpdatePR. apply preserves_exec. intros d d' Hd Hq.
  destruct (negb _) in Hq; [discriminate|].
  inversion Hq; subst d'. apply (keeps_rows_step d); auto.
  intros p Hp. rewrite <- Hp. apply has_pr_by_ids. cbn [store.pull_requests].
  apply (updated_ids store.PullRequestID (store.PullRequestID pr)
           (fun x => store.mkPullRequest (store.PullRequestID x)
                       (store.PullRequestName pr) (store.AuthorID x)
                       (store.Status pr) (store.CreatedAt x)
                       (store.MergedAt pr))). reflexivity.
Qed.

Lemma AssignReviewer_rows ctx prID userID :
  preserves since (store.AssignReviewer ctx prID userID).
Proof.
  unfold store.AssignReviewer. keep. apply preserves_exec.
  intros d d' Hd Hq.
  destruct (negb _) in Hq; [discriminate|].
  destruct (store.has_edge _ _ _) in Hq; [discriminate|].
  destruct (negb _) in Hq; [discriminate|].
  inversion Hq; subst d'. apply (keeps_rows_step d); auto.
Qed.

Lemma RemoveReviewer_rows ctx prID userID :
  preserves since (store.RemoveReviewer ctx prID userID).
Proof.
  unfold store.RemoveReviewer. apply preserves_exec. intros d d' Hd Hq.
  inversion Hq; subst d'. apply (keeps_rows_step d); auto.
Qed.

Lemma every_call_keeps_rows ctx c (w : store.World) :
  since (db w) -> since (db (engine.after ctx c w)).
Proof.
  intros H.
  assert (Hup : forall teamName members,
             preserves since (service.upsert_members ctx teamName members)).
  { intros teamName members. induction members as [|m ms IH]; simpl; keep; auto.
    apply CreateOrUpdateUser_rows. }
  assert (Has : forall prID reviewers,
             preserves since (service.assign_all ctx prID reviewers)).
  { intros prID reviewers. induction reviewers as [|r rs IH]; simpl; keep; auto.
    apply AssignReviewer_rows. }
  assert (Hwr : forall prs acc,
             preserves since (service.with_reviewers ctx prs acc)).
  { intros prs. induction prs as [|p ps IH]; intros acc; simpl;
      unfold store.GetPRReviewers; keep. apply IH. }
  assert (Hk : forall A (m : store.M A),
             preserves since m -> since (db (snd (m w))))
    by (intros A m Hm; apply (Hm w H)).
  destruct c; simpl; apply Hk.
  - unfold service.CreateOrUpdateTeam, store.GetTeam. keep;
      first [apply CreateTeam_rows | apply Hup].
  - unfold service.GetTeam, store.GetTeam, store.GetTeamMembers. keep.
  - unfold service.SetUserActive, store.GetUser. keep. apply UpdateUser_rows.
  - unfold service.CreatePR, store.GetPR, store.GetUser,
      store.GetActiveTeamMembers.
    keep; first [apply CreatePR_rows | apply Has].
  - unfold service.MergePR, store.GetPR, store.GetPRReviewers. keep.
    apply UpdatePR_rows.
  - unfold service.ReassignReviewer, store.GetPR, store.GetUser,
      store.GetActiveTeamMembers, store.GetPRReviewers.
    keep; first [apply RemoveReviewer_rows | apply AssignReviewer_rows].
  - unfold service.GetUserAssignedPRs, store.GetUserAssignedPRs. keep.
    apply Hwr.
  - unfold service.GetPR, store.GetPR, store.GetPRReviewers. keep.
Qed.

End RowsStay.

Lemma follows_replay calls w w' :
  follows w w' -> follows w (engine.replay calls w').
Proof.
  revert w'. induction calls as [|c cs IH]; intros w' H; simpl; [exact H|].
  apply IH. apply follows_after. exact H.
Qed.

(** X7: the engine never deletes: whatever calls follow, under whatever
    contexts, a team name, a user id and a pull-request id that are
    stored stay stored. *)
Theorem rows_are_never_deleted (w w' : store.World) :
  follows w w' -> keeps_rows (db w) (db w').
Proof.
  intros H. induction H as [|w' ctx c H IH].
  - repeat split; auto.
  - apply every_call_keeps_rows. exact IH.
Qed.

Lemma rows_are_never_deleted_witness :
  let w := engine.replay
             [engine.CreateOrUpdateTeam "backend"
                [service.mkTeamMember "A" "alice" true;
                 service.mkTeamMember "B" "bob" true];
              engine.CreatePR "pr1" "fix" "A"]
             (engine.fresh 0) in
  let w' := engine.replay
              [engine.MergePR "pr1";
               engine.CreateOrUpdateTeam "frontend"
                 [service.mkTeamMember "A" "alice" false];
               engine.SetUserActive "B" false] w in
  keeps_rows (db w) (db w').
Proof.
  intros w w'. apply (rows_are_never_deleted w w').
  apply follows_replay. apply follows_here.
Defined.

(** * Merged pull requests are final *)

Section Final.

(** A merged row [p] and the reviewers [E0] recorded for it. *)
Variable p : store.PullRequest.
Variable E0 : list string.
Hypothesis p_merged : store.Status p = store.PRStatusMerged.

Let k := store.PullRequestID p.

Let final := fun d =>
  In p (store.pull_requests d) /\ edge_users d k = E0.

Lemma final_same_rows d d' :
  store.pull_requests d' = store.pull_requests d ->
  store.pr_reviewers d' = store.pr_reviewers d ->
  final d -> final d'.
Proof. unfold final, edge_users. intros -> ->. auto. Qed.

Lemma CreateTeam_final ctx team : preserves final (store.CreateTeam ctx team).
Proof.
  unfold store.CreateTeam. keep. apply preserves_exec. intros d d' Hd Hq.
  destruct (negb _) in Hq; [discriminate|].
  destruct (store.has_team _ _) in Hq; [discriminate|].
  inversion Hq; subst d'. revert Hd. apply final_same_rows; reflexivity.
Qed.

Lemma CreateOrUpdateUser_final ctx user :
  preserves final (store.CreateOrUpdateUser ctx user).
Proof.
  unfold store.CreateOrUpdateUser. keep. apply preserves_exec.
  intros d d' Hd Hq.
  destruct (negb _) in Hq; [discriminate|].
  destruct (negb _) in Hq; [discriminate|].
  inversion Hq; subst d'. revert Hd. apply final_same_rows; reflexivity.
Qed.

Lemma UpdateUser_final ctx user : preserves final (store.UpdateUser ctx user).
Proof.
  unfold store.UpdateUser. apply preserves_exec. intros d d' Hd Hq.
  destruct (negb _) in Hq; [discriminate|].
  destruct (_ && _) in Hq; [discriminate|].
  inversion Hq; subst d'. revert Hd. apply final_same_rows; reflexivity.
Qed.

Lemma CreatePR_final ctx pr : preserves final (store.CreatePR ctx pr).
Proof.
  unfold store.CreatePR. keep. apply preserves_exec. intros d d' [Hp He] Hq.
  destruct (negb _) in Hq; [discriminate|].
  destruct (store.has_pr _ _) in Hq; [discriminate|].
  destruct (negb _) in Hq; [discriminate|].
  inversion Hq; subst d'. split; [|exact He].
  cbn [store.pull_requests]. apply in_or_app. left. exact Hp.
Qed.

Lemma UpdatePR_final ctx pr :
  store.PullRequestID pr <> k -> preserves final (store.UpdatePR ctx pr).
Proof.
  intros Hne. unfold store.UpdatePR. apply preserves_exec.
  intros d d' [Hp He] Hq.
  destruct (negb _) in Hq; [discriminate|].
  inversion Hq; subst d'. split; [|exact He].
  cbn [store.pull_requests]. apply in_map_iff. exists p. split; [|exact Hp].
  destruct (String.eqb_spec (store.PullRequestID p) (store.PullRequestID pr))
    as [E|E]; [|reflexivity].
  exfalso. apply Hne. symmetry. exact E.
Qed.

Lemma AssignReviewer_final ctx prID userID :
  prID <> k -> preserves final (store.AssignReviewer ctx prID userID).
Proof.
  intros Hne. unfold store.AssignReviewer. keep. apply preserves_exec.
  intros d d' [Hp He] Hq.
  destruct (negb _) in Hq; [discriminate|].
  destruct (store.has_edge _ _ _) in Hq; [discriminate|].
  destruct (negb _) in Hq; [discriminate|].
  inversion Hq; subst d'. split; [exact Hp|].
  rewrite <- He. unfold edge_users. cbn [store.pr_reviewers].
  rewrite filter_app, map_app. cbn [filter store.edge_pr].
  destruct (String.eqb_spec prID k) as [E|E]; [contradiction|].
  simpl. rewrite app_nil_r. reflexivity.
Qed.

Lemma RemoveReviewer_final ctx prID userID :
  prID <> k -> preserves final (store.RemoveReviewer ctx prID userID).
Proof.
  intros Hne. unfold store.RemoveReviewer. apply preserves_exec.
  intros d d' [Hp He] Hq. inversion Hq; subst d'. split; [exact Hp|].
  rewrite <- He. unfold edge_users. cbn [store.pr_reviewers].
  rewrite filter_twice. f_equal. apply filter_ext. intros e.
  destruct (String.eqb_spec (store.edge_pr e) k) as [E|E];
    [|rewrite andb_false_r; reflexivity].
  destruct (String.eqb_spec (store.edge_pr e) prID) as [E'|E'];
    [congruence|reflexivity].
Qed.

Lemma assign_all_final ctx prID reviewers :
  prID <> k -> preserves final (service.assign_all ctx prID reviewers).
Proof.
  intros Hne. induction reviewers as [|r rs IH]; simpl; keep; auto.
  apply AssignReviewer_final. exact Hne.
Qed.

(** A pull request found under another id than [k], or found OPEN, is
    not [p]. *)
Lemma other_row_other_id d prID pr :
  keys_hold d -> In p (store.pull_requests d) ->
  find (fun x => (store.PullRequestID x =? prID)%string) (store.pull_requests d)
  = Some pr ->
  store.Status pr <> store.PRStatusMerged ->
  prID <> k /\ store.PullRequestID pr <> k.
Proof.
  intros (_ & Hu & _) Hp Hf Hs. destruct (find_pr_some _ _ _ Hf) as [Hin Hid].
  assert (Hne : store.PullRequestID pr <> k).
  { intros E. apply Hs.
    rewrite (NoDup_map_eq store.PullRequestID _ pr p Hu Hin Hp E).
    exact p_merged. }
  split; [congruence|exact Hne].
Qed.

Lemma service_CreatePR_final ctx prID prName authorID :
  preserves final (service.CreatePR ctx prID prName authorID).
Proof.
  unfold service.CreatePR, store.GetPR, preserves.
  apply bind_query; [auto|]. intros [existing|]; [apply guarantees_fail; tauto|].
  apply guarantees_weaken with
    (P' := fun d => final d /\ prID <> k)
    (Q' := fun (_ : outcome service.PullRequestWithReviewers) d => final d);
    [| |auto].
  2:{ intros d [[Hp He] Hf]. split; [split; assumption|]. intros E.
      symmetry in Hf. apply find_none with (x := p) in Hf; [|exact Hp].
      apply String.eqb_neq in Hf. apply Hf. symmetry. exact E. }
  apply guarantees_pure. intros Hne.
  change (preserves final
            (author <- store.GetUser ctx authorID ;;
             match author with
             | None => fail ErrNotFound
             | Some author =>
                 activeMembers <-
                   store.GetActiveTeamMembers ctx (store.TeamName author)
                                              (Some authorID) ;;
                 reviewers <-
                   (if 0 <? length activeMembers then
                      shuffled <-
                        rand_Shuffle (length activeMembers) service.swap
                                     activeMembers ;;
                      ret (firstn (service.min 2 (length activeMembers))
                                  shuffled)
                    else ret []) ;;
                 now <- time_Now ;;
                 let pr := store.mkPullRequest prID prName authorID
                             store.PRStatusOpen now None in
                 store.CreatePR ctx pr ;;;
                 service.assign_all ctx prID reviewers ;;;
                 ret (service.mkPRWithReviewers pr reviewers)
             end)).
  unfold store.GetUser, store.GetActiveTeamMembers.
  keep; first [apply CreatePR_final | apply assign_all_final; exact Hne].
Qed.

Lemma service_MergePR_final ctx prID :
  guarantees (fun d => keys_hold d /\ final d) (service.MergePR ctx prID)
             (fun _ d => final d).
Proof.
  unfold service.MergePR, store.GetPR.
  apply bind_query; [tauto|]. intros [pr|]; [|apply guarantees_fail; tauto].
  destruct (store.status_eqb (store.Status pr) store.PRStatusMerged) eqn:Es.
  - unfold store.GetPRReviewers. apply bind_query; [tauto|]. intros revs.
    apply guarantees_ret. tauto.
  - apply guarantees_weaken with
      (P' := fun d => final d /\ store.PullRequestID pr <> k)
      (Q' := fun (_ : outcome service.PullRequestWithReviewers) d => final d);
      [| |auto].
    2:{ intros d [[Hk [Hp He]] Hf]. split; [split; assumption|].
        symmetry in Hf.
        apply (other_row_other_id d prID pr Hk Hp Hf).
        intros E. apply status_eqb_merged in E. congruence. }
    apply guarantees_pure. intros Hne.
    change (preserves final
              (now <- time_Now ;;
               let pr0 := store.mkPullRequest (store.PullRequestID pr)
                            (store.PullRequestName pr) (store.AuthorID pr)
                            store.PRStatusMerged (store.CreatedAt pr)
                            (Some now) in
               store.UpdatePR ctx pr0 ;;;
               reviewers <- store.GetPRReviewers ctx prID ;;
               ret (service.mkPRWithReviewers pr0 reviewers))).
    unfold store.GetPRReviewers. keep. apply UpdatePR_final. exact Hne.
Qed.

Lemma service_ReassignReviewer_final ctx prID oldUserID :
  guarantees (fun d => keys_hold d /\ final d)
             (service.ReassignReviewer ctx prID oldUserID)
             (fun _ d => final d).
Proof.
  unfold service.ReassignReviewer, store.GetPR.
  apply bind_query; [tauto|]. intros [pr|]; [|apply guarantees_fail; tauto].
  destruct (store.status_eqb (store.Status pr) store.PRStatusMerged) eqn:Es;
    [apply guarantees_fail; tauto|].
  apply guarantees_weaken with
    (P' := fun d => final d /\ prID <> k)
    (Q' := fun (_ : outcome (service.PullRequestWithReviewers * string)) d =>
             final d);
    [| |auto].
  2:{ intros d [[Hk [Hp He]] Hf]. split; [split; assumption|].
      symmetry in Hf.
      apply (other_row_other_id d prID pr Hk Hp Hf).
      intros E. apply status_eqb_merged in E. congruence. }
  apply guarantees_pure. intros Hne.
  match goal with
  | |- guarantees final ?m _ => change (preserves final m)
  end.
  unfold store.GetPRReviewers, store.GetUser, store.GetActiveTeamMembers.
  keep; first [apply RemoveReviewer_final | apply AssignReviewer_final];
    exact Hne.
Qed.

Lemma every_call_keeps_final ctx c (w : store.World) :
  keys_hold (db w) -> final (db w) -> final (db (engine.after ctx c w)).
Proof.
  intros Hk Hf.
  assert (Huse : forall A (m : store.M A),
             preserves final m -> final (db (snd (m w))))
    by (intros A m Hm; apply (Hm w Hf)).
  destruct c; simpl.
  - apply Huse. unfold service.CreateOrUpdateTeam, store.GetTeam. keep.
    + apply CreateTeam_final.
    + induction members as [|m ms IH]; simpl; keep; auto.
      apply CreateOrUpdateUser_final.
    + apply CreateTeam_final.
    + induction members as [|m ms IH]; simpl; keep; auto.
      apply CreateOrUpdateUser_final.
  - apply Huse.
    unfold service.GetTeam, store.GetTeam, store.GetTeamMembers. keep.
  - apply Huse. unfold service.SetUserActive, store.GetUser. keep.
    apply UpdateUser_final.
  - apply Huse. apply service_CreatePR_final.
  - apply (service_MergePR_final ctx prID w (conj Hk Hf)).
  - apply (service_ReassignReviewer_final ctx prID oldUserID w (conj Hk Hf)).
  - apply Huse.
    unfold service.GetUserAssignedPRs, store.GetUserAssignedPRs. keep.
    generalize (@nil service.PullRequestWithReviewers).
    match goal with |- forall l, preserves _ (service.with_reviewers _ ?ps l) =>
      induction ps as [|x xs IH] end; intros acc; simpl;
      unfold store.GetPRReviewers; keep. apply IH.
  - apply Huse. unfold service.GetPR, store.GetPR, store.GetPRReviewers. keep.
Qed.

End Final.

(** X8: a merged pull request is final.  From a state where the keys
    hold, whatever calls follow and under whatever contexts, the row of a
    MERGED pull request stays exactly as it is (status, name, author,
    [created_at], [merged_at]) and its assignment edges stay the same
    list: no reassignment, creation or merge touches it again. *)
Theorem merged_pull_requests_are_final (w w' : store.World) p :
  consistent (db w) = true ->
  In p (store.pull_requests (db w)) ->
  store.Status p = store.PRStatusMerged ->
  follows w w' ->
  In p (store.pull_requests (db w'))
  /\ edge_users (db w') (store.PullRequestID p)
     = edge_users (db w) (store.PullRequestID p).
Proof.
  intros Hc Hp Hs H. apply consistent_iff in Hc.
  assert (Hall : keys_hold (db w')
                 /\ In p (store.pull_requests (db w'))
                 /\ edge_users (db w') (store.PullRequestID p)
                    = edge_users (db w) (store.PullRequestID p)).
  { induction H as [|w' ctx c H IH].
    - auto.
    - destruct IH as [Hk Hf]. split.
      + apply every_call_keeps_keys. exact Hk.
      + apply (every_call_keeps_final p _ Hs ctx c w' Hk Hf). }
  tauto.
Qed.

Lemma merged_pull_requests_are_final_witness :
  let w := engine.replay
             [engine.CreateOrUpdateTeam "backend"
                [service.mkTeamMember "A" "alice" true;
                 service.mkTeamMember "B" "bob" true;
                 service.mkTeamMember "C" "carol" true];
              engine.CreatePR "pr1" "fix" "A";
              engine.MergePR "pr1"]
             (engine.fresh 0) in
  let w' := engine.replay
              [engine.ReassignReviewer "pr1" "B";
               engine.MergePR "pr1";
               engine.CreatePR "pr1" "again" "B";
               engine.SetUserActive "C" false] w in
  edge_users (db w') "pr1" = edge_users (db w) "pr1".
Proof.
  intros w w'.
  assert (Hp : exists p, In p (store.pull_requests (db w))
                         /\ store.Status p = store.PRStatusMerged
                         /\ store.PullRequestID p = "pr1").
  { vm_compute. eexists. split; [left; reflexivity|]. split; reflexivity. }
  destruct Hp as (p & Hin & Hs & Hid). rewrite <- Hid.
  apply (merged_pull_requests_are_final w w' p); try assumption.
  - vm_compute. reflexivity.
  - apply follows_replay. apply follows_here.
Defined.

(** * Never more than two reviewers *)

Section AtMostTwo.

Lemma at_most_two_same_edges d d' :
  store.pr_reviewers d' = store.pr_reviewers d ->
  at_most_two d -> at_most_two d'.
Proof. unfold at_most_two, edge_users. intros ->. auto. Qed.

Lemma length_edge_users_filter d f prID :
  length (edge_users
            (store.mkTables (store.teams d) (store.users d)
               (store.pull_requests d) (filter f (store.pr_reviewers d)))
            prID)
  <= length (edge_users d prID).
Proof.
  unfold edge_users. cbn [store.pr_reviewers]. rewrite !length_map.
  induction (store.pr_reviewers d) as [|e t IH]; simpl; [lia|].
  destruct (f e); simpl; destruct (store.edge_pr e =? prID)%string; simpl; lia.
Qed.

(** Removing an edge that is there frees a place. *)
Lemma length_edge_users_removed d prID userID :
  store.has_edge d prID userID = true ->
  length (edge_users
            (store.mkTables (store.teams d) (store.users d)
               (store.pull_requests d)
               (filter (fun e => negb ((store.edge_pr e =? prID)%string
                                       && (store.edge_user e =? userID)%string))
                       (store.pr_reviewers d)))
            prID) + 1
  <= length (edge_users d prID).
Proof.
  unfold store.has_edge, edge_users. cbn [store.pr_reviewers].
  rewrite !length_map.
  induction (store.pr_reviewers d) as [|e t IH]; simpl; [discriminate|].
  intros H.
  destruct (store.edge_pr e =? prID)%string eqn:Ep; simpl in *.
  - destruct (store.edge_user e =? userID)%string eqn:Eu; simpl in *.
    + clear IH H.
      assert (Hle : length (filter (fun e0 => (store.edge_pr e0 =? prID)%string)
                             (filter (fun e0 =>
                                        negb ((store.edge_pr e0 =? prID)%string
                                              && (store.edge_user e0 =? userID)%string))
                                     t))
                    <= length (filter (fun e0 => (store.edge_pr e0 =? prID)%string) t)).
      { induction t as [|x xs IHx]; simpl; [lia|].
        destruct (negb _); simpl;
          destruct (store.edge_pr x =? prID)%string; simpl; lia. }
      lia.
    + rewrite Ep. simpl. specialize (IH H). lia.
  - rewrite Ep. apply IH. exact H.
Qed.

Lemma CreateTeam_two ctx team : preserves at_most_two (store.CreateTeam ctx team).
Proof.
  unfold store.CreateTeam. keep. apply preserves_exec. intros d d' Hd Hq.
  destruct (negb _) in Hq; [discriminate|].
  destruct (store.has_team _ _) in Hq; [discriminate|].
  inversion Hq; subst d'. revert Hd. apply at_most_two_same_edges. reflexivity.
Qed.

Lemma CreateOrUpdateUser_two ctx user :
  preserves at_most_two (store.CreateOrUpdateUser ctx user).
Proof.
  unfold store.CreateOrUpdateUser. keep. apply preserves_exec.
  intros d d' Hd Hq.
  destruct (negb _) in Hq; [discriminate|].
  destruct (negb _) in Hq; [discriminate|].
  inversion Hq; subst d'. revert Hd. apply at_most_two_same_edges. reflexivity.
Qed.

Lemma UpdateUser_two ctx user : preserves at_most_two (store.UpdateUser ctx user).
Proof.
  unfold store.UpdateUser. apply preserves_exec. intros d d' Hd Hq.
  destruct (negb _) in Hq; [discriminate|].
  destruct (_ && _) in Hq; [discriminate|].
  inversion Hq; subst d'. revert Hd. apply at_most_two_same_edges. reflexivity.
Qed.

Lemma UpdatePR_two ctx pr : preserves at_most_two (store.UpdatePR ctx pr).
Proof.
  unfold store.UpdatePR. apply preserves_exec. intros d d' Hd Hq.
  destruct (negb _) in Hq; [discriminate|].
  inversion Hq; subst d'. revert Hd. apply at_most_two_same_edges. reflexivity.
Qed.

(** The insert of a pull request: no edge is written, and by the foreign
    key none was there for the new id. *)
Lemma store_CreatePR_two ctx pr :
  guarantees (fun d => keys_hold d /\ at_most_two d) (store.CreatePR ctx pr)
    (fun o d' =>
       match o with
       | Ok _ => at_most_two d' /\ edge_users d' (store.PullRequestID pr) = []
       | _ => at_most_two d'
       end).
Proof.
  unfold store.CreatePR. apply bind_time_Now. intros now.
  apply guarantees_exec; try tauto. intros d d' [Hk Hd] Hq.
  destruct (negb _) in Hq; [discriminate|].
  destruct (store.has_pr d (store.PullRequestID pr)) eqn:Hnew; [discriminate|].
  destruct (negb _) in Hq; [discriminate|].
  inversion Hq; subst d'. split.
  - revert Hd. apply at_most_two_same_edges. reflexivity.
  - destruct Hk as (_ & _ & _ & Hfk).
    change (edge_users d (store.PullRequestID pr) = []).
    apply no_edges_without_pr; [|exact Hnew]. intros e He.
    apply (Hfk e He).
Qed.

Lemma AssignReviewer_two ctx prID userID n :
  guarantees (room_for prID (S n)) (store.AssignReviewer ctx prID userID)
    (fun o d' =>
       match o with
       | Ok _ => room_for prID n d'
       | _ => at_most_two d'
       end).
Proof.
  unfold store.AssignReviewer. apply bind_time_Now. intros now.
  apply guarantees_exec; unfold room_for; try tauto.
  intros d d' [Hd Hn] Hq.
  destruct (negb _) in Hq; [discriminate|].
  destruct (store.has_edge _ _ _) in Hq; [discriminate|].
  destruct (negb _) in Hq; [discriminate|].
  inversion Hq; subst d'.
  assert (Hlen : forall id,
             length (edge_users
                       (store.mkTables (store.teams d) (store.users d)
                          (store.pull_requests d)
                          (store.pr_reviewers d ++ [store.mkEdge prID userID now]))
                       id)
             = length (edge_users d id) + (if (prID =? id)%string then 1 else 0)).
  { intros id. unfold edge_users. cbn [store.pr_reviewers].
    rewrite filter_app, map_app, length_app. cbn [filter store.edge_pr].
    destruct (prID =? id)%string; reflexivity. }
  split.
  - intros id. rewrite Hlen.
    destruct (String.eqb_spec prID id) as [<-|Hne]; [lia|].
    specialize (Hd id). lia.
  - rewrite Hlen, String.eqb_refl. lia.
Qed.

Lemma assign_all_two ctx prID reviewers :
  guarantees (room_for prID (length reviewers))
             (service.assign_all ctx prID reviewers)
             (fun _ d' => at_most_two d').
Proof.
  induction reviewers as [|r rs IH]; simpl.
  - apply guarantees_ret. unfold room_for. tauto.
  - eapply guarantees_seq; [apply AssignReviewer_two|simpl; auto..|].
    intros []. exact IH.
Qed.

Lemma service_CreatePR_two ctx prID prName authorID :
  guarantees (fun d => keys_hold d /\ at_most_two d)
             (service.CreatePR ctx prID prName authorID)
             (fun _ d' => at_most_two d').
Proof.
  unfold service.CreatePR, store.GetPR, store.GetUser,
    store.GetActiveTeamMembers.
  apply bind_query; [tauto|]. intros [existing|]; [apply guarantees_fail; tauto|].
  apply bind_query; [tauto|]. intros [author|]; [|apply guarantees_fail; tauto].
  apply bind_query; [tauto|]. intros activeMembers.
  apply guarantees_weaken with
    (P' := fun d => keys_hold d /\ at_most_two d)
    (Q' := fun (_ : outcome service.PullRequestWithReviewers) d =>
             at_most_two d); [|tauto|auto].
  eapply guarantees_seq;
    [apply selection_is_prefix_of_permutation|simpl; tauto..|].
  intros reviewers. apply guarantees_pure. intros (shuffled & _ & Hrev).
  assert (Hlen : length reviewers <= 2).
  { rewrite Hrev, length_firstn. lia. }
  apply bind_time_Now. intros now. cbv zeta.
  eapply guarantees_seq; [apply store_CreatePR_two|simpl; auto..|].
  intros []. cbn [store.PullRequestID].
  eapply guarantees_seq.
  - eapply guarantees_weaken; [apply (assign_all_two ctx prID reviewers)| |].
    + intros d [Hd He]. split; [exact Hd|]. rewrite He. simpl. exact Hlen.
    + intros o d H. exact H.
  - simpl. auto.
  - simpl. auto.
  - intros []. apply guarantees_ret. auto.
Qed.

Lemma service_ReassignReviewer_two ctx prID oldUserID :
  preserves at_most_two (service.ReassignReviewer ctx prID oldUserID).
Proof.
  unfold service.ReassignReviewer, store.GetPR, preserves.
  apply bind_query; [auto|]. intros [pr|]; [|apply guarantees_fail; tauto].
  destruct (store.status_eqb _ _); [apply guarantees_fail; tauto|].
  unfold store.GetPRReviewers at 1. apply bind_query; [tauto|].
  intros currentReviewers.
  destruct (negb _) eqn:Ea; [apply guarantees_fail; tauto|].
  apply guarantees_weaken with
    (P' := fun d => at_most_two d /\ store.has_edge d prID oldUserID = true)
    (Q' := fun (_ : outcome (service.PullRequestWithReviewers * string)) d =>
             at_most_two d); [| |auto].
  2:{ intros d [[Hd _] Hc]. split; [exact Hd|].
      apply negb_false_iff in Ea. rewrite Hc in Ea.
      apply is_assigned_true in Ea. tauto. }
  unfold store.GetUser. apply bind_query; [tauto|].
  intros [oldReviewer|]; [|apply guarantees_fail; tauto].
  unfold store.GetActiveTeamMembers. apply bind_query; [tauto|].
  intros activeMembers. cbv zeta.
  destruct (_ =? 0); [apply guarantees_fail; tauto|].
  apply bind_Intn; [tauto|]. intros j Hj.
  destruct (nth_error _ j) as [newReviewer|]; [|apply guarantees_panic; tauto].
  eapply guarantees_seq.
  - unfold store.RemoveReviewer.
    apply (guarantees_exec _ _ _ _
             (fun o d' => match o with
                          | Ok _ => room_for prID 1 d'
                          | _ => at_most_two d'
                          end)); try tauto.
    intros d d' [[[Hd He] _] _] Hq. inversion Hq; subst d'. split.
    + intros id. etransitivity; [apply length_edge_users_filter|apply Hd].
    + pose proof (length_edge_users_removed d prID oldUserID He) as Hr.
      specialize (Hd prID). lia.
  - simpl. auto.
  - simpl. auto.
  - intros []. eapply guarantees_seq; [apply AssignReviewer_two|simpl; auto..|].
    intros []. unfold store.GetPRReviewers. apply bind_query.
    + unfold room_for. tauto.
    + intros updated. apply guarantees_ret. unfold room_for. tauto.
Qed.

Lemma every_call_keeps_two ctx c (w : store.World) :
  keys_hold (db w) -> at_most_two (db w) ->
  at_most_two (db (engine.after ctx c w)).
Proof.
  intros Hk Hd.
  assert (Huse : forall A (m : store.M A),
             preserves at_most_two m -> at_most_two (db (snd (m w))))
    by (intros A m Hm; apply (Hm w Hd)).
  destruct c; simpl.
  - apply Huse. unfold service.CreateOrUpdateTeam, store.GetTeam. keep.
    + apply CreateTeam_two.
    + induction members as [|m ms IH]; simpl; keep; auto.
      apply CreateOrUpdateUser_two.
    + apply CreateTeam_two.
    + induction members as [|m ms IH]; simpl; keep; auto.
      apply CreateOrUpdateUser_two.
  - apply Huse.
    unfold service.GetTeam, store.GetTeam, store.GetTeamMembers. keep.
  - apply Huse. unfold service.SetUserActive, store.GetUser. keep.
    apply UpdateUser_two.
  - apply (service_CreatePR_two ctx prID prName authorID w (conj Hk Hd)).
  - apply Huse.
    unfold service.MergePR, store.GetPR, store.GetPRReviewers. keep.
    apply UpdatePR_two.
  - apply Huse. apply service_ReassignReviewer_two.
  - apply Huse.
    unfold service.GetUserAssignedPRs, store.GetUserAssignedPRs. keep.
    generalize (@nil service.PullRequestWithReviewers).
    match goal with |- forall l, preserves _ (service.with_reviewers _ ?ps l) =>
      induction ps as [|x xs IH] end; intros acc; simpl;
      unfold store.GetPRReviewers; keep. apply IH.
  - apply Huse. unfold service.GetPR, store.GetPR, store.GetPRReviewers. keep.
Qed.

End AtMostTwo.

Section CountingReviewers.

Variable prID : string.

Let matches (u : store.User) (e : store.ReviewerEdge) : bool :=
  (store.UserID u =? store.edge_user e)%string
  && (store.edge_pr e =? prID)%string.

Let joined (us : list store.User) (es : list store.ReviewerEdge) : nat :=
  length (flat_map (fun u => map (fun _ => u) (filter (matches u) es)) us).

Lemma joined_cons us e es :
  joined us (e :: es)
  = length (filter (fun u => matches u e) us) + joined us es.
Proof.
  unfold joined. induction us as [|u t IH]; [reflexivity|].
  cbn [flat_map]. rewrite !length_app, !length_map, IH. cbn [filter].
  destruct (matches u e); cbn [length]; lia.
Qed.

Lemma at_most_one_user us x :
  NoDup (map store.UserID us) ->
  length (filter (fun u => (store.UserID u =? x)%string) us) <= 1.
Proof.
  induction us as [|u t IH]; simpl; intros H; [lia|].
  inversion H as [|? ? Hnotin Hnd]; subst. specialize (IH Hnd).
  destruct (String.eqb_spec (store.UserID u) x) as [E|E]; [|exact IH].
  assert (Hnone : filter (fun u0 => (store.UserID u0 =? x)%string) t = []).
  { destruct (filter _ t) as [|y ys] eqn:Ef; [reflexivity|]. exfalso.
    assert (Hy : In y (filter (fun u0 => (store.UserID u0 =? x)%string) t))
      by (rewrite Ef; left; reflexivity).
    apply filter_In in Hy. destruct Hy as [Hy Hx].
    apply String.eqb_eq in Hx. apply Hnotin. rewrite E, <- Hx.
    apply in_map. exact Hy. }
  rewrite Hnone. simpl. lia.
Qed.

Lemma joined_le_edges us es :
  NoDup (map store.UserID us) ->
  joined us es
  <= length (filter (fun e => (store.edge_pr e =? prID)%string) es).
Proof.
  intros Hu. induction es as [|e t IH]; simpl.
  - unfold joined. clear Hu. induction us as [|u r IHu]; simpl; [lia|].
    exact IHu.
  - rewrite joined_cons.
    destruct (store.edge_pr e =? prID)%string eqn:Ep; simpl.
    + pose proof (at_most_one_user us (store.edge_user e) Hu) as H1.
      assert (Hf : filter (fun u => matches u e) us
                   = filter (fun u => (store.UserID u =? store.edge_user e)%string)
                            us).
      { apply filter_ext. intros u. unfold matches. rewrite Ep.
        apply andb_true_r. }
      rewrite Hf. lia.
    + assert (Hf : filter (fun u => matches u e) us = []).
      { destruct (filter _ us) as [|y ys] eqn:Ef; [reflexivity|]. exfalso.
        assert (Hy : In y (filter (fun u => matches u e) us))
          by (rewrite Ef; left; reflexivity).
        apply filter_In in Hy. destruct Hy as [_ Hy]. unfold matches in Hy.
        rewrite Ep, andb_false_r in Hy. discriminate. }
      rewrite Hf. simpl. exact IH.
Qed.

Lemma reviewers_of_le_edges d :
  NoDup (map store.UserID (store.users d)) ->
  length (store.reviewers_of d prID) <= length (edge_users d prID).
Proof.
  intros Hu. unfold edge_users. rewrite length_map.
  apply (joined_le_edges _ _ Hu).
Qed.

End CountingReviewers.

(** X9: in every state the engine can reach, under any contexts, clocks
    and random draws (failed and interrupted calls included), no pull
    request has more than two assignment edges, and [GetPR] lists at most
    two reviewers for it. *)
Theorem never_more_than_two_reviewers w :
  engine.reachable w ->
  at_most_two (db w)
  /\ forall prID, length (store.reviewers_of (db w) prID) <= 2.
Proof.
  intros H.
  assert (Hall : keys_hold (db w) /\ at_most_two (db w)).
  { induction H as [w H|w ctx c H IH].
    - rewrite H. split.
      + split; [apply NoDup_nil|split; [apply NoDup_nil|split]];
          [apply NoDup_nil|intros e []].
      + intros prID. simpl. lia.
    - destruct IH as [Hk Hd]. split.
      + apply every_call_keeps_keys. exact Hk.
      + apply every_call_keeps_two; assumption. }
  destruct Hall as [Hk Hd]. split; [exact Hd|]. intros prID.
  destruct Hk as (Hu & _).
  eapply Nat.le_trans; [apply reviewers_of_le_edges; exact Hu|apply Hd].
Qed.

Lemma never_more_than_two_reviewers_witness :
  let w := engine.replay
             [engine.CreateOrUpdateTeam "backend"
                [service.mkTeamMember "A" "alice" true;
                 service.mkTeamMember "B" "bob" true;
                 service.mkTeamMember "C" "carol" true;
                 service.mkTeamMember "D" "dave" true;
                 service.mkTeamMember "E" "erin" true];
              engine.CreatePR "pr1" "fix" "A";
              engine.ReassignReviewer "pr1" "B";
              engine.ReassignReviewer "pr1" "E"]
             (engine.fresh 0) in
  engine.reachable w /\ at_most_two (db w).
Proof.
  intros w.
  assert (Hw : engine.reachable w).
  { apply reachable_replay. apply engine.reachable_empty. reflexivity. }
  split; [exact Hw|]. apply (never_more_than_two_reviewers w Hw).
Defined.

(** * The first merge *)



(** * SetUserActive touches one flag *)

Section OneFlag.

Variable d0 : store.Tables.
Variable userID : string.
Variable isActive : bool.

Lemma SetUserActive_flags ctx :
  guarantees (fun d => d = d0) (service.SetUserActive ctx userID isActive)
    (fun o d =>
       store.teams d = store.teams d0
       /\ store.pull_requests d = store.pull_requests d0
       /\ store.pr_reviewers d = store.pr_reviewers d0
       /\ map store.UserID (store.users d) = map store.UserID (store.users d0)
       /\ (forall u, In u (store.users d0) -> store.UserID u <> userID ->
                     In u (store.users d))
       /\ (forall u, o = Ok u ->
             exists u0,
               find (fun x => (store.UserID x =? userID)%string)
                    (store.users d0) = Some u0
               /\ u = store.mkUser userID (store.Username u0) isActive
                        (store.TeamName u0) (store.UserCreatedAt u0)
               /\ find (fun x => (store.UserID x =? userID)%string)
                       (store.users d) = Some u)).
Proof.
  assert (H0 : forall e : error,
             store.teams d0 = store.teams d0
             /\ store.pull_requests d0 = store.pull_requests d0
             /\ store.pr_reviewers d0 = store.pr_reviewers d0
             /\ map store.UserID (store.users d0)
                = map store.UserID (store.users d0)
             /\ (forall u, In u (store.users d0) -> store.UserID u <> userID ->
                           In u (store.users d0))
             /\ (forall u, Err e = Ok u ->
                   exists u0,
                     find (fun x => (store.UserID x =? userID)%string)
                          (store.users d0) = Some u0
                     /\ u = store.mkUser userID (store.Username u0) isActive
                              (store.TeamName u0) (store.UserCreatedAt u0)
                     /\ find (fun x => (store.UserID x =? userID)%string)
                             (store.users d0) = Some u)).
  { intros e. repeat split; auto. discriminate. }
  unfold service.SetUserActive, store.GetUser.
  apply bind_query; [intros d ->; apply H0|]. intros [u|].
  - unfold store.UpdateUser. apply bind_exec; [intros d e [-> _]; apply H0|].
    apply guarantees_ret. intros d' (d & [-> Hf] & Hq).
    cbn [store.Username store.TeamName store.UserID store.IsActive] in Hq.
    destruct (negb _) in Hq; [discriminate|].
    destruct (_ && _) in Hq; [discriminate|].
    inversion Hq; subst d'; clear Hq.
    cbn [store.teams store.users store.pull_requests store.pr_reviewers].
    symmetry in Hf. destruct (find_user_some _ _ _ Hf) as [Hin Hid].
    subst userID.
    pose (upd := fun x => store.mkUser (store.UserID x) (store.Username u)
                            isActive (store.TeamName u)
                            (store.UserCreatedAt x)).
    repeat split.
    + apply (updated_ids store.UserID (store.UserID u) upd). reflexivity.
    + intros x Hx Hne. apply in_map_iff. exists x. split; [|exact Hx].
      destruct (String.eqb_spec (store.UserID x) (store.UserID u));
        [contradiction|reflexivity].
    + intros x Hx. inversion Hx; subst x; clear Hx. exists u.
      split; [exact Hf|]. split; [reflexivity|].
      rewrite (find_updated store.UserID (store.UserID u) upd) by reflexivity.
      rewrite Hf. reflexivity.
  - apply guarantees_panic. intros d [-> _].
    repeat split; auto. discriminate.
Qed.

End OneFlag.

(** X11: whatever the context and whatever the outcome, SetUserActive
    leaves teams, pull requests and assignment edges as they were (a
    deactivated reviewer stays assigned), keeps the ids of the user
    table, and leaves the row of every other user alone; when it
    succeeds, the user it answers is the stored row of [userID] with
    the flag set to [isActive] and name, team and creation time kept,
    and that is the row a later lookup finds. *)
Theorem SetUserActive_changes_one_flag ctx userID isActive (w : store.World) :
  let answer := service.SetUserActive ctx userID isActive w in
  let d := db w in
  let d' := db (snd answer) in
  store.teams d' = store.teams d
  /\ store.pull_requests d' = store.pull_requests d
  /\ store.pr_reviewers d' = store.pr_reviewers d
  /\ map store.UserID (store.users d') = map store.UserID (store.users d)
  /\ (forall u, In u (store.users d) -> store.UserID u <> userID ->
                In u (store.users d'))
  /\ (forall u, fst answer = Ok u ->
        exists u0,
          find (fun x => (store.UserID x =? userID)%string) (store.users d)
          = Some u0
          /\ u = store.mkUser userID (store.Username u0) isActive
                   (store.TeamName u0) (store.UserCreatedAt u0)
          /\ find (fun x => (store.UserID x =? userID)%string)
                  (store.users d') = Some u).
Proof.
  intros answer d d'.
  exact (SetUserActive_flags (db w) userID isActive ctx w eq_refl).
Qed.

(** * Teams and their members *)

Section Upserts.

Lemma find_snoc {A} (f : A -> bool) l x :
  find f (l ++ [x])
  = match find f l with
    | Some y => Some y
    | None => if f x then Some x else None
    end.
Proof.
  induction l as [|y l IH]; simpl; [reflexivity|].
  destruct (f y); [reflexivity|exact IH].
Qed.

Lemma find_upsert_other user now us id :
  id <> store.UserID user ->
  find (fun u => (store.UserID u =? id)%string) (store.upsert_user user now us)
  = find (fun u => (store.UserID u =? id)%string) us.
Proof.
  intros Hne. unfold store.upsert_user.
  destruct (existsb _ us).
  - induction us as [|x us IH]; simpl; [reflexivity|].
    destruct (String.eqb_spec (store.UserID x) (store.UserID user)) as [E|E].
    + cbn [store.UserID].
      destruct (String.eqb_spec (store.UserID x) id) as [E'|E'];
        [congruence|exact IH].
    + destruct (store.UserID x =? id)%string; [reflexivity|exact IH].
  - rewrite find_snoc. destruct (find _ us); [reflexivity|].
    cbn [store.UserID].
    destruct (String.eqb_spec (store.UserID user) id); [congruence|reflexivity].
Qed.

Lemma find_upsert_same user now us :
  exists created,
    find (fun u => (store.UserID u =? store.UserID user)%string)
         (store.upsert_user user now us)
    = Some (store.mkUser (store.UserID user) (store.Username user)
              (store.IsActive user) (store.TeamName user) created).
Proof.
  unfold store.upsert_user.
  destruct (existsb _ us) eqn:Ex.
  - destruct (existsb_true_find _ _ Ex) as [x Hx].
    rewrite (find_updated store.UserID (store.UserID user)
               (fun u => store.mkUser (store.UserID u) (store.Username user)
                           (store.IsActive user) (store.TeamName user)
                           (store.UserCreatedAt u))) by reflexivity.
    rewrite Hx. cbn [option_map]. exists (store.UserCreatedAt x).
    apply find_some in Hx. destruct Hx as [_ Hx].
    apply String.eqb_eq in Hx. rewrite Hx. reflexivity.
  - rewrite find_snoc, (existsb_false_find _ _ Ex). cbn [store.UserID].
    rewrite String.eqb_refl. eauto.
Qed.

Lemma CreateOrUpdateUser_Ok ctx user (w w' : store.World) u :
  store.CreateOrUpdateUser ctx user w = (Ok u, w') ->
  exists now,
    db w' = store.mkTables (store.teams (db w))
              (store.upsert_user user now (store.users (db w)))
              (store.pull_requests (db w)) (store.pr_reviewers (db w)).
Proof.
  unfold store.CreateOrUpdateUser. intros H.
  apply bind_Ok in H. destruct H as (now & w1 & Ht & He).
  apply time_Now_Ok in Ht. apply exec_Ok in He. rewrite Ht in He.
  destruct (negb _) in He; [discriminate|].
  destruct (negb _) in He; [discriminate|].
  exists now. congruence.
Qed.

(** What a completed run of the member loop leaves in the store. *)
Lemma upsert_members_Ok ctx teamName members :
  forall (w w' : store.World) u,
    service.upsert_members ctx teamName members w = (Ok u, w') ->
    store.teams (db w') = store.teams (db w)
    /\ store.pull_requests (db w') = store.pull_requests (db w)
    /\ store.pr_reviewers (db w') = store.pr_reviewers (db w)
    /\ (forall id, ~ In id (map service.UserID members) ->
          find (fun x => (store.UserID x =? id)%string) (store.users (db w'))
          = find (fun x => (store.UserID x =? id)%string) (store.users (db w)))
    /\ (forall before m after,
          members = before ++ m :: after ->
          ~ In (service.UserID m) (map service.UserID after) ->
          exists created,
            find (fun x => (store.UserID x =? service.UserID m)%string)
                 (store.users (db w'))
            = Some (store.mkUser (service.UserID m) (service.Username m)
                      (service.IsActive m) teamName created)).
Proof.
  induction members as [|m0 rest IH]; intros w w' u H.
  - inversion H; subst w'. repeat split; auto.
    intros [|? ?] m after E; discriminate.
  - cbn [service.upsert_members] in H.
    apply bind_Ok in H. destruct H as ([] & w1 & H1 & H2).
    apply CreateOrUpdateUser_Ok in H1. destruct H1 as [now H1].
    destruct (IH _ _ _ H2) as (Ht & Hp & He & Hother & Hlast).
    rewrite H1 in Ht, Hp, He, Hother.
    cbn [store.teams store.users store.pull_requests store.pr_reviewers]
      in Ht, Hp, He, Hother.
    split; [exact Ht|]. split; [exact Hp|]. split; [exact He|]. split.
    + intros id Hid. rewrite Hother.
      * apply find_upsert_other. cbn [store.UserID].
        intros E. apply Hid. left. symmetry. exact E.
      * intros Hin. apply Hid. right. exact Hin.
    + intros [|b before] m after E Hnot.
      * inversion E; subst m after; clear E.
        rewrite (Hother _ Hnot).
        apply (find_upsert_same
                 (store.mkUser (service.UserID m0) (service.Username m0)
                    (service.IsActive m0) teamName 0%Z)).
      * inversion E; subst b rest; clear E.
        apply (Hlast before m after eq_refl Hnot).
Qed.

Lemma query_db {A} ctx (q : store.Tables -> A) (w : store.World) :
  db (snd (query ctx q w)) = db w.
Proof.
  unfold query, bind, roundtrip.
  destruct (done ctx (stmts w)); reflexivity.
Qed.

Lemma CreateOrUpdateTeam_Ok ctx teamName members (w w' : store.World) team :
  service.CreateOrUpdateTeam ctx teamName members w = (Ok team, w') ->
  team = store.mkTeam teamName 0%Z
  /\ store.has_team (db w) teamName = false
  /\ (exists now,
        store.teams (db w') = store.teams (db w) ++ [store.mkTeam teamName now])
  /\ store.pull_requests (db w') = store.pull_requests (db w)
  /\ store.pr_reviewers (db w') = store.pr_reviewers (db w)
  /\ (forall id, ~ In id (map service.UserID members) ->
        find (fun x => (store.UserID x =? id)%string) (store.users (db w'))
        = find (fun x => (store.UserID x =? id)%string) (store.users (db w)))
  /\ (forall before m after,
        members = before ++ m :: after ->
        ~ In (service.UserID m) (map service.UserID after) ->
        exists created,
          find (fun x => (store.UserID x =? service.UserID m)%string)
               (store.users (db w'))
          = Some (store.mkUser (service.UserID m) (service.Username m)
                    (service.IsActive m) teamName created)).
Proof.
  intros H.
  assert (Hc : exists w1, db w1 = db w
             /\ bind (store.CreateTeam ctx (store.mkTeam teamName 0%Z))
                  (fun _ => bind (service.upsert_members ctx teamName members)
                              (fun _ => ret (store.mkTeam teamName 0%Z))) w1
                = (Ok team, w')).
  { unfold service.CreateOrUpdateTeam, try in H.
    pose proof (query_db ctx
                  (fun d => find (fun t => (store.Name t =? teamName)%string)
                                 (store.teams d)) w) as Hdb.
    unfold store.GetTeam in H.
    destruct (query ctx _ w) as [[[t|]|e|] w1]; cbn [snd] in Hdb;
      try discriminate; exists w1; split; assumption. }
  destruct Hc as (w1 & Hdb & Hc). rewrite <- Hdb. clear H Hdb w.
  apply bind_Ok in Hc. destruct Hc as ([] & w2 & H1 & Hc).
  apply bind_Ok in Hc. destruct Hc as ([] & w3 & H2 & Hc).
  inversion Hc; subst team w3; clear Hc.
  unfold store.CreateTeam in H1.
  apply bind_Ok in H1. destruct H1 as (now & w0 & Ht & He).
  apply time_Now_Ok in Ht. apply exec_Ok in He. rewrite Ht in He.
  cbn [store.Name] in He.
  destruct (negb _) in He; [discriminate|].
  destruct (store.has_team (db w1) teamName) eqn:Hn; [discriminate|].
  inversion He as [Hd2]; clear He.
  destruct (upsert_members_Ok _ _ _ _ _ _ H2) as (Hts & Hp & Hes & Ho & Hl).
  rewrite <- Hd2 in Hts, Hp, Hes, Ho.
  cbn [store.teams store.users store.pull_requests store.pr_reviewers]
    in Hts, Hp, Hes, Ho.
  split; [reflexivity|]. split; [reflexivity|]. split; [eauto|].
  repeat split; assumption.
Qed.

End Upserts.

(** X12: when CreateOrUpdateTeam succeeds (under any context), the team
    name was free before and the team row is appended; pull requests and
    assignment edges are untouched; the stored row of every user that
    is not among the members is what it was; and every member, taken at
    the last entry with its id, is stored under the new team with the
    name and flag of that entry, whatever team it was in before.
    Reading the team back then lists each such member. *)
Theorem CreateOrUpdateTeam_stores_members
        ctx teamName members (w w' : store.World) team :
  service.CreateOrUpdateTeam ctx teamName members w = (Ok team, w') ->
  store.has_team (db w) teamName = false
  /\ store.has_team (db w') teamName = true
  /\ store.pull_requests (db w') = store.pull_requests (db w)
  /\ store.pr_reviewers (db w') = store.pr_reviewers (db w)
  /\ (forall id, ~ In id (map service.UserID members) ->
        find (fun x => (store.UserID x =? id)%string) (store.users (db w'))
        = find (fun x => (store.UserID x =? id)%string) (store.users (db w)))
  /\ exists stored listed,
       fst (service.GetTeam Background teamName w') = Ok (stored, listed)
       /\ store.Name stored = teamName
       /\ forall before m after,
            members = before ++ m :: after ->
            ~ In (service.UserID m) (map service.UserID after) ->
            exists created,
              find (fun x => (store.UserID x =? service.UserID m)%string)
                   (store.users (db w'))
              = Some (store.mkUser (service.UserID m) (service.Username m)
                        (service.IsActive m) teamName created)
              /\ In (store.mkUser (service.UserID m) (service.Username m)
                       (service.IsActive m) teamName created) listed.
Proof.
  intros H. apply CreateOrUpdateTeam_Ok in H.
  destruct H as (_ & Hfree & [now Hts] & Hp & He & Ho & Hl).
  assert (Hfind : find (fun t => (store.Name t =? teamName)%string)
                       (store.teams (db w'))
                  = Some (store.mkTeam teamName now)).
  { rewrite Hts, find_snoc.
    rewrite (existsb_false_find _ _ Hfree). cbn [store.Name].
    rewrite String.eqb_refl. reflexivity. }
  split; [exact Hfree|]. split.
  { unfold store.has_team. rewrite Hts, existsb_app. cbn [existsb store.Name].
    rewrite String.eqb_refl. apply orb_true_iff. right. reflexivity. }
  split; [exact Hp|]. split; [exact He|]. split; [exact Ho|].
  exists (store.mkTeam teamName now),
         (filter (fun u => (store.TeamName u =? teamName)%string)
                 (store.users (db w'))).
  split.
  { unfold service.GetTeam, store.GetTeam. rewrite query_Background, Hfind.
    unfold store.GetTeamMembers. rewrite query_Background. reflexivity. }
  split; [reflexivity|].
  intros before m after E Hnot.
  destruct (Hl before m after E Hnot) as [created Hc].
  exists created. split; [exact Hc|].
  apply filter_In. split.
  - apply find_some in Hc. tauto.
  - cbn [store.TeamName]. apply String.eqb_refl.
Qed.

Lemma CreateOrUpdateTeam_stores_members_witness :
  let w := engine.replay
             [engine.CreateOrUpdateTeam "backend"
                [service.mkTeamMember "A" "alice" true;
                 service.mkTeamMember "B" "bob" true]]
             (engine.fresh 0) in
  let members := [service.mkTeamMember "B" "robert" false;
                  service.mkTeamMember "C" "carol" true] in
  let answer := service.CreateOrUpdateTeam Background "mobile" members w in
  store.has_team (db w) "mobile" = false
  /\ store.has_team (db (snd answer)) "mobile" = true.
Proof.
  intros w members answer.
  assert (E : answer = (Ok (store.mkTeam "mobile" 0%Z), snd answer))
    by (vm_compute; reflexivity).
  destruct (CreateOrUpdateTeam_stores_members Background "mobile" members
              w (snd answer) (store.mkTeam "mobile" 0%Z) E)
    as (H1 & H2 & _).
  split; assumption.
Defined.

(** * Reading back what CreatePR stored *)

Section ReadBack.

Lemma reviewers_of_filter d prID :
  distinct_edges (store.pr_reviewers d) = true ->
  store.reviewers_of d prID
  = filter (fun u => store.has_edge d prID (store.UserID u)) (store.users d).
Proof.
  intros Hd. unfold store.reviewers_of, store.has_edge.
  induction (store.users d) as [|u t IH]; simpl; [reflexivity|].
  rewrite IH.
  rewrite (filter_ext
             (fun e => (store.UserID u =? store.edge_user e)%string
                       && (store.edge_pr e =? prID)%string)
             (fun e => (prID =? store.edge_pr e)%string
                       && (store.edge_user e =? store.UserID u)%string)).
  - rewrite (one_edge_per_key _ u _ _ _ Hd).
    destruct (existsb _ (store.pr_reviewers d)); reflexivity.
  - intros e. rewrite andb_comm, (String.eqb_sym prID).
    rewrite (String.eqb_sym (store.UserID u)). reflexivity.
Qed.

Lemma NoDup_reviewers_of d prID :
  consistent d = true -> NoDup (store.reviewers_of d prID).
Proof.
  intros Hc. pose proof (consistent_users d Hc) as Hu.
  unfold consistent in Hc.
  apply andb_true_iff in Hc. destruct Hc as [Hc _].
  apply andb_true_iff in Hc. destruct Hc as [_ Hd].
  rewrite (reviewers_of_filter d prID Hd).
  apply NoDup_filter. apply NoDup_map_inv in Hu. exact Hu.
Qed.

End ReadBack.

(** X13: a pull request that CreatePR has stored (from a state in which
    the keys of the schema hold) is read back by GetPR with the same id,
    name and author, OPEN and without [merged_at], and with the
    reviewers CreatePR answered, up to their order; and each of these
    reviewers finds the pull request, as GetPR shows it, in the list
    GetUserAssignedPRs answers. *)
Theorem created_pr_reads_back
        ctx prID prName authorID (w w' : store.World) r :
  consistent (db w) = true ->
  service.CreatePR ctx prID prName authorID w = (Ok r, w') ->
  exists read,
    fst (service.GetPR Background prID w') = Ok read
    /\ store.PullRequestID (service.PullRequest read) = prID
    /\ store.PullRequestName (service.PullRequest read) = prName
    /\ store.AuthorID (service.PullRequest read) = authorID
    /\ store.Status (service.PullRequest read) = store.PRStatusOpen
    /\ store.MergedAt (service.PullRequest read) = None
    /\ Permutation (service.AssignedReviewers read)
                   (service.AssignedReviewers r)
    /\ forall u, In u (service.AssignedReviewers r) ->
         exists listed,
           fst (service.GetUserAssignedPRs Background (store.UserID u) w')
           = Ok listed
           /\ In read listed.
Proof.
  intros Hc H.
  assert (Hc' : consistent (db w') = true).
  { apply consistent_iff.
    pose proof (every_call_keeps_keys ctx
                  (engine.CreatePR prID prName authorID) w
                  (proj1 (consistent_iff _) Hc)) as Hk.
    cbn [engine.after] in Hk. rewrite H in Hk. exact Hk. }
  destruct (CreatePR_Ok _ _ _ _ _ _ _ H)
    as (author & shuffled & t & t' & Hfa & Hperm & Hrev & Hpr & Hfree
        & Hprs & Hus & Hedges).
  set (row := store.mkPullRequest prID prName authorID store.PRStatusOpen
                                  t' None) in *.
  assert (Hfind : find (fun p => (store.PullRequestID p =? prID)%string)
                       (store.pull_requests (db w')) = Some row).
  { rewrite Hprs, find_snoc, (existsb_false_find _ _ Hfree).
    subst row. cbn [store.PullRequestID]. rewrite String.eqb_refl.
    reflexivity. }
  assert (Hnone : edge_users (db w) prID = []).
  { apply no_edges_without_pr; [|exact Hfree].
    intros e He. apply consistent_edges_have_pr; assumption. }
  assert (Hstored : edge_users (db w') prID
                    = map store.UserID (service.AssignedReviewers r)).
  { rewrite Hedges, Hnone, String.eqb_refl. reflexivity. }
  assert (Hin_users : forall x, In x (service.AssignedReviewers r) ->
                                In x (store.users (db w))).
  { intros x Hx. rewrite Hrev in Hx. apply in_firstn in Hx.
    apply (Permutation_in _ (Permutation_sym Hperm)) in Hx.
    unfold team_pool in Hx. apply filter_In in Hx. tauto. }
  assert (Hnd_users : NoDup (store.users (db w))).
  { apply (NoDup_map_inv store.UserID). apply consistent_users. exact Hc. }
  assert (Hmem : forall x, In x (store.reviewers_of (db w') prID)
                           <-> In x (service.AssignedReviewers r)).
  { intros x. rewrite in_reviewers_of, <- in_edge_users, Hstored, Hus.
    split.
    - intros [Hx Hid]. apply in_map_iff in Hid.
      destruct Hid as (y & Hy & Hin).
      rewrite (NoDup_map_eq store.UserID (store.users (db w)) x y); auto.
      apply consistent_users. exact Hc.
    - intros Hx. split; [auto|]. apply in_map. exact Hx. }
  exists (service.mkPRWithReviewers row (store.reviewers_of (db w') prID)).
  split.
  { unfold service.GetPR, store.GetPR. rewrite query_Background, Hfind.
    unfold store.GetPRReviewers. rewrite query_Background. reflexivity. }
  cbn [service.PullRequest service.AssignedReviewers]. subst row.
  cbn [store.PullRequestID store.PullRequestName store.AuthorID store.Status
       store.MergedAt].
  repeat (split; [reflexivity|]). split.
  - apply NoDup_Permutation.
    + apply NoDup_reviewers_of. exact Hc'.
    + rewrite Hrev. apply NoDup_firstn.
      apply (Permutation_NoDup Hperm). unfold team_pool.
      apply NoDup_filter. exact Hnd_users.
    + exact Hmem.
  - intros u Hu.
    destruct (GetUserAssignedPRs_Background (store.UserID u) w')
      as (w2 & E & _).
    rewrite E. cbn [fst]. eexists. split; [reflexivity|].
    apply in_map_iff.
    exists (store.mkPullRequest prID prName authorID store.PRStatusOpen
                                t' None).
    split; [reflexivity|]. apply in_assigned_prs. split.
    + rewrite Hprs. apply in_or_app. right. left. reflexivity.
    + cbn [store.PullRequestID]. apply in_edge_users. rewrite Hstored.
      apply in_map. exact Hu.
Qed.

Lemma created_pr_reads_back_witness :
  let w := engine.replay
             [engine.CreateOrUpdateTeam "backend"
                [service.mkTeamMember "A" "alice" true;
                 service.mkTeamMember "B" "bob" true;
                 service.mkTeamMember "C" "carol" true]]
             (engine.fresh 0) in
  let answer := service.CreatePR Background "pr1" "fix" "A" w in
  exists read,
    fst (service.GetPR Background "pr1" (snd answer)) = Ok read
    /\ store.PullRequestID (service.PullRequest read) = "pr1".
Proof.
  intros w answer.
  assert (Hc : consistent (db w) = true) by (vm_compute; reflexivity).
  assert (E : exists r, answer = (Ok r, snd answer))
    by (vm_compute; eexists; reflexivity).
  destruct E as [r E].
  destruct (created_pr_reads_back Background "pr1" "fix" "A" w (snd answer) r
              Hc E) as (read & H1 & H2 & _).
  exists read. split; assumption.
Defined.

(** * Once merged, always merged *)

Section OnceMerged.



End OnceMerged.



(** * The column constraints hold in every reachable state *)

Section Columns.

Lemma has_user_upsert user now us id :
  existsb (fun u => (store.UserID u =? id)%string) us = true ->
  existsb (fun u => (store.UserID u =? id)%string)
          (store.upsert_user user now us) = true.
Proof.
  intros H. unfold store.upsert_user.
  destruct (existsb (fun u => (store.UserID u =? store.UserID user)%string) us).
  - apply existsb_exists in H. destruct H as (x & Hx & Hid).
    apply existsb_exists.
    exists (if (store.UserID x =? store.UserID user)%string
            then store.mkUser (store.UserID x) (store.Username user)
                   (store.IsActive user) (store.TeamName user)
                   (store.UserCreatedAt x)
            else x).
    split.
    + apply in_map_iff. exists x. split; [reflexivity|exact Hx].
    + destruct (store.UserID x =? store.UserID user)%string; exact Hid.
  - rewrite existsb_app, H. reflexivity.
Qed.

Lemma CreateTeam_columns ctx team :
  preserves columns_hold (store.CreateTeam ctx team).
Proof.
  unfold store.CreateTeam. keep. apply preserves_exec.
  intros d d' (Ht & Hu & Hp & He) Hq.
  destruct (negb _) eqn:Ef in Hq; [discriminate|].
  destruct (store.has_team _ _) in Hq; [discriminate|].
  inversion Hq; subst d'; clear Hq. apply negb_false_iff in Ef.
  split; [|split; [|split]];
    cbn [store.teams store.users store.pull_requests store.pr_reviewers].
  - intros t Hin. apply in_app_or in Hin. destruct Hin as [Hin|[<-|[]]]; auto.
  - intros u Hin. destruct (Hu u Hin) as (H1 & H2 & H3 & H4).
    repeat split; try assumption.
    unfold store.has_team in *. cbn [store.teams].
    rewrite existsb_app, H4. reflexivity.
  - exact Hp.
  - exact He.
Qed.

Lemma CreateOrUpdateUser_columns ctx user :
  preserves columns_hold (store.CreateOrUpdateUser ctx user).
Proof.
  unfold store.CreateOrUpdateUser. keep. apply preserves_exec.
  intros d d' (Ht & Hu & Hp & He) Hq.
  destruct (negb _) eqn:Ef in Hq; [discriminate|].
  destruct (negb (store.has_team _ _)) eqn:Et in Hq; [discriminate|].
  inversion Hq; subst d'; clear Hq.
  apply negb_false_iff in Ef. apply negb_false_iff in Et.
  apply andb_true_iff in Ef. destruct Ef as [Ef F3].
  apply andb_true_iff in Ef. destruct Ef as [F1 F2].
  split; [|split; [|split]];
    cbn [store.teams store.users store.pull_requests store.pr_reviewers].
  - exact Ht.
  - intros u Hin. unfold store.has_team. cbn [store.teams].
    fold (store.has_team d (store.TeamName u)).
    unfold store.upsert_user in Hin.
    destruct (existsb _ (store.users d)).
    + apply in_map_iff in Hin. destruct Hin as (y & <- & Hy).
      destruct (Hu y Hy) as (H1 & H2 & H3 & H4).
      destruct (store.UserID y =? store.UserID user)%string;
        cbn [store.UserID store.Username store.TeamName]; auto.
    + apply in_app_or in Hin. destruct Hin as [Hin|[<-|[]]];
        cbn [store.UserID store.Username store.TeamName]; auto.
  - intros p Hin. destruct (Hp p Hin) as (H1 & H2 & H3 & H4).
    repeat split; try assumption.
    unfold store.has_user in *. cbn [store.users].
    apply has_user_upsert. exact H4.
  - exact He.
Qed.

Lemma UpdateUser_columns ctx user :
  preserves columns_hold (store.UpdateUser ctx user).
Proof.
  unfold store.UpdateUser. apply preserves_exec.
  intros d d' (Ht & Hu & Hp & He) Hq.
  destruct (negb _) eqn:Ef in Hq; [discriminate|].
  destruct (_ && _) eqn:Ek in Hq; [discriminate|].
  inversion Hq; subst d'; clear Hq.
  apply negb_false_iff in Ef.
  apply andb_true_iff in Ef. destruct Ef as [F1 F2].
  split; [|split; [|split]];
    cbn [store.teams store.users store.pull_requests store.pr_reviewers].
  - exact Ht.
  - intros u Hin. unfold store.has_team. cbn [store.teams].
    fold (store.has_team d (store.TeamName u)).
    apply in_map_iff in Hin. destruct Hin as (y & <- & Hy).
    destruct (Hu y Hy) as (H1 & H2 & H3 & H4).
    destruct (store.UserID y =? store.UserID user)%string eqn:Ey; [|auto].
    cbn [store.UserID store.Username store.TeamName].
    repeat split; try assumption.
    assert (Hex : existsb (fun u => (store.UserID u =? store.UserID user)%string)
                          (store.users d) = true)
      by (apply existsb_exists; eauto).
    rewrite Hex in Ek. cbn [andb] in Ek. apply negb_false_iff in Ek. exact Ek.
  - intros p Hin. destruct (Hp p Hin) as (H1 & H2 & H3 & H4).
    repeat split; try assumption. rewrite <- H4.
    apply has_user_by_ids. cbn [store.users].
    apply (updated_ids store.UserID (store.UserID user)
             (fun x => store.mkUser (store.UserID x) (store.Username user)
                         (store.IsActive user) (store.TeamName user)
                         (store.UserCreatedAt x))). reflexivity.
  - exact He.
Qed.

Lemma CreatePR_columns ctx pr :
  preserves columns_hold (store.CreatePR ctx pr).
Proof.
  unfold store.CreatePR. keep. apply preserves_exec.
  intros d d' (Ht & Hu & Hp & He) Hq.
  destruct (negb _) eqn:Ef in Hq; [discriminate|].
  destruct (store.has_pr _ _) in Hq; [discriminate|].
  destruct (negb (store.has_user _ _)) eqn:Ea in Hq; [discriminate|].
  inversion Hq; subst d'; clear Hq.
  apply negb_false_iff in Ef. apply negb_false_iff in Ea.
  apply andb_true_iff in Ef. destruct Ef as [Ef F3].
  apply andb_true_iff in Ef. destruct Ef as [F1 F2].
  split; [|split; [|split]];
    cbn [store.teams store.users store.pull_requests store.pr_reviewers];
    try assumption.
  intros p Hin. apply in_app_or in Hin. destruct Hin as [Hin|[<-|[]]].
  - apply (Hp p Hin).
  - cbn [store.PullRequestID store.PullRequestName store.AuthorID]. auto.
Qed.

Lemma UpdatePR_columns ctx pr :
  preserves columns_hold (store.UpdatePR ctx pr).
Proof.
  unfold store.UpdatePR. apply preserves_exec.
  intros d d' (Ht & Hu & Hp & He) Hq.
  destruct (negb _) eqn:Ef in Hq; [discriminate|].
  inversion Hq; subst d'; clear Hq. apply negb_false_iff in Ef.
  split; [|split; [|split]];
    cbn [store.teams store.users store.pull_requests store.pr_reviewers];
    try assumption.
  intros p Hin. apply in_map_iff in Hin. destruct Hin as (y & <- & Hy).
  destruct (Hp y Hy) as (H1 & H2 & H3 & H4).
  destruct (store.PullRequestID y =? store.PullRequestID pr)%string;
    cbn [store.PullRequestID store.PullRequestName store.AuthorID]; auto.
Qed.

Lemma AssignReviewer_columns ctx prID userID :
  preserves columns_hold (store.AssignReviewer ctx prID userID).
Proof.
  unfold store.AssignReviewer. keep. apply preserves_exec.
  intros d d' (Ht & Hu & Hp & He) Hq.
  destruct (negb _) eqn:Ef in Hq; [discriminate|].
  destruct (store.has_edge _ _ _) in Hq; [discriminate|].
  destruct (negb _) in Hq; [discriminate|].
  inversion Hq; subst d'; clear Hq. apply negb_false_iff in Ef.
  apply andb_true_iff in Ef. destruct Ef as [F1 F2].
  split; [|split; [|split]];
    cbn [store.teams store.users store.pull_requests store.pr_reviewers];
    try assumption.
  intros e Hin. apply in_app_or in Hin. destruct Hin as [Hin|[<-|[]]]; auto.
Qed.

Lemma RemoveReviewer_columns ctx prID userID :
  preserves columns_hold (store.RemoveReviewer ctx prID userID).
Proof.
  unfold store.RemoveReviewer. apply preserves_exec.
  intros d d' (Ht & Hu & Hp & He) Hq.
  inversion Hq; subst d'; clear Hq.
  split; [|split; [|split]];
    cbn [store.teams store.users store.pull_requests store.pr_reviewers];
    try assumption.
  intros e Hin. apply filter_In in Hin. apply He. tauto.
Qed.

Lemma every_call_keeps_columns ctx c (w : store.World) :
  columns_hold (db w) -> columns_hold (db (engine.after ctx c w)).
Proof.
  intros H.
  assert (Hup : forall teamName members,
             preserves columns_hold
                       (service.upsert_members ctx teamName members)).
  { intros teamName members. induction members as [|m ms IH]; simpl; keep; auto.
    apply CreateOrUpdateUser_columns. }
  assert (Has : forall prID reviewers,
             preserves columns_hold (service.assign_all ctx prID reviewers)).
  { intros prID reviewers. induction reviewers as [|r rs IH]; simpl; keep; auto.
    apply AssignReviewer_columns. }
  assert (Hwr : forall prs acc,
             preserves columns_hold (service.with_reviewers ctx prs acc)).
  { intros prs. induction prs as [|p ps IH]; intros acc; simpl;
      unfold store.GetPRReviewers; keep. apply IH. }
  assert (Hk : forall A (m : store.M A),
             preserves columns_hold m -> columns_hold (db (snd (m w))))
    by (intros A m Hm; apply (Hm w H)).
  destruct c; simpl; apply Hk.
  - unfold service.CreateOrUpdateTeam, store.GetTeam. keep;
      first [apply CreateTeam_columns | apply Hup].
  - unfold service.GetTeam, store.GetTeam, store.GetTeamMembers. keep.
  - unfold service.SetUserActive, store.GetUser. keep.
    apply UpdateUser_columns.
  - unfold service.CreatePR, store.GetPR, store.GetUser,
      store.GetActiveTeamMembers.
    keep; first [apply CreatePR_columns | apply Has].
  - unfold service.MergePR, store.GetPR, store.GetPRReviewers. keep.
    apply UpdatePR_columns.
  - unfold service.ReassignReviewer, store.GetPR, store.GetUser,
      store.GetActiveTeamMembers, store.GetPRReviewers.
    keep; first [apply RemoveReviewer_columns | apply AssignReviewer_columns].
  - unfold service.GetUserAssignedPRs, store.GetUserAssignedPRs. keep.
    apply Hwr.
  - unfold service.GetPR, store.GetPR, store.GetPRReviewers. keep.
Qed.

Lemma reachable_columns w : engine.reachable w -> columns_hold (db w).
Proof.
  intros H. induction H as [w H|w ctx c H IH].
  - rewrite H. split; [|split; [|split]]; intros x [].
  - apply every_call_keeps_columns. exact IH.
Qed.

End Columns.

(** X15: in every state the engine can reach from empty tables (any
    contexts, clocks and random draws, refused and interrupted calls
    included) the column constraints of the schema hold: every stored
    string fits its [VARCHAR], every user is on a stored team and every
    pull request has a stored author; and whatever calls follow a state
    in which they hold, they hold again. *)
Theorem schema_columns_hold_when_reachable :
  (forall w, engine.reachable w -> columns_hold (db w))
  /\ (forall w w', columns_hold (db w) -> follows w w' -> columns_hold (db w')).
Proof.
  split; [exact reachable_columns|].
  intros w w' Hw H. induction H as [|w' ctx c H IH]; [exact Hw|].
  apply every_call_keeps_columns. exact IH.
Qed.

Lemma schema_columns_hold_when_reachable_witness :
  let w := engine.replay
             [engine.CreateOrUpdateTeam "backend"
                [service.mkTeamMember "A" "alice" true;
                 service.mkTeamMember "B" "bob" true];
              engine.CreatePR "pr1" "fix" "A";
              engine.CreateOrUpdateTeam "mobile"
                [service.mkTeamMember "B" "bob" true];
              engine.MergePR "pr1"]
             (engine.fresh 0) in
  engine.reachable w /\ columns_hold (db w).
Proof.
  intros w.
  assert (Hr : engine.reachable w).
  { apply reachable_replay. apply engine.reachable_empty. reflexivity. }
  split; [exact Hr|].
  apply (proj1 schema_columns_hold_when_reachable w Hr).
Defined.

(** * When CreatePR and ReassignReviewer succeed *)

Section Success.

Lemma bind_run {D A B} (m : runtime.M D A) (k : A -> runtime.M D B) w a w1 :
  m w = (Ok a, w1) -> bind m k w = k a w1.
Proof. unfold bind. intros ->. reflexivity. Qed.

(** With indices in range the shuffle runs to its end. *)
Lemma shuffle_from_Ok i (s : list store.User) (w : store.World) :
  i < length s \/ i = 0 ->
  exists s' w',
    shuffle_from i service.swap s w = (Ok s', w')
    /\ db w' = db w /\ Permutation s s'.
Proof.
  revert s w. induction i as [|i IH]; intros s w Hi; cbn [shuffle_from].
  - exists s, w. unfold ret. auto.
  - destruct Hi as [Hi|Hi]; [|discriminate].
    pose (j := rand w (rand_draws w) mod S (S i)).
    assert (Hj : j < S (S i))
      by (apply Nat.mod_upper_bound; discriminate).
    destruct (swap_in_range (S i) j s Hi) as (s1 & Hs & Hlen); [lia|].
    destruct (IH s1 (advance_rand w)) as (s' & w' & E & Hdb & Hp);
      [left; lia|].
    exists s', w'. split; [|split].
    + unfold bind, rand_Intn. cbv beta iota.
      change (rand w (rand_draws w) mod S (S i)) with j.
      rewrite Hs. exact E.
    + exact Hdb.
    + apply perm_trans with s1; [|exact Hp].
      apply (swap_permutes (S i) j). exact Hs.
Qed.

(** The reviewer selection of [CreatePR] always yields a list, taken
    from the members it was given. *)
Lemma selection_Ok (activeMembers : list store.User) (w : store.World) :
  exists reviewers w',
    (if 0 <? length activeMembers then
       let count := service.min 2 (length activeMembers) in
       shuffled <-
         rand_Shuffle (length activeMembers) service.swap activeMembers ;;
       ret (firstn count shuffled)
     else ret []) w = (Ok reviewers, w')
    /\ db w' = db w
    /\ (forall r, In r reviewers -> In r activeMembers)
    /\ (NoDup (map store.UserID activeMembers) ->
        NoDup (map store.UserID reviewers)).
Proof.
  destruct (0 <? length activeMembers).
  - cbv zeta. unfold rand_Shuffle.
    destruct (shuffle_from_Ok (length activeMembers - 1) activeMembers w)
      as (s' & w' & E & Hdb & Hp).
    { destruct activeMembers; simpl; [right; reflexivity|left; lia]. }
    exists (firstn (service.min 2 (length activeMembers)) s'), w'.
    split; [rewrite (bind_run _ _ _ _ _ E); reflexivity|].
    split; [exact Hdb|]. split.
    + intros r Hr. apply in_firstn in Hr.
      apply (Permutation_in _ (Permutation_sym Hp)). exact Hr.
    + intros Hnd. rewrite <- firstn_map. apply NoDup_firstn.
      apply (Permutation_NoDup (Permutation_map store.UserID Hp)). exact Hnd.
  - exists [], w. unfold ret. repeat split; auto.
    + intros r [].
    + intros _. constructor.
Qed.

(** Edges that are new, between a stored pull request and stored users,
    are all inserted. *)
Lemma assign_all_succeeds prID reviewers :
  forall w : store.World,
    store.fits 100 prID = true ->
    store.has_pr (db w) prID = true ->
    NoDup (map store.UserID reviewers) ->
    (forall r, In r reviewers ->
               store.fits 100 (store.UserID r) = true
               /\ store.has_user (db w) (store.UserID r) = true
               /\ store.has_edge (db w) prID (store.UserID r) = false) ->
    exists w', service.assign_all Background prID reviewers w = (Ok tt, w').
Proof.
  induction reviewers as [|r rs IH]; intros w Hf Hp Hnd Hall;
    cbn [service.assign_all].
  - exists w. reflexivity.
  - inversion Hnd as [|? ? Hnotin Hnd']; subst.
    destruct (Hall r (or_introl eq_refl)) as (F & U & E).
    unfold store.AssignReviewer.
    rewrite bind_assoc, time_Now_bind, exec_Background.
    cbn [db advance_clock count_stmt]. rewrite Hf, F, E, Hp, U.
    cbn [andb negb]. apply IH; try assumption.
    intros r' Hr'. destruct (Hall r' (or_intror Hr')) as (F' & U' & E').
    split; [exact F'|]. split; [exact U'|].
    unfold store.has_edge in *. cbn [db set_db store.pr_reviewers].
    rewrite existsb_app, E'. cbn [existsb store.edge_pr store.edge_user orb].
    rewrite orb_false_r. apply andb_false_iff. right.
    apply String.eqb_neq. intros Heq. apply Hnotin. rewrite Heq.
    apply in_map. exact Hr'.
Qed.

End Success.

(** X16: under a live context, and in a state where the keys and the
    column constraints of the schema hold (every reachable state),
    CreatePR succeeds whenever the id is free, the author is a stored
    user, and the new id and name fit their columns: the shuffle, the
    insert of the pull request and every insert of an assignment edge go
    through, whatever the random source yields. *)
Theorem CreatePR_succeeds (w : store.World) prID prName authorID :
  consistent (db w) = true ->
  columns_hold (db w) ->
  store.has_pr (db w) prID = false ->
  store.has_user (db w) authorID = true ->
  store.fits 100 prID = true ->
  store.fits 200 prName = true ->
  exists r w',
    service.CreatePR Background prID prName authorID w = (Ok r, w')
    /\ store.has_pr (db w') prID = true.
Proof.
  intros Hc (_ & Hcu & _ & _) Hnew Hu F1 F2.
  destruct (existsb_true_find _ _ Hu) as [author Ha].
  destruct (find_user_some _ _ _ Ha) as [Hain Haid].
  assert (F3 : store.fits 100 authorID = true)
    by (rewrite <- Haid; apply (Hcu author Hain)).
  assert (Hrun : exists r w',
             service.CreatePR Background prID prName authorID w = (Ok r, w')).
  { unfold service.CreatePR, store.GetPR. rewrite query_Background.
    rewrite (existsb_false_find _ _ Hnew).
    unfold store.GetUser. rewrite query_Background. cbn [db count_stmt].
    rewrite Ha. unfold store.GetActiveTeamMembers. rewrite query_Background.
    cbn [db count_stmt].
    set (members := filter _ (store.users (db w))).
    destruct (selection_Ok members (count_stmt (count_stmt (count_stmt w))))
      as (reviewers & w4 & E & Hdb & Hincl & Hnd).
    rewrite (bind_run _ _ _ _ _ E). cbn [db count_stmt] in Hdb.
    rewrite time_Now_bind. cbv zeta. unfold store.CreatePR.
    rewrite bind_assoc, time_Now_bind, exec_Background.
    cbn [db count_stmt advance_clock store.PullRequestID
         store.PullRequestName store.AuthorID store.Status].
    rewrite Hdb, F1, F2, F3, Hnew, Hu. cbn [andb negb].
    match goal with
    | |- exists r w', bind (service.assign_all _ _ _) _ ?w6 = _ =>
        destruct (assign_all_succeeds prID reviewers w6) as [w7 E7]
    end.
    - exact F1.
    - cbn [db set_db]. unfold store.has_pr. cbn [store.pull_requests].
      rewrite existsb_app. cbn [existsb store.PullRequestID].
      rewrite String.eqb_refl, orb_true_r. reflexivity.
    - apply Hnd. subst members. apply NoDup_map_filter.
      apply consistent_users. exact Hc.
    - intros r Hr. apply Hincl in Hr. subst members.
      apply filter_In in Hr. destruct Hr as [Hr _].
      cbn [db set_db]. split; [apply (Hcu r Hr)|]. split.
      + unfold store.has_user. cbn [store.users].
        apply has_user_true. eauto.
      + unfold store.has_edge. cbn [store.pr_reviewers].
        fold (store.has_edge (db w) prID (store.UserID r)).
        destruct (store.has_edge (db w) prID (store.UserID r)) eqn:He;
          [|reflexivity].
        apply in_edge_users in He.
        rewrite (no_edges_without_pr (db w) prID) in He;
          [destruct He| |exact Hnew].
        intros e Hin. apply consistent_edges_have_pr; assumption.
    - rewrite (bind_run _ _ _ _ _ E7). unfold ret. eauto. }
  destruct Hrun as (r & w' & E). exists r, w'. split; [exact E|].
  destruct (CreatePR_Ok _ _ _ _ _ _ _ E)
    as (_ & _ & _ & t' & _ & _ & _ & _ & _ & Hprs & _).
  unfold store.has_pr. rewrite Hprs, existsb_app.
  cbn [existsb store.PullRequestID].
  rewrite String.eqb_refl, orb_true_r. reflexivity.
Qed.

Lemma CreatePR_succeeds_witness :
  let w := engine.replay
             [engine.CreateOrUpdateTeam "backend"
                [service.mkTeamMember "A" "alice" true;
                 service.mkTeamMember "B" "bob" true;
                 service.mkTeamMember "C" "carol" true;
                 service.mkTeamMember "D" "dave" true]]
             (engine.fresh 5) in
  exists r w',
    service.CreatePR Background "pr1" "fix" "A" w = (Ok r, w')
    /\ store.has_pr (db w') "pr1" = true.
Proof.
  intros w.
  apply (CreatePR_succeeds w "pr1" "fix" "A").
  - vm_compute. reflexivity.
  - apply reachable_columns. apply reachable_replay.
    apply engine.reachable_empty. reflexivity.
  - vm_compute. reflexivity.
  - vm_compute. reflexivity.
  - vm_compute. reflexivity.
  - vm_compute. reflexivity.
Defined.

(** X17: under a live context, and in a state where the keys and the
    column constraints of the schema hold (every reachable state),
    ReassignReviewer succeeds whenever the pull request is OPEN, the old
    user holds an assignment edge on it and the replacement pool is not
    empty: the draw is in range, and the delete and the insert go
    through, whatever the random source yields.  With C3 this settles
    the outcome of every reassignment on a stored pull request. *)
Theorem ReassignReviewer_succeeds (w : store.World) prID oldUserID pr old :
  consistent (db w) = true ->
  columns_hold (db w) ->
  find (fun p => (store.PullRequestID p =? prID)%string)
       (store.pull_requests (db w)) = Some pr ->
  store.Status pr = store.PRStatusOpen ->
  store.has_edge (db w) prID oldUserID = true ->
  find (fun u => (store.UserID u =? oldUserID)%string) (store.users (db w))
  = Some old ->
  replacement_pool (db w) (store.TeamName old) (store.AuthorID pr)
                   prID oldUserID <> [] ->
  exists r newID w',
    service.ReassignReviewer Background prID oldUserID w = (Ok (r, newID), w')
    /\ In newID (map store.UserID
                     (replacement_pool (db w) (store.TeamName old)
                                       (store.AuthorID pr) prID oldUserID)).
Proof.
  intros Hc (_ & Hcu & Hcp & _) Hpr Hs He Hold Hpool.
  destruct (find_pr_some _ _ _ Hpr) as [Hpin Hpid].
  assert (Hp : store.has_pr (db w) prID = true)
    by (apply has_pr_true; eauto).
  assert (F1 : store.fits 100 prID = true)
    by (rewrite <- Hpid; apply (Hcp pr Hpin)).
  assert (Hi : service.is_assigned (store.reviewers_of (db w) prID) oldUserID
               = true).
  { apply is_assigned_true. split; [|assumption].
    apply has_user_true. destruct (find_user_some _ _ _ Hold). eauto. }
  unfold service.ReassignReviewer, store.GetPR.
  rewrite query_Background, Hpr, Hs. cbn [store.status_eqb].
  unfold store.GetPRReviewers. rewrite query_Background. cbn [db count_stmt].
  rewrite Hi. cbn [negb]. unfold store.GetUser.
  rewrite query_Background. cbn [db count_stmt]. rewrite Hold.
  unfold store.GetActiveTeamMembers. rewrite query_Background.
  cbn [db count_stmt]. rewrite available_is_replacement_pool. cbv zeta.
  set (pool := replacement_pool (db w) (store.TeamName old)
                                (store.AuthorID pr) prID oldUserID) in *.
  assert (Hin : forall j x, nth_error pool j = Some x ->
                            In (store.UserID x) (map store.UserID pool))
    by (intros j x Hx; apply in_map; apply (nth_error_In _ _ Hx)).
  assert (Hmem : forall x, In x pool ->
                  In x (store.users (db w))
                  /\ store.has_edge (db w) prID (store.UserID x) = false).
  { intros x Hx. subst pool. unfold replacement_pool in Hx.
    apply filter_In in Hx. destruct Hx as [Hx Hcond]. split; [exact Hx|].
    apply andb_true_iff in Hcond. destruct Hcond as [Hcond _].
    apply andb_true_iff in Hcond. destruct Hcond as [_ Hcond].
    apply negb_true_iff in Hcond. exact Hcond. }
  destruct (length pool) as [|n] eqn:El.
  { destruct pool; [contradiction|discriminate]. }
  cbn [Nat.eqb].
  match goal with
  | |- exists r newID w', bind (rand_Intn _) _ ?w5 = _ /\ _ =>
      pose (j := rand w5 (rand_draws w5) mod S n);
      assert (E : @rand_Intn store.Tables (S n) w5 = (Ok j, advance_rand w5))
        by reflexivity
  end.
  assert (Hj : j < S n) by (apply Nat.mod_upper_bound; discriminate).
  rewrite (bind_run _ _ _ _ _ E).
  destruct (nth_error pool j) as [newReviewer|] eqn:En;
    [|apply nth_error_None in En; lia].
  destruct (Hmem newReviewer (nth_error_In _ _ En)) as [Hnu Hne].
  assert (F2 : store.fits 100 (store.UserID newReviewer) = true)
    by (apply (Hcu newReviewer Hnu)).
  assert (Hu : store.has_user (db w) (store.UserID newReviewer) = true)
    by (apply has_user_true; eauto).
  unfold store.RemoveReviewer. rewrite exec_Background.
  unfold store.AssignReviewer.
  rewrite bind_assoc, time_Now_bind, exec_Background.
  cbn [db set_db count_stmt advance_clock advance_rand].
  rewrite F1, F2. cbn [andb negb].
  match goal with
  | |- context [store.has_edge ?d prID (store.UserID newReviewer)] =>
      pose (d1 := d);
      assert (Hfree : store.has_edge d1 prID (store.UserID newReviewer) = false)
  end.
  { destruct (store.has_edge d1 prID (store.UserID newReviewer)) eqn:Hx;
      [|reflexivity].
    apply has_edge_true in Hx. destruct Hx as (e & Hein & H1 & H2).
    unfold d1 in Hein. cbn [store.pr_reviewers] in Hein.
    apply filter_In in Hein.
    destruct Hein as [Hein _].
    assert (Ht : store.has_edge (db w) prID (store.UserID newReviewer) = true)
      by (apply has_edge_true; eauto).
    congruence. }
  unfold d1 in Hfree. rewrite Hfree. clear d1 Hfree.
  match goal with
  | |- context [store.has_pr ?d prID] =>
      replace (store.has_pr d prID) with true by (symmetry; exact Hp)
  end.
  match goal with
  | |- context [store.has_user ?d (store.UserID newReviewer)] =>
      replace (store.has_user d (store.UserID newReviewer)) with true
        by (symmetry; exact Hu)
  end.
  cbn [andb negb]. rewrite query_Background. unfold ret.
  eexists. eexists. eexists. split; [reflexivity|].
  apply (Hin j). exact En.
Qed.

Lemma ReassignReviewer_succeeds_witness :
  let w := engine.replay
             [engine.CreateOrUpdateTeam "backend"
                [service.mkTeamMember "A" "alice" true;
                 service.mkTeamMember "B" "bob" true;
                 service.mkTeamMember "C" "carol" true;
                 service.mkTeamMember "D" "dave" true];
              engine.CreatePR "pr1" "fix" "A"]
             (engine.fresh 0) in
  exists r newID w',
    service.ReassignReviewer Background "pr1" "D" w = (Ok (r, newID), w').
Proof.
  intros w.
  destruct (ReassignReviewer_succeeds w "pr1" "D"
              (store.mkPullRequest "pr1" "fix" "A" store.PRStatusOpen
                                   1006%Z None)
              (store.mkUser "D" "dave" true "backend" 1004%Z))
    as (r & newID & w' & E & _).
  - vm_compute. reflexivity.
  - apply reachable_columns. apply reachable_replay.
    apply engine.reachable_empty. reflexivity.
  - vm_compute. reflexivity.
  - reflexivity.
  - vm_compute. reflexivity.
  - vm_compute. reflexivity.
  - vm_compute. discriminate.
  - exists r, newID, w'. exact E.
Defined.
